(** * strings-patcher: the string scanner and the header navigators

    A shallow embedding of [common.c] (the substitution engine), of the PE
    navigator of [pefile.c] and of the ELF navigator, followed by the
    properties of the specification that concern them.

    Conventions of the embedding.
    - A [char] is a [Byte.byte]; a C string argument ([search], [replace],
      [section]) is the list of its bytes without the terminating NUL, so
      that [strlen] is [length] and reading index [length s] yields the
      terminator ([nth] with default [x00]).
    - A pointer into an array, [&data[offset]], is the suffix
      [drop offset data]; loops that walk an index keep the index and read
      with [nth].
    - [size_t] is 64 bits wide, [unsigned int] and [int] 32 bits wide;
      where an unsigned operand can leave the range the wrap-around is
      written with [mod].
    - A write through [memcpy] or [memset] outside its destination is
      undefined in C; the embedding stops there with [Overrun] and the name
      of the object that was overrun. *)

From Stdlib Require Import ZArith Lia Strings.Byte Strings.String.
From stdpp Require Import base list.

Local Open Scope Z_scope.
Local Open Scope nat_scope.

(** ** Small error monad for undefined behaviour *)

(** The two objects that [common.c] writes to: the block it allocates for
    the rewritten run, and the buffer of the caller. *)
Inductive region : Type :=
  | TempBlock
  | DataBuffer.

Inductive outcome (A : Type) : Type :=
  | Done (a : A)
  | Overrun (r : region).

Arguments Done {A} a.
Arguments Overrun {A} r.

Definition bind_out {A B : Type} (m : outcome A) (k : A -> outcome B) : outcome B :=
  match m with
  | Done a => k a
  | Overrun r => Overrun r
  end.

Notation "'do' x <- m ; k" := (bind_out m (fun x => k))
  (at level 10, x name, m at level 100, k at level 200).

(** ** Machine integers *)

Definition wrap_size (z : Z) : Z := (z mod 2 ^ 64)%Z.
Definition wrap_uint (z : Z) : Z := (z mod 2 ^ 32)%Z.

(** The largest [int]; arithmetic on [int] that leaves the range is
    undefined, not wrapped. *)
Definition INT_MAX : Z := (2 ^ 31 - 1)%Z.

(** ** Bytes and C strings *)

Definition is_nul (b : byte) : bool := Byte.eqb b x00.

(** [s[i]] for a C array or a NUL-terminated string. *)
Definition char_at (s : list byte) (i : nat) : byte := nth i s x00.

(** The bytes of a string literal, for examples. *)
Definition cstr (s : string) : list byte := list_byte_of_string s.

(** ** Memory writes

    [memcpy r dst pos src] writes [src] at [&dst[pos]], where [dst] is the
    whole object [r]. *)

Definition memcpy (r : region) (dst : list byte) (pos : nat) (src : list byte)
    : outcome (list byte) :=
  if pos + length src <=? length dst
  then Done (take pos dst ++ src ++ drop (pos + length src) dst)
  else Overrun r.

Definition memset (r : region) (dst : list byte) (pos : nat) (b : byte) (n : nat)
    : outcome (list byte) :=
  memcpy r dst pos (replicate n b).

(** ** The allocator

    [malloc] returns a block of indeterminate contents, [realloc] keeps the
    old contents up to the lesser of the two sizes; either may fail.  The
    indeterminate bytes and the outcome of a request are given by the
    environment. *)

Record allocator : Type := {
  fresh : nat -> byte;
  grants : nat -> bool
}.

Definition malloc (al : allocator) (n : nat) : option (list byte) :=
  if grants al n then Some (map (fresh al) (seq 0 n)) else None.

Definition realloc (al : allocator) (old : list byte) (n : nat) : option (list byte) :=
  if grants al n
  then Some (take n old ++ map (fresh al) (seq (length old) (n - length old)))
  else None.

(** ** common.c *)

(** [count_occurrences]: the [while] loop over [strLen], with [fuel] the
    number of iterations left.  Returns the count and the final [strLen]. *)
Fixpoint count_occurrences_loop (fuel : nat) (str word : list byte) (wordLen : nat)
    (strLen c : nat) (count : Z) : Z * nat :=
  match fuel with
  | O => (count, strLen)
  | S fuel' =>
      if is_nul (char_at str strLen) then (count, strLen)
      else
        let c1 := if Byte.eqb (char_at str strLen) (char_at word c) then S c else 0 in
        if wordLen <=? c1
        then count_occurrences_loop fuel' str word wordLen (S strLen) 0 (wrap_uint (count + 1))
        else count_occurrences_loop fuel' str word wordLen (S strLen) c1 count
  end.

Definition count_occurrences (str word : list byte) (wordLen len : nat) : Z * nat :=
  count_occurrences_loop len str word wordLen 0 0 0%Z.

(** [available_length]: [lc] starts at 1; the function is only called with
    [len >= 1], so [len - 1] and [i - 1] do not wrap. *)
Fixpoint available_length_loop (fuel : nat) (str : list byte) (len i : nat) (lc : byte) : nat :=
  match fuel with
  | O => len - 1
  | S fuel' =>
      if negb (is_nul (char_at str i)) && is_nul lc then i - 1
      else available_length_loop fuel' str len (S i) (char_at str i)
  end.

Definition available_length (str : list byte) (len : nat) : nat :=
  available_length_loop len str len 0 x01.

(** [string_substitute]: [output] is the block being written; the result is
    the block after the loop. *)
Fixpoint string_substitute_loop (fuel : nat) (output input search replace : list byte)
    (searchLen replaceLen : nat) (i j c : nat) : outcome (list byte) :=
  match fuel with
  | O => Done output
  | S fuel' =>
      do r1 <- (if Byte.eqb (char_at input i) (char_at search c)
                then Done (output, j, S c)
                else
                  let c' := S c in
                  do out <- memcpy TempBlock output j (take c' (drop (i - (c' - 1)) input));
                  Done (out, j + c', 0));
      let '(output1, j1, c1) := r1 in
      do r2 <- (if searchLen <=? c1
                then
                  do out <- memcpy TempBlock output1 j1 (take replaceLen replace);
                  Done (out, j1 + replaceLen, 0)
                else Done (output1, j1, c1));
      let '(output2, j2, c2) := r2 in
      string_substitute_loop fuel' output2 input search replace searchLen replaceLen (S i) j2 c2
  end.

Definition string_substitute (output input search replace : list byte)
    (searchLen replaceLen inputLen : nat) : outcome (list byte) :=
  string_substitute_loop inputLen output input search replace searchLen replaceLen 0 0 0.

(** The locals of the two scanning loops. *)
Record scan : Type := mkScan {
  sc_data : list byte;
  sc_state : Z;
  sc_c : nat;
  sc_offset : nat;
  sc_ret : Z;
  sc_buffer : option (list byte)
}.

Section SearchAndReplace.

Variable al : allocator.
Variables search replace : list byte.

Let searchLen := length search.
Let replaceLen := length replace.

(** Lines 125-170: the matching step of substring mode at index [i], once
    the state dispatch has let the iteration through. *)
Definition sr_match (len i : nat) (st : scan) : outcome scan :=
  let data := sc_data st in
  let c1 := if Byte.eqb (char_at data i) (char_at search (sc_c st)) then S (sc_c st) else 0 in
  if searchLen <=? c1 then
    let offset := sc_offset st in
    let '(count, curLen) := count_occurrences (drop offset data) search searchLen (len - offset) in
    let newLen := wrap_size (Z.of_nat curLen + count * (Z.of_nat replaceLen - Z.of_nat searchLen)) in
    let available := available_length (drop offset data) (len - offset) in
    if (Z.of_nat available <? newLen)%Z then
      Done (mkScan data 1 0 offset 2 (sc_buffer st))
    else
      let newLen := Z.to_nat newLen in
      match (match sc_buffer st with
             | Some b => realloc al b newLen
             | None => malloc al newLen
             end) with
      | None => Done (mkScan data 1 0 offset 0 None)
      | Some buffer =>
          do buffer' <- string_substitute buffer (drop offset data) search replace
                          searchLen replaceLen curLen;
          do data1 <- memcpy DataBuffer data offset (take newLen buffer');
          do data2 <- memset DataBuffer data1 (offset + newLen) x00 (available - newLen);
          Done (mkScan data2 1 0 offset 0 (Some buffer'))
      end
  else Done (mkScan data (sc_state st) c1 (sc_offset st) (sc_ret st) (sc_buffer st)).

(** One iteration of the [for] loop of [search_and_replace]. *)
Definition sr_body (len i : nat) (st : scan) : outcome scan :=
  let data := sc_data st in
  if (sc_state st =? 0)%Z then
    if is_nul (char_at data i) then Done st
    else sr_match len i (mkScan data 2 (sc_c st) i (sc_ret st) (sc_buffer st))
  else if (sc_state st =? 1)%Z then
    if is_nul (char_at data i)
    then Done (mkScan data 0 (sc_c st) (sc_offset st) (sc_ret st) (sc_buffer st))
    else Done st
  else
    if is_nul (char_at data i)
    then sr_match len i (mkScan data 0 0 (sc_offset st) (sc_ret st) (sc_buffer st))
    else sr_match len i st.

(** Lines 205-233: the matching step of exact mode at index [i]. *)
Definition sre_match (len i : nat) (st : scan) : outcome scan :=
  let data := sc_data st in
  let '(c1, state1) :=
    if Byte.eqb (char_at data i) (char_at search (sc_c st))
    then (S (sc_c st), sc_state st)
    else (0, 1%Z) in
  if (searchLen <? c1) && is_nul (char_at data i) then
    let offset := sc_offset st in
    let available := available_length (drop offset data) (len - offset) in
    if available <? replaceLen then
      Done (mkScan data 0 0 offset 2 (sc_buffer st))
    else
      do data1 <- memcpy DataBuffer data offset (take replaceLen replace);
      do data2 <- memset DataBuffer data1 (offset + replaceLen) x00 (available - replaceLen);
      Done (mkScan data2 0 0 offset 0 (sc_buffer st))
  else Done (mkScan data state1 c1 (sc_offset st) (sc_ret st) (sc_buffer st)).

(** One iteration of the [for] loop of [search_and_replace_exact]. *)
Definition sre_body (len i : nat) (st : scan) : outcome scan :=
  let data := sc_data st in
  if (sc_state st =? 0)%Z then
    if is_nul (char_at data i) then Done st
    else sre_match len i (mkScan data 2 (sc_c st) i (sc_ret st) (sc_buffer st))
  else if (sc_state st =? 1)%Z then
    if is_nul (char_at data i)
    then Done (mkScan data 0 (sc_c st) (sc_offset st) (sc_ret st) (sc_buffer st))
    else Done st
  else sre_match len i st.

(** [for (i = 0; i < len; i++)] over a loop body. *)
Fixpoint for_loop (body : nat -> scan -> outcome scan) (fuel i : nat) (st : scan) : outcome scan :=
  match fuel with
  | O => Done st
  | S fuel' => do st' <- body i st; for_loop body fuel' (S i) st'
  end.

Definition scan_init (data : list byte) : scan := mkScan data 0 0 0 1 None.

(** The two entry points; [len] is the length of [data].  The result is the
    return code and the buffer as the caller finds it. *)
Definition search_and_replace (data : list byte) : outcome (Z * list byte) :=
  let len := length data in
  do st <- for_loop (sr_body len) len 0 (scan_init data);
  Done (sc_ret st, sc_data st).

Definition search_and_replace_exact (data : list byte) : outcome (Z * list byte) :=
  let len := length data in
  do st <- for_loop (sre_body len) len 0 (scan_init data);
  Done (sc_ret st, sc_data st).

End SearchAndReplace.

(** ** Runs and their room (the vocabulary of the specification) *)

(** The printable length of the string that starts at the head of [s]: the
    number of bytes before the first zero byte or the end. *)
Fixpoint run_length (s : list byte) : nat :=
  match s with
  | [] => 0
  | b :: s' => if is_nul b then 0 else S (run_length s')
  end.



(** ** Streams

    A [FILE] is the bytes of the file and a position.  [fseek] fails on a
    negative position and succeeds beyond the end; [fread] returns the bytes
    it could read, the number of complete items among them, and the stream
    advanced by the bytes read.  [long] is 64 bits wide. *)

Record FILE : Type := mkFILE {
  f_bytes : list byte;
  f_pos : Z
}.

Definition fseek_set (f : FILE) (offset : Z) : option FILE :=
  if (offset <? 0)%Z then None else Some (mkFILE (f_bytes f) offset).

Definition fseek_cur (f : FILE) (offset : Z) : option FILE :=
  fseek_set f (f_pos f + offset).

Definition fread (f : FILE) (size nmemb : nat) : list byte * nat * FILE :=
  let got := take (size * nmemb) (drop (Z.to_nat (f_pos f)) (f_bytes f)) in
  (got, length got / size, mkFILE (f_bytes f) (f_pos f + Z.of_nat (length got))).

(** The value of a byte as an [unsigned char]. *)
Definition uchar (b : byte) : Z := Z.of_N (Byte.to_N b).

(** The integer a little-endian host finds in the bytes it has read. *)
Definition le_uint (bs : list byte) : Z :=
  fold_right (fun b acc => (uchar b + 256 * acc)%Z) 0%Z bs.

(** [to_long]: the conversion of a 64-bit unsigned value to [long]. *)
Definition to_long (z : Z) : Z :=
  let u := wrap_size z in if (u <? 2 ^ 63)%Z then u else (u - 2 ^ 64)%Z.

(** [strncmp]: stops at the first difference, at a NUL, or after [n] bytes. *)
Fixpoint strncmp (s1 s2 : list byte) (n : nat) : Z :=
  match n with
  | O => 0%Z
  | S n' =>
      let a := char_at s1 0 in
      let b := char_at s2 0 in
      if Byte.eqb a b
      then if is_nul a then 0%Z else strncmp (tl s1) (tl s2) n'
      else (uchar a - uchar b)%Z
  end.

(** [strcmp(s, &buf[idx])] where [buf] is an allocated block: [None] when
    the comparison reads past the end of the block. *)
Fixpoint strcmp_at (s buf : list byte) (idx : nat) : option Z :=
  match s with
  | [] =>
      match buf !! idx with
      | None => None
      | Some b => Some (0 - uchar b)%Z
      end
  | a :: s' =>
      match buf !! idx with
      | None => None
      | Some b =>
          if Byte.eqb a b
          then if is_nul a then Some 0%Z else strcmp_at s' buf (S idx)
          else Some (uchar a - uchar b)%Z
      end
  end.

(** How a navigator leaves: [Go a] carries on (and, for a whole navigator,
    is [return 0] with the out-parameters [a]); [Return code] is a
    [return] of a non-zero code; [Undefined] is undefined behaviour. *)
Inductive flow (A : Type) : Type :=
  | Go (a : A)
  | Return (code : Z)
  | Undefined.

Arguments Go {A} a.
Arguments Return {A} code.
Arguments Undefined {A}.

Definition flow_bind {A B : Type} (m : flow A) (k : A -> flow B) : flow B :=
  match m with
  | Go a => k a
  | Return code => Return code
  | Undefined => Undefined
  end.

Notation "'run' x <- m ; k" := (flow_bind m (fun x => k))
  (at level 10, x pattern, m at level 100, k at level 200).

(** [if (fseek(...) != 0) return code;] *)
Definition seek_or (code : Z) (r : option FILE) : flow FILE :=
  match r with
  | Some f => Go f
  | None => Return code
  end.

(** [if (fread(ptr, size, nmemb, f) != nmemb) return code;] *)
Definition read_or (code : Z) (f : FILE) (size nmemb : nat) : flow (list byte * FILE) :=
  let '(got, n, f') := fread f size nmemb in
  if n =? nmemb then Go (got, f') else Return code.

(** [advance_and_read] (the same in both navigators): the return value, the
    bytes stored through [ptr], the stream. *)
Definition advance_and_read (f : FILE) (size : nat) (offset : Z) : Z * list byte * FILE :=
  match fseek_cur f offset with
  | None => (0%Z, [], f)
  | Some f1 =>
      let '(got, n, f2) := fread f1 size 1 in
      if n =? 1 then (1%Z, got, f2) else (0%Z, got, f2)
  end.

(** [if (!advance_and_read(...)) return code;] *)
Definition advance_or (code : Z) (f : FILE) (size : nat) (offset : Z) : flow (list byte * FILE) :=
  let '(ok, got, f') := advance_and_read f size offset in
  if (ok =? 0)%Z then Return code else Go (got, f').

(** ** pefile.c *)

Definition PE_SIGNATURE : list byte := [x50; x45; x00; x00].

(** The [for] loop over the section table.  [Go] is the loop left by
    [break] or by its condition, with the two out-parameters. *)
Fixpoint pe_sections_loop (fuel : nat) (in_ : FILE) (section : list byte)
    (sectionStringsAddress sectionStringsLen : Z) : flow (Z * Z) :=
  match fuel with
  | O => Go (sectionStringsAddress, sectionStringsLen)
  | S fuel' =>
      let '(sectionName, n, in1) := fread in_ 1 8 in
      if (n =? 8) && (strncmp section sectionName 8 =? 0)%Z then
        run (lenBytes, in2) <- advance_or 8 in1 4 8;
        run (addrBytes, in3) <- read_or 8 in2 4 1;
        Go (le_uint addrBytes, le_uint lenBytes)
      else
        run in2 <- seek_or 8 (fseek_cur in1 32);
        pe_sections_loop fuel' in2 section sectionStringsAddress sectionStringsLen
  end.

(** [pe_find_strings_section]: [Go (address, length)] is [return 0]. *)
Definition pe_find_strings_section (in_ : FILE) (section : list byte) : flow (Z * Z) :=
  run in1 <- seek_or 5 (fseek_set in_ 60);
  run (b, in2) <- read_or 5 in1 4 1;
  let headerLocation := le_uint b in
  run in3 <- seek_or 5 (fseek_set in2 headerLocation);
  run (signature, in4) <- read_or 5 in3 1 4;
  if negb (strncmp signature PE_SIGNATURE 4 =? 0)%Z then Return 4 else
  run (b, in5) <- advance_or 5 in4 2 2;
  let sectionNums := le_uint b in
  run (b, in6) <- advance_or 5 in5 2 12;
  let optionalHeaderSize := le_uint b in
  run in7 <- seek_or 6 (fseek_cur in6 (optionalHeaderSize + 2));
  run (sectionStringsAddress, sectionStringsLen) <-
    pe_sections_loop (Z.to_nat sectionNums) in7 section 0 0;
  if (sectionStringsAddress =? 0)%Z then Return 9
  else Go (sectionStringsAddress, sectionStringsLen).

(** ** The ELF navigator

    The build modelled is the one for a little-endian host that is not
    Windows: [swap_data_N] swaps for a big-endian file and [bswap_N] is the
    reversal of the bytes. *)

Definition IS_32_BITS (c : Z) : bool := (c =? 1)%Z.
Definition IS_LIT_ENDIAN (e : Z) : bool := (e =? 1)%Z.
Definition IS_BIG_ENDIAN (e : Z) : bool := (e =? 2)%Z.

Definition bswap_16 (d : Z) : Z :=
  Z.land (Z.lor (Z.shiftl d 8) (Z.shiftr d 8)) 65535.

Definition bswap_32 (d : Z) : Z :=
  Z.lor (Z.lor (Z.lor
    (Z.shiftr (Z.land d 4278190080) 24)
    (Z.shiftr (Z.land d 16711680) 8))
    (Z.shiftl (Z.land d 65280) 8))
    (Z.shiftl (Z.land d 255) 24).

Definition bswap_64 (d : Z) : Z :=
  Z.lor (Z.lor (Z.lor (Z.lor (Z.lor (Z.lor (Z.lor
    (Z.shiftr (Z.land d 18374686479671623680) 56)
    (Z.shiftr (Z.land d 71776119061217280) 40))
    (Z.shiftr (Z.land d 280375465082880) 24))
    (Z.shiftr (Z.land d 1095216660480) 8))
    (Z.shiftl (Z.land d 4278190080) 8))
    (Z.shiftl (Z.land d 16711680) 24))
    (Z.shiftl (Z.land d 65280) 40))
    (Z.shiftl (Z.land d 255) 56).

Definition swap_data_16 (endianness d : Z) : Z :=
  if IS_BIG_ENDIAN endianness then bswap_16 d else d.

Definition swap_data_32 (endianness d : Z) : Z :=
  if IS_BIG_ENDIAN endianness then bswap_32 d else d.

Definition swap_data_64 (endianness d : Z) : Z :=
  if IS_BIG_ENDIAN endianness then bswap_64 d else d.

(** [union Word]: eight bytes of storage; on the little-endian host [e32]
    is the low half of [e64]. *)
Record Word : Type := mkWord { w_bits : Z }.

Definition e64 (w : Word) : Z := (w_bits w mod 2 ^ 64)%Z.
Definition e32 (w : Word) : Z := (w_bits w mod 2 ^ 32)%Z.
Definition set_e64 (w : Word) (v : Z) : Word := mkWord (v mod 2 ^ 64)%Z.
Definition set_e32 (w : Word) (v : Z) : Word :=
  mkWord (e64 w - e32 w + v mod 2 ^ 32)%Z.

Record ElfAttrs : Type := mkElfAttrs {
  class : Z;
  endianness : Z
}.

Definition swap_data_word (endianness class : Z) (w : Word) : Word :=
  if IS_32_BITS class
  then set_e32 w (swap_data_32 endianness (e32 w))
  else set_e64 w (swap_data_64 endianness (e64 w)).

Definition word_to_long (class : Z) (w : Word) : Z :=
  if IS_32_BITS class then e32 w else to_long (e64 w).

(** [read_word]: the local [r] is declared without a value and is what the
    test reads; its value is given by the environment.  The result is the
    return value of [fread], the word and the stream. *)
Definition read_word (r : Z) (f : FILE) (ptr : Word) (class : Z) : Z * Word * FILE :=
  if IS_32_BITS r then
    let '(got, n, f') := fread f 4 1 in
    (Z.of_nat n, if n =? 1 then set_e32 ptr (le_uint got) else ptr, f')
  else
    let '(got, n, f') := fread f 8 1 in
    (Z.of_nat n, if n =? 1 then set_e64 ptr (le_uint got) else ptr, f').

Definition advance_and_read_word (r : Z) (f : FILE) (ptr : Word) (class : Z) (offset : Z)
    : Z * Word * FILE :=
  match fseek_cur f offset with
  | None => (0%Z, ptr, f)
  | Some f1 =>
      let '(n, w, f2) := read_word r f1 ptr class in
      if (n =? 1)%Z then (1%Z, w, f2) else (0%Z, w, f2)
  end.

(** What the environment decides in [elf_find_strings_section]: the value
    of [r] at each of the five calls of [read_word], and the storage of the
    three [Word] locals that are declared without a value. *)
Record indeterminate : Type := {
  ind_r : nat -> Z;
  ind_word : nat -> Z
}.

Section ElfNavigator.

Variable u : indeterminate.
Variable al : allocator.
Variable section : list byte.

(** [if (!advance_and_read_word(...)) return code;] *)
Definition advance_word_or (code : Z) (k : nat) (f : FILE) (ptr : Word) (class offset : Z)
    : flow (Word * FILE) :=
  let '(ok, w, f') := advance_and_read_word (ind_r u k) f ptr class offset in
  if (ok =? 0)%Z then Return code else Go (w, f').

(** [if (read_word(...) != 1) return code;] *)
Definition read_word_or (code : Z) (k : nat) (f : FILE) (ptr : Word) (class : Z)
    : flow (Word * FILE) :=
  let '(n, w, f') := read_word (ind_r u k) f ptr class in
  if (n =? 1)%Z then Go (w, f') else Return code.

(** The [for] loop over the section headers. *)
Fixpoint elf_sections_loop (fuel : nat) (in_ : FILE) (attrs : ElfAttrs)
    (shstrtab : list byte) (sectionTableSize : Z)
    (sectionStringsAddress sectionStringsLen : Word) : flow (Word * Word) :=
  match fuel with
  | O => Go (sectionStringsAddress, sectionStringsLen)
  | S fuel' =>
      let next (f : FILE) :=
        run in2 <- seek_or 8 (fseek_cur f (to_long (sectionTableSize - 4)));
        elf_sections_loop fuel' in2 attrs shstrtab sectionTableSize
          sectionStringsAddress sectionStringsLen in
      let '(b, n, in1) := fread in_ 4 1 in
      if n =? 1 then
        let sectionNameIndex := le_uint b in
        match strcmp_at section shstrtab (Z.to_nat sectionNameIndex) with
        | None => Undefined
        | Some cmp =>
            if (cmp =? 0)%Z then
              run (w, in2) <- advance_word_or 8 3 in1 sectionStringsAddress (class attrs)
                                 (if IS_32_BITS (class attrs) then 12 else 20);
              let sectionStringsAddress :=
                swap_data_word (endianness attrs) (class attrs) w in
              run (w, in3) <- read_word_or 8 4 in2 sectionStringsLen (class attrs);
              let sectionStringsLen :=
                swap_data_word (endianness attrs) (class attrs) w in
              Go (sectionStringsAddress, sectionStringsLen)
            else next in1
        end
      else next in1
  end.

(** [elf_find_strings_section]: [Go (address, length, attrs)] is
    [return 0]; the stream is just past the magic number.  The product
    [sectionTableNames * sectionTableSize] of two [uint16_t] is computed
    in [int]: above [INT_MAX] the multiplication overflows and the
    behaviour is undefined. *)
Definition elf_find_strings_section (in_ : FILE) : flow (Word * Word * ElfAttrs) :=
  let sectionStringsAddress := mkWord 0 in
  let sectionStringsLen := mkWord 0 in
  run (b, in1) <- read_or 5 in_ 1 1;
  let class := le_uint b in
  run (b, in2) <- read_or 5 in1 1 1;
  let endianness := le_uint b in
  let attrs := mkElfAttrs class endianness in
  run (w, in3) <- advance_word_or 5 0 in2 (mkWord (ind_word u 0)) class
                     (if IS_32_BITS class then 26 else 34);
  let sectionTableAddress := swap_data_word endianness class w in
  run (b, in4) <- advance_or 5 in3 2 10;
  let sectionTableSize := swap_data_16 endianness (le_uint b) in
  run (b, in5) <- read_or 5 in4 2 1;
  let sectionTableLen := swap_data_16 endianness (le_uint b) in
  run (b, in6) <- read_or 5 in5 2 1;
  let sectionTableNames := swap_data_16 endianness (le_uint b) in
  let sections_addr := word_to_long class sectionTableAddress in
  run in7 <- seek_or 6 (fseek_set in6 sections_addr);
  if (INT_MAX <? sectionTableNames * sectionTableSize)%Z then Undefined else
  run in8 <- seek_or 6 (fseek_cur in7 (sectionTableNames * sectionTableSize));
  run (w, in9) <- advance_word_or 6 1 in8 (mkWord (ind_word u 1)) class
                     (if IS_32_BITS class then 16 else 24);
  let sectionNamesAddress := swap_data_word endianness class w in
  run (w, in10) <- read_word_or 6 2 in9 (mkWord (ind_word u 2)) class;
  let sectionNamesLen := swap_data_word endianness class w in
  run in11 <- seek_or 6 (fseek_set in10 (word_to_long class sectionNamesAddress));
  let shstrtab_len := Z.to_nat (wrap_size (word_to_long class sectionNamesLen)) in
  if negb (grants al shstrtab_len) then Return 7 else
  run (shstrtab, in12) <- read_or 7 in11 shstrtab_len 1;
  run in13 <- seek_or 6 (fseek_set in12 sections_addr);
  run (sectionStringsAddress, sectionStringsLen) <-
    elf_sections_loop (Z.to_nat sectionTableLen) in13 attrs shstrtab sectionTableSize
      sectionStringsAddress sectionStringsLen;
  if (e64 sectionStringsAddress =? 0)%Z then Return 9
  else Go (sectionStringsAddress, sectionStringsLen, attrs).

End ElfNavigator.

(** What a successful navigation rests on: a section header, read at
    position [p] of the file, whose name compares equal to the target and
    whose two fields are the results. *)
Definition pe_header_matches (bytes section : list byte) (address len : Z) : Prop :=
  exists p : Z,
    let name := take 8 (drop (Z.to_nat p) bytes) in
    length name = 8 /\
    strncmp section name 8 = 0%Z /\
    len = le_uint (take 4 (drop (Z.to_nat (p + 16)) bytes)) /\
    address = le_uint (take 4 (drop (Z.to_nat (p + 20)) bytes)).

(** *** The layout of an ELF file as the navigator reads it *)

(** The number of bytes that [read_word] reads when its local [r] holds
    [r], and the word it leaves in the storage [ptr] when the bytes read
    hold [v]. *)
Definition word_width (r : Z) : nat := if IS_32_BITS r then 4 else 8.




(** The class and the endianness: the two bytes at the position of the
    stream, which is just past the magic number. *)
Definition elf_ident (in_ : FILE) : ElfAttrs :=
  mkElfAttrs (le_uint (take 1 (drop (Z.to_nat (f_pos in_)) (f_bytes in_))))
             (le_uint (take 1 (drop (Z.to_nat (f_pos in_ + 1)) (f_bytes in_)))).

Section ElfLayout.

Variable u : indeterminate.
Variable in_ : FILE.

Let attrs := elf_ident in_.
Let bytes := f_bytes in_.










End ElfLayout.



(** ** Sample inputs *)

Definition zero_alloc : allocator := {| fresh := fun _ => x00; grants := fun _ => true |}.

(** [n] bytes of [v], least significant first. *)
Fixpoint le_bytes (n : nat) (v : Z) : list byte :=
  match n with
  | O => []
  | S n' =>
      match Byte.of_N (Z.to_N (v mod 256)) with
      | Some b => b :: le_bytes n' (v / 256)
      | None => x00 :: le_bytes n' (v / 256)
      end
  end.

(** A PE image with two sections, [.text] and [.rdata]; the fourth byte of
    the signature and the raw size and raw pointer of [.rdata] are left to
    the example. *)
Definition pe_image (sig3 : byte) (rawSize rawPtr : Z) : list byte :=
  cstr "MZ" ++ replicate 58 x00 ++ le_bytes 4 64
  ++ [x50; x45; x00; sig3]
  ++ le_bytes 2 332 ++ le_bytes 2 2 ++ replicate 12 x00 ++ le_bytes 2 0 ++ le_bytes 2 258
  ++ cstr ".text" ++ replicate 3 x00 ++ le_bytes 4 16 ++ le_bytes 4 4096
     ++ le_bytes 4 16 ++ le_bytes 4 168 ++ replicate 16 x00
  ++ cstr ".rdata" ++ replicate 2 x00 ++ le_bytes 4 16 ++ le_bytes 4 8192
     ++ le_bytes 4 rawSize ++ le_bytes 4 rawPtr ++ replicate 16 x00
  ++ cstr "hello" ++ [x00] ++ cstr "world" ++ replicate 5 x00.

(** A 32-bit little-endian ELF image with the sections [.rodata] and
    [.shstrtab]; the offset and size recorded for [.rodata] are left to the
    example. *)
Definition elf_image (roOffset roSize : Z) : list byte :=
  [x7f; x45; x4c; x46; x01; x01; x01] ++ replicate 9 x00
  ++ le_bytes 2 2 ++ le_bytes 2 3 ++ le_bytes 4 1 ++ le_bytes 4 0 ++ le_bytes 4 0
  ++ le_bytes 4 88 ++ le_bytes 4 0 ++ le_bytes 2 52 ++ le_bytes 2 0 ++ le_bytes 2 0
  ++ le_bytes 2 40 ++ le_bytes 2 3 ++ le_bytes 2 2
  ++ cstr "hello" ++ [x00] ++ cstr "world" ++ replicate 5 x00
  ++ [x00] ++ cstr ".rodata" ++ [x00] ++ cstr ".shstrtab" ++ [x00; x00]
  ++ replicate 40 x00
  ++ le_bytes 4 1 ++ le_bytes 4 1 ++ le_bytes 4 2 ++ le_bytes 4 0
     ++ le_bytes 4 roOffset ++ le_bytes 4 roSize ++ replicate 16 x00
  ++ le_bytes 4 9 ++ le_bytes 4 3 ++ le_bytes 4 0 ++ le_bytes 4 0
     ++ le_bytes 4 68 ++ le_bytes 4 19 ++ replicate 16 x00.

(** An environment in which [r] happens to hold [v] at every call. *)
Definition env_r (v : Z) : indeterminate :=
  {| ind_r := fun _ => v; ind_word := fun _ => 0%Z |}.

(** An environment in which [r] holds 0 at the call that reads the offset
    of the section found, and 1 at the other calls. *)
Definition env_r_offset_wide : indeterminate :=
  {| ind_r := fun k => if k =? 3 then 0%Z else 1%Z; ind_word := fun _ => 0%Z |}.

(** An allocator that never fails and hands out blocks filled by [fill]. *)
Definition granting (fill : nat -> byte) : allocator :=
  {| fresh := fill; grants := fun _ => true |}.

(** The buffer of the end-to-end scenarios of the specification. *)
Definition hello_world : list byte :=
  cstr "hello" ++ [x00] ++ cstr "world" ++ replicate 3 x00.

(** * The rest of the program

    The helpers of the scanner seen from their callers, the listing of
    the strings, the copies between the two files and the two entry
    points. *)

(** A C string holds no zero byte. *)
Definition nul_free (s : list byte) : Prop := Forall (fun b => is_nul b = false) s.

(** [lc] of [available_length] when the loop is at index [i]. *)
Definition last_char (str : list byte) (i : nat) : byte :=
  match i with
  | O => x01
  | S j => char_at str j
  end.

(** The run that starts at [off] is the string [s], terminated by a zero
    byte. *)
Definition run_equals (d s : list byte) (off : nat) : Prop :=
  (off = 0 \/ is_nul (char_at d (off - 1)) = true) /\
  take (length s + 1) (drop off d) = s ++ [x00].

(** What the loop of substring mode keeps while nothing has matched. *)
Definition sr_quiet (search data : list byte) (i : nat) (st : scan) : Prop :=
  sc_data st = data /\ sc_ret st = 1%Z /\
  sc_c st < length search /\ sc_c st <= i /\
  take (sc_c st) (drop (i - sc_c st) data) = take (sc_c st) search /\
  (sc_state st = 0%Z /\ sc_c st = 0 \/ sc_state st = 2%Z).

(** What the loop of exact mode keeps while nothing has matched. *)
Definition sre_quiet (search data : list byte) (i : nat) (st : scan) : Prop :=
  sc_data st = data /\ sc_ret st = 1%Z /\
  (sc_state st = 0%Z /\ sc_c st = 0 /\ (i = 0 \/ is_nul (char_at data (i - 1)) = true) \/
   sc_state st = 1%Z /\ sc_c st = 0 \/
   sc_state st = 2%Z /\ sc_c st <= length search /\ sc_offset st + sc_c st = i /\
     (sc_offset st = 0 \/ is_nul (char_at data (sc_offset st - 1)) = true) /\
     take (sc_c st) (drop (sc_offset st) data) = take (sc_c st) search).

(** A buffer that holds one string: [z] zero bytes, the string, [m] zero
    bytes. *)
Definition lone_string (z : nat) (s : list byte) (m : nat) : list byte :=
  replicate z x00 ++ s ++ replicate m x00.

(** ** Listing the strings

    [print_strings] is modelled by the lines it prints: the offset given
    to [%08X] and the text that [%.*s] writes. *)

(** [%.*s]: at most [precision] bytes of [s], stopping at a zero byte. *)
Fixpoint printf_s (precision : nat) (s : list byte) : list byte :=
  match precision, s with
  | S p, b :: s' => if is_nul b then [] else b :: printf_s p s'
  | _, _ => []
  end.

(** The [for] loop of [print_strings]; [s] is the index in [data] that the
    pointer [s] points to, [None] for [NULL]. *)
Fixpoint print_strings_loop (fuel : nat) (data : list byte) (offset_start : Z)
    (i l : nat) (s : option nat) : list (Z * list byte) :=
  match fuel with
  | O => []
  | S fuel' =>
      if is_nul (char_at data i) then
        if 0 <? l then
          (wrap_size (offset_start + Z.of_nat i - Z.of_nat l),
           printf_s l (match s with Some k => drop k data | None => [] end))
          :: print_strings_loop fuel' data offset_start (S i) 0 None
        else print_strings_loop fuel' data offset_start (S i) l s
      else
        let s := match s with None => Some i | Some _ => s end in
        print_strings_loop fuel' data offset_start (S i) (S l) s
  end.

Definition print_strings (data : list byte) (offset_start : Z) (len : nat)
    : list (Z * list byte) :=
  print_strings_loop len data offset_start 0 0 None.

(** The state in which the loop is: either outside a run, or [l] bytes
    into the run that starts at [k]. *)
Definition ps_state_at (i l : nat) (s : option nat) : Prop :=
  match s with Some k => k + l = i /\ 0 < l | None => l = 0 end.

(** ** Proof steps for the byte swaps *)

(** Every power of two in the goal as a literal. *)
Ltac pow_lits :=
  repeat match goal with
  | |- context [(2 ^ ?k)%Z] =>
      let p := eval vm_compute in (2 ^ k)%Z in change (2 ^ k)%Z with p
  end.

(** The byte of [v] at bit [k] is [u]. *)
Ltac byte_of v k u :=
  replace ((v / 2 ^ k) mod 256)%Z with u
    by (subst v; pow_lits; Z.div_mod_to_equations; lia).

(** The bounds [lo] and [hi] of the value of the byte [b]. *)
Ltac byte_bounds lo hi b :=
  pose proof (lo b); pose proof (hi b).

(** Joins the byte at bit [k] to the bytes below it, by the lemma [disjoint]. *)
Ltac join_byte disjoint k :=
  match goal with
  | |- context [Z.lor ?a (?b * ?p)%Z] =>
      replace (Z.lor a (b * p)%Z) with (a + b * p)%Z
        by (symmetry; apply (disjoint a b k); lia)
  end.

(** ** Writing and copying

    [fwrite] stores the bytes at the position of the stream, after filling
    a gap beyond the end with zero bytes, and advances the stream; it
    writes no item when [size] or [nmemb] is zero.  [src] is the block
    written from; the device is taken not to fail. *)
Definition fwrite (f : FILE) (src : list byte) (size nmemb : nat) : nat * FILE :=
  let n := size * nmemb in
  if n =? 0 then (0, f)
  else
    let pos := Z.to_nat (f_pos f) in
    let old := f_bytes f in
    (nmemb,
     mkFILE (take pos old ++ replicate (pos - length old) x00 ++ take n src
             ++ drop (pos + n) old)
            (f_pos f + Z.of_nat n)).

(** The [while] loop of [write_input_to_output_until] and of
    [write_input_to_output_end], which copies chunks of 1024 bytes while
    [i + 1024 < limit].  The result is [false] when the loop has left the
    function by [return 0], the two streams and [i]. *)
Fixpoint copy_chunks (fuel : nat) (in_ out : FILE) (i limit : Z) : bool * FILE * FILE * Z :=
  match fuel with
  | O => (true, in_, out, i)
  | S fuel' =>
      if (i + 1024 <? limit)%Z then
        let '(buffer, n, in1) := fread in_ 1024 1 in
        if negb (n =? 1) then (false, in1, out, i) else
        let '(w, out1) := fwrite out buffer 1024 1 in
        if negb (w =? 1) then (false, in1, out1, i) else
        copy_chunks fuel' in1 out1 (i + 1024)%Z limit
      else (true, in_, out, i)
  end.

(** What follows the loop in both functions: the remaining [l] bytes.
    [l] becomes a [size_t]; [None] is a read that runs past the 1024 bytes
    of [buffer]. *)
Definition copy_rest (in_ out : FILE) (l : Z) : option (Z * FILE * FILE) :=
  let size := Z.to_nat (wrap_size l) in
  let '(buffer, n, in1) := fread in_ size 1 in
  if 1024 <? length buffer then None
  else if negb (n =? 1) then Some (0%Z, in1, out)
  else
    let '(w, out1) := fwrite out buffer size 1 in
    if negb (w =? 1) then Some (0%Z, in1, out1) else Some (1%Z, in1, out1).

(** The loop and what follows it, as both functions run them. *)
Definition copy_all (fuel : nat) (in_ out : FILE) (i limit : Z) : option (Z * FILE * FILE) :=
  let '(ok, in1, out1, i') := copy_chunks fuel in_ out i limit in
  if negb ok then Some (0%Z, in1, out1) else copy_rest in1 out1 (limit - i').

(** [write_input_to_output_until] (the same in both files): the return
    value and the two streams.  The loop runs less than [offset] times. *)
Definition write_input_to_output_until (in_ out : FILE) (offset : Z)
    : option (Z * FILE * FILE) :=
  copy_all (Z.to_nat offset) in_ out 0 offset.

(** [write_input_to_output_end] (the same in both files); [ftell] after
    [fseek(in, 0, SEEK_END)] is the length of the file, and the stream is
    put back where it was. *)
Definition write_input_to_output_end (in_ out : FILE) : option (Z * FILE * FILE) :=
  let i := f_pos in_ in
  let end_ := Z.of_nat (length (f_bytes in_)) in
  copy_all (Z.to_nat end_) in_ out i end_.

(** ** The two entry points

    What a run leaves behind: the value returned, the bytes of the input
    file, the bytes of the output file if there is one, and the lines
    printed. *)
Record run_result : Type := mkResult {
  r_code : Z;
  r_in : list byte;
  r_out : option (list byte);
  r_printed : list (Z * list byte)
}.

(** A statement either goes on with a value, or leaves the function by
    [return], or has undefined behaviour. *)
Inductive step (A : Type) : Type :=
  | Next (a : A)
  | Exit (r : run_result)
  | Crash.

Arguments Next {A} a.
Arguments Exit {A} r.
Arguments Crash {A}.

Definition step_bind {A B : Type} (m : step A) (k : A -> step B) : step B :=
  match m with
  | Next a => k a
  | Exit r => Exit r
  | Crash => Crash
  end.

Notation "'proceed' x <- m ; k" := (step_bind m (fun x => k))
  (at level 10, x pattern, m at level 100, k at level 200).

(** The end of a function: the value it returns with. *)
Definition finish (m : step run_result) : option run_result :=
  match m with
  | Next r | Exit r => Some r
  | Crash => None
  end.

(** The call of the scanner in both entry points: substring mode when
    [exact] is 0. *)
Definition scan_strtab (al : allocator) (search replace : list byte) (exact : Z)
    (strtab : list byte) : outcome (Z * list byte) :=
  if (exact =? 0)%Z then search_and_replace al search replace strtab
  else search_and_replace_exact search replace strtab.

Section Process.

Variable al : allocator.
Variable in_ : FILE.
Variable out : option FILE.
Variable search : list byte.
Variable replace : option (list byte).
Variable exact : Z.

(** The part that [pe_process] and [elf_process] share, from the test of
    [out] that follows the navigation to the end: [loc] is
    [sectionStringsAddress] (PE) or [strtab_loc] (ELF), [len] is
    [sectionStringsLen] or [strtab_len].  The navigators leave the bytes
    of [in] as they are, and every [fseek] is absolute. *)
Definition process_section (loc : Z) (len : nat) : step run_result :=
  let bytes := f_bytes in_ in
  proceed out1 <- match out with
         | None => Next None
         | Some o =>
             match fseek_set in_ 0 with
             | None => Exit (mkResult 14 bytes (Some (f_bytes o)) [])
             | Some in1 =>
                 match write_input_to_output_until in1 o loc with
                 | None => Crash
                 | Some (ok, _, o1) =>
                     if (ok =? 0)%Z then Exit (mkResult 14 bytes (Some (f_bytes o1)) [])
                     else Next (Some o1)
                 end
             end
         end;
  let written := option_map f_bytes out1 in
  proceed in2 <- match fseek_set in_ loc with
        | None => Exit (mkResult 10 bytes written [])
        | Some in2 => Next in2
        end;
  if negb (grants al len) then Exit (mkResult 13 bytes written []) else
  let '(strtab, n, in3) := fread in2 len 1 in
  if negb (n =? 1) then Exit (mkResult 13 bytes written []) else
  match replace with
  | Some replace =>
      proceed (ret, strtab) <- match scan_strtab al search replace exact strtab with
                       | Done r => Next r
                       | Overrun _ => Crash
                       end;
      match out1 with
      | Some o1 =>
          let '(w, o2) := fwrite o1 strtab len 1 in
          if negb (w =? 1) then Exit (mkResult 14 bytes (Some (f_bytes o2)) []) else
          match write_input_to_output_end in3 o2 with
          | None => Crash
          | Some (ok, _, o3) =>
              if (ok =? 0)%Z then Exit (mkResult 14 bytes (Some (f_bytes o3)) [])
              else Next (mkResult ret bytes (Some (f_bytes o3)) [])
          end
      | None =>
          match fseek_set in3 loc with
          | None => Exit (mkResult 10 bytes None [])
          | Some in4 =>
              let '(w, in5) := fwrite in4 strtab len 1 in
              if negb (w =? 1) then Exit (mkResult 15 (f_bytes in5) None [])
              else Next (mkResult ret (f_bytes in5) None [])
          end
      end
  | None =>
      Next (mkResult 0 bytes written (print_strings strtab loc len))
  end.

End Process.

Definition PE_DEFAULT_SECTION : list byte := cstr ".rdata".
Definition ELF_DEFAULT_SECTION : list byte := cstr ".rodata".

(** [pe_process]; [section] and [replace] are [None] for [NULL], and so is
    [out]. *)
Definition pe_process (al : allocator) (in_ : FILE) (out : option FILE)
    (section : option (list byte)) (search : list byte) (replace : option (list byte))
    (exact : Z) : option run_result :=
  let section := default PE_DEFAULT_SECTION section in
  match pe_find_strings_section in_ section with
  | Undefined => None
  | Return ret => Some (mkResult ret (f_bytes in_) (option_map f_bytes out) [])
  | Go (sectionStringsAddress, sectionStringsLen) =>
      finish (process_section al in_ out search replace exact
                sectionStringsAddress (Z.to_nat sectionStringsLen))
  end.

(** [elf_process]; the stream is just past the magic number. *)
Definition elf_process (u : indeterminate) (al : allocator) (in_ : FILE) (out : option FILE)
    (section : option (list byte)) (search : list byte) (replace : option (list byte))
    (exact : Z) : option run_result :=
  let section := default ELF_DEFAULT_SECTION section in
  match elf_find_strings_section u al section in_ with
  | Undefined => None
  | Return ret => Some (mkResult ret (f_bytes in_) (option_map f_bytes out) [])
  | Go (sectionStringsAddress, sectionStringsLen, attrs) =>
      let strtab_loc := word_to_long (class attrs) sectionStringsAddress in
      let strtab_len :=
        Z.to_nat (wrap_size (word_to_long (class attrs) sectionStringsLen)) in
      finish (process_section al in_ out search replace exact strtab_loc strtab_len)
  end.

(** How a navigator may leave: [Return] only with a code in [P], and
    [Undefined] only if [U]. *)
Definition returns_only {A : Type} (P : Z -> Prop) (U : Prop) (m : flow A) : Prop :=
  match m with
  | Go _ => True
  | Return c => P c
  | Undefined => U
  end.

(** The section replaced by the block the scanner returns. *)
Definition patched (bytes strtab : list byte) (q len : nat) : list byte :=
  take q bytes ++ strtab ++ drop (q + len) bytes.

(** ** The layout of a PE file, as the navigator reads it

    The header is where the four bytes at 0x3C say; the number of sections
    is 6 bytes into it and the size of the optional header 20 bytes into
    it; the section table follows the optional header, 40 bytes a section:
    the name, and at 16 and 20 the size and the place of the raw data. *)
Definition pe_field (bytes : list byte) (size at_ : nat) : Z :=
  le_uint (take size (drop at_ bytes)).

Definition pe_header_location (bytes : list byte) : nat :=
  Z.to_nat (pe_field bytes 4 60).

Definition pe_section_count (bytes : list byte) : nat :=
  Z.to_nat (pe_field bytes 2 (pe_header_location bytes + 6)).

Definition pe_table_start (bytes : list byte) : nat :=
  pe_header_location bytes + 24
  + Z.to_nat (pe_field bytes 2 (pe_header_location bytes + 20)).

(** The name in the header at [p] compares equal to [section]. *)
Definition pe_name_matches (bytes section : list byte) (p : nat) : bool :=
  (strncmp section (take 8 (drop p bytes)) 8 =? 0)%Z.

(** Header [k] of the table at [p] is the first whose name matches. *)
Definition pe_first_match (bytes section : list byte) (p k : nat) : Prop :=
  pe_name_matches bytes section (p + 40 * k) = true /\
  forall j, j < k -> pe_name_matches bytes section (p + 40 * j) = false.

(** * Properties *)

(** ** Properties of the memory writes *)

Lemma bind_out_Done {A B : Type} (m : outcome A) (k : A -> outcome B) (b : B) :
  bind_out m k = Done b -> exists a, m = Done a /\ k a = Done b.
Proof. destruct m as [a|]; simpl; [eauto | discriminate]. Qed.

Lemma memcpy_Done_inv (r : region) (dst : list byte) (pos : nat) (src out : list byte) :
  memcpy r dst pos src = Done out ->
  pos + length src <= length dst /\
  out = take pos dst ++ src ++ drop (pos + length src) dst.
Proof.
  unfold memcpy. destruct (Nat.leb_spec (pos + length src) (length dst)); [|discriminate].
  intros [= <-]. split; [lia | reflexivity].
Qed.

Lemma memcpy_in_bounds (r : region) (dst : list byte) (pos : nat) (src : list byte) :
  pos + length src <= length dst -> exists out, memcpy r dst pos src = Done out.
Proof.
  intros H. unfold memcpy. destruct (Nat.leb_spec (pos + length src) (length dst)); [eauto | lia].
Qed.

Lemma memcpy_length (r : region) (dst : list byte) (pos : nat) (src out : list byte) :
  memcpy r dst pos src = Done out -> length out = length dst.
Proof.
  intros H. apply memcpy_Done_inv in H as [Hle ->].
  rewrite !length_app, length_take, length_drop. lia.
Qed.

Lemma memset_length (r : region) (dst : list byte) (pos : nat) (b : byte) (n : nat)
    (out : list byte) :
  memset r dst pos b n = Done out -> length out = length dst.
Proof. apply memcpy_length. Qed.

Lemma malloc_length (al : allocator) (n : nat) (blk : list byte) :
  malloc al n = Some blk -> length blk = n.
Proof.
  unfold malloc. destruct (grants al n); [|discriminate].
  intros [= <-]. now rewrite length_map, length_seq.
Qed.

Lemma realloc_length (al : allocator) (old : list byte) (n : nat) (blk : list byte) :
  realloc al old n = Some blk -> length blk = n.
Proof.
  unfold realloc. destruct (grants al n); [|discriminate].
  intros [= <-]. rewrite length_app, length_take, length_map, length_seq. lia.
Qed.

(** ** The loops return the buffer untouched while [ret] is still 1 *)

Section NotFound.

Variable al : allocator.
Variables search replace : list byte.

Lemma sr_match_ret1 (len i : nat) (st st' : scan) :
  sr_match al search replace len i st = Done st' ->
  sc_ret st' = 1%Z -> sc_data st' = sc_data st /\ sc_ret st = 1%Z.
Proof.
  unfold sr_match.
  destruct (length search <=? _).
  - destruct (count_occurrences _ _ _ _) as [count curLen].
    destruct (_ <? _)%Z; [intros [= <-]; simpl; discriminate|].
    destruct (match sc_buffer st with Some _ => _ | None => _ end) as [buffer|].
    + intros H.
      apply bind_out_Done in H as (b' & _ & H).
      apply bind_out_Done in H as (d1 & _ & H).
      apply bind_out_Done in H as (d2 & _ & H).
      injection H as <-. simpl. discriminate.
    + intros [= <-]. simpl. discriminate.
  - intros [= <-]. simpl. auto.
Qed.

Lemma sr_body_ret1 (len i : nat) (st st' : scan) :
  sr_body al search replace len i st = Done st' ->
  sc_ret st' = 1%Z -> sc_data st' = sc_data st /\ sc_ret st = 1%Z.
Proof.
  unfold sr_body.
  destruct (sc_state st =? 0)%Z; [|destruct (sc_state st =? 1)%Z];
    destruct (is_nul _);
    try (intros [= <-]; simpl; tauto);
    intros H Hr; apply sr_match_ret1 in H; auto.
Qed.

Lemma sre_match_ret1 (len i : nat) (st st' : scan) :
  sre_match search replace len i st = Done st' ->
  sc_ret st' = 1%Z -> sc_data st' = sc_data st /\ sc_ret st = 1%Z.
Proof.
  unfold sre_match.
  destruct (if Byte.eqb _ _ then _ else _) as [c1 state1].
  destruct (_ && _).
  - destruct (_ <? _); [intros [= <-]; simpl; discriminate|].
    intros H.
    apply bind_out_Done in H as (d1 & _ & H).
    apply bind_out_Done in H as (d2 & _ & H).
    injection H as <-. simpl. discriminate.
  - intros [= <-]. simpl. auto.
Qed.

Lemma sre_body_ret1 (len i : nat) (st st' : scan) :
  sre_body search replace len i st = Done st' ->
  sc_ret st' = 1%Z -> sc_data st' = sc_data st /\ sc_ret st = 1%Z.
Proof.
  unfold sre_body.
  destruct (sc_state st =? 0)%Z; [|destruct (sc_state st =? 1)%Z];
    try destruct (is_nul _);
    try (intros [= <-]; simpl; tauto);
    intros H Hr; apply sre_match_ret1 in H; auto.
Qed.

Lemma for_loop_ret1 (body : nat -> scan -> outcome scan) :
  (forall i st st', body i st = Done st' -> sc_ret st' = 1%Z ->
                    sc_data st' = sc_data st /\ sc_ret st = 1%Z) ->
  forall fuel i st st',
    for_loop body fuel i st = Done st' -> sc_ret st' = 1%Z ->
    sc_data st' = sc_data st /\ sc_ret st = 1%Z.
Proof.
  intros Hbody. induction fuel as [|fuel IH]; intros i st st' H Hr; simpl in H.
  - injection H as <-. auto.
  - apply bind_out_Done in H as (st1 & H1 & H2).
    destruct (IH _ _ _ H2 Hr) as [Hd Hr1].
    destruct (Hbody _ _ _ H1 Hr1) as [Hd1 Hr0].
    split; congruence.
Qed.

End NotFound.

(** ** The helpers of substring mode agree with each other *)

Lemma available_length_loop_lt (fuel : nat) (str : list byte) (len i : nat) (lc : byte) :
  i + fuel = len -> 1 <= len -> available_length_loop fuel str len i lc < len.
Proof.
  revert i lc. induction fuel as [|fuel IH]; intros i lc Hi Hlen; simpl.
  - lia.
  - destruct (_ && _); [lia|]. apply IH; lia.
Qed.

Lemma available_length_lt (str : list byte) (len : nat) :
  1 <= len -> available_length str len < len.
Proof. intros H. apply available_length_loop_lt; lia. Qed.

Section Agreement.

Variables str search replace : list byte.

(** While [count] stays in the range of [unsigned int], the counting loop
    stops at [L] between [i] and [i + fuel], and every occurrence it counts
    consumed [length search] bytes of the run. *)
Lemma count_occurrences_loop_bounds (fuel i c : nat) (count count' : Z) (L : nat) :
  count_occurrences_loop fuel str search (length search) i c count = (count', L) ->
  (0 <= count)%Z -> (count + Z.of_nat fuel < 2 ^ 32)%Z ->
  c = 0 \/ c < length search ->
  i <= L <= i + fuel /\
  (count <= count')%Z /\
  ((count' - count) * Z.of_nat (length search) <= Z.of_nat (L - i) + Z.of_nat c)%Z /\
  (count' - count <= Z.of_nat (L - i))%Z.
Proof.
  revert i c count.
  induction fuel as [|fuel IH]; intros i c count H H0 Hw Hc; simpl in H.
  - injection H as <- <-. repeat split; try lia.
  - destruct (is_nul (char_at str i)).
    { injection H as <- <-. repeat split; try lia. }
    set (c1 := if Byte.eqb (char_at str i) (char_at search c) then S c else 0) in H.
    assert (Hc1 : c1 = S c \/ c1 = 0) by (subst c1; destruct (Byte.eqb _ _); auto).
    destruct (Nat.leb_spec (length search) c1) as [Hge|Hlt].
    + assert (Hwrap : wrap_uint (count + 1) = (count + 1)%Z).
      { unfold wrap_uint. apply Z.mod_small. lia. }
      rewrite Hwrap in H.
      apply IH in H as (HL & Hcnt & Hmul & Hk); [|lia..].
      repeat split; try lia;
        replace (Z.of_nat (L - i)) with (Z.of_nat (L - S i) + 1)%Z by lia; nia.
    + apply IH in H as (HL & Hcnt & Hmul & Hk); [|lia..].
      repeat split; try lia;
        replace (Z.of_nat (L - i)) with (Z.of_nat (L - S i) + 1)%Z by lia; nia.
Qed.

(** The writes of [string_substitute] stay inside a block that has room for
    the length computed from [count_occurrences]. *)
Lemma string_substitute_loop_in_bounds (fuel i c : nat) (count count' : Z) (L : nat)
    (output : list byte) (j : nat) :
  count_occurrences_loop fuel str search (length search) i c count = (count', L) ->
  (0 <= count)%Z -> (count + Z.of_nat fuel < 2 ^ 32)%Z ->
  c = 0 \/ c < length search ->
  (Z.of_nat j + Z.of_nat (L - i) + Z.of_nat c
     + (count' - count) * (Z.of_nat (length replace) - Z.of_nat (length search))
   <= Z.of_nat (length output))%Z ->
  exists out,
    string_substitute_loop (L - i) output str search replace
      (length search) (length replace) i j c = Done out.
Proof.
  revert i c count output j.
  induction fuel as [|fuel IH]; intros i c count output j H H0 Hw Hc Hroom; simpl in H.
  - injection H as <- <-. replace (i - i) with 0 by lia. simpl. eauto.
  - destruct (is_nul (char_at str i)).
    { injection H as <- <-. replace (i - i) with 0 by lia. simpl. eauto. }
    set (c1 := if Byte.eqb (char_at str i) (char_at search c) then S c else 0) in H.
    destruct (Nat.leb_spec (length search) c1) as [Hge|Hlt].
    + assert (Hwrap : wrap_uint (count + 1) = (count + 1)%Z).
      { unfold wrap_uint. apply Z.mod_small. lia. }
      rewrite Hwrap in H.
      destruct (count_occurrences_loop_bounds _ _ _ _ _ _ H) as (HL & Hcnt & Hmul & Hk);
        [lia..|].
      replace (L - i) with (S (L - S i)) by lia. simpl.
      fold c1. subst c1.
      destruct (Byte.eqb (char_at str i) (char_at search c)); simpl.
      * destruct (Nat.leb_spec (length search) (S c)); [|lia]. simpl.
        rewrite take_ge by lia.
        destruct (memcpy_in_bounds TempBlock output j replace) as [out Hout]; [nia|].
        rewrite Hout. simpl.
        apply (IH _ _ _ _ _ H); try lia.
        rewrite (memcpy_length _ _ _ _ _ Hout). nia.
      * match goal with |- context [memcpy TempBlock output j ?s] => set (src := s) end.
        assert (Hsrc : length src <= S c) by (subst src; rewrite length_take; lia).
        destruct (memcpy_in_bounds TempBlock output j src) as [out Hout]; [nia|].
        rewrite Hout. simpl.
        destruct (Nat.leb_spec (length search) 0); [|lia]. simpl.
        rewrite take_ge by lia.
        destruct (memcpy_in_bounds TempBlock out (j + S c) replace) as [out2 Hout2].
        { rewrite (memcpy_length _ _ _ _ _ Hout). nia. }
        rewrite Hout2. simpl.
        apply (IH _ _ _ _ _ H); try lia.
        rewrite (memcpy_length _ _ _ _ _ Hout2), (memcpy_length _ _ _ _ _ Hout). nia.
    + destruct (count_occurrences_loop_bounds _ _ _ _ _ _ H) as (HL & Hcnt & Hmul & Hk);
        [lia | lia | subst c1; destruct (Byte.eqb _ _); lia |].
      replace (L - i) with (S (L - S i)) by lia. simpl.
      fold c1. subst c1.
      destruct (Byte.eqb (char_at str i) (char_at search c)); simpl.
      * destruct (Nat.leb_spec (length search) (S c)); [lia|]. simpl.
        apply (IH _ _ _ _ _ H); try lia.
      * match goal with |- context [memcpy TempBlock output j ?s] => set (src := s) end.
        assert (Hsrc : length src <= S c) by (subst src; rewrite length_take; lia).
        destruct (memcpy_in_bounds TempBlock output j src) as [out Hout]; [nia|].
        rewrite Hout. simpl.
        destruct (Nat.leb_spec (length search) 0); [lia|]. simpl.
        apply (IH _ _ _ _ _ H); try lia.
        rewrite (memcpy_length _ _ _ _ _ Hout). nia.
Qed.

Lemma string_substitute_loop_length (fuel : nat) (output : list byte)
    (searchLen replaceLen i j c : nat) (out : list byte) :
  string_substitute_loop fuel output str search replace searchLen replaceLen i j c = Done out ->
  length out = length output.
Proof.
  revert output i j c.
  induction fuel as [|fuel IH]; intros output i j c H; simpl in H.
  - now injection H as <-.
  - apply bind_out_Done in H as ([[o1 j1] c1] & H1 & H).
    apply bind_out_Done in H as ([[o2 j2] c2] & H2 & H).
    apply IH in H. rewrite H.
    assert (E1 : length o1 = length output).
    { destruct (Byte.eqb _ _).
      - now injection H1 as <- _ _.
      - apply bind_out_Done in H1 as (o & Ho & H1). injection H1 as <- _ _.
        eapply memcpy_length; eauto. }
    assert (E2 : length o2 = length o1).
    { destruct (_ <=? _).
      - apply bind_out_Done in H2 as (o & Ho & H2). injection H2 as <- _ _.
        eapply memcpy_length; eauto.
      - now injection H2 as <- _ _. }
    lia.
Qed.

End Agreement.

(** ** The scanning loops keep the buffer length and stay inside it *)

Section BufferLength.

Variable al : allocator.
Variables search replace : list byte.

Lemma sr_match_length (len i : nat) (st st' : scan) :
  sr_match al search replace len i st = Done st' ->
  length (sc_data st') = length (sc_data st) /\ sc_offset st' = sc_offset st.
Proof.
  unfold sr_match.
  destruct (length search <=? _).
  - destruct (count_occurrences _ _ _ _) as [count curLen].
    destruct (_ <? _)%Z; [intros [= <-]; simpl; auto|].
    destruct (match sc_buffer st with Some _ => _ | None => _ end) as [buffer|].
    + intros H.
      apply bind_out_Done in H as (b' & _ & H).
      apply bind_out_Done in H as (d1 & H1 & H).
      apply bind_out_Done in H as (d2 & H2 & H).
      injection H as <-. simpl.
      apply memcpy_length in H1. apply memset_length in H2. split; [lia | reflexivity].
    + intros [= <-]. simpl. auto.
  - intros [= <-]. simpl. auto.
Qed.

Lemma sr_body_length (len i : nat) (st st' : scan) :
  sr_body al search replace len i st = Done st' ->
  length (sc_data st') = length (sc_data st) /\
  (sc_offset st <= i -> sc_offset st' <= i).
Proof.
  unfold sr_body.
  destruct (sc_state st =? 0)%Z; [|destruct (sc_state st =? 1)%Z];
    destruct (is_nul _);
    try (intros [= <-]; simpl; auto);
    intros H; apply sr_match_length in H as [H1 H2]; simpl in *;
    split; auto; lia.
Qed.

Lemma sre_match_length (len i : nat) (st st' : scan) :
  sre_match search replace len i st = Done st' ->
  length (sc_data st') = length (sc_data st) /\ sc_offset st' = sc_offset st.
Proof.
  unfold sre_match.
  destruct (if Byte.eqb _ _ then _ else _) as [c1 state1].
  destruct (_ && _).
  - destruct (_ <? _); [intros [= <-]; simpl; auto|].
    intros H.
    apply bind_out_Done in H as (d1 & H1 & H).
    apply bind_out_Done in H as (d2 & H2 & H).
    injection H as <-. simpl.
    apply memcpy_length in H1. apply memset_length in H2. split; [lia | reflexivity].
  - intros [= <-]. simpl. auto.
Qed.

Lemma sre_body_length (len i : nat) (st st' : scan) :
  sre_body search replace len i st = Done st' ->
  length (sc_data st') = length (sc_data st) /\
  (sc_offset st <= i -> sc_offset st' <= i).
Proof.
  unfold sre_body.
  destruct (sc_state st =? 0)%Z; [|destruct (sc_state st =? 1)%Z];
    try destruct (is_nul _);
    try (intros [= <-]; simpl; auto);
    intros H; apply sre_match_length in H as [H1 H2]; simpl in *;
    split; auto; lia.
Qed.

(** Under the bounds that keep [count] and [newLen] from wrapping, the
    matching step of substring mode performs no write out of bounds. *)
Lemma sr_match_defined (len i : nat) (st : scan) :
  length (sc_data st) = len -> sc_offset st <= i -> i < len ->
  (Z.of_nat len < 2 ^ 32)%Z ->
  (Z.of_nat len * (Z.of_nat (length replace) + 1) < 2 ^ 64)%Z ->
  exists st', sr_match al search replace len i st = Done st'.
Proof.
  intros Hlen Hoff Hi H32 H64. unfold sr_match.
  destruct (length search <=? _); [|eauto].
  destruct (count_occurrences _ _ _ _) as [count curLen] eqn:Hcount.
  unfold count_occurrences in Hcount.
  destruct (count_occurrences_loop_bounds _ _ _ _ _ _ _ _ Hcount)
    as (HL & Hcnt & Hmul & Hk); [lia | lia | auto |].
  set (v := (Z.of_nat curLen
             + count * (Z.of_nat (length replace) - Z.of_nat (length search)))%Z).
  assert (Hv : (0 <= v < 2 ^ 64)%Z) by (subst v; nia).
  assert (Hwrap : wrap_size v = v) by (apply Z.mod_small; exact Hv).
  rewrite Hwrap.
  set (available := available_length (drop (sc_offset st) (sc_data st)) (len - sc_offset st)).
  assert (Hav : available < len - sc_offset st) by (apply available_length_lt; lia).
  destruct (Z.ltb_spec (Z.of_nat available) v) as [Hbig|Hfit]; [eauto|].
  set (blk := match sc_buffer st with
              | Some b => realloc al b (Z.to_nat v)
              | None => malloc al (Z.to_nat v)
              end).
  assert (Hblk : forall b, blk = Some b -> length b = Z.to_nat v).
  { subst blk. destruct (sc_buffer st); intros b Hb;
      [eapply realloc_length | eapply malloc_length]; eauto. }
  destruct blk as [buffer|]; [|eauto].
  specialize (Hblk buffer eq_refl).
  destruct (string_substitute_loop_in_bounds (drop (sc_offset st) (sc_data st))
              search replace _ _ _ _ _ _ buffer 0 Hcount) as [buffer' Hsub];
    [lia | lia | auto | fold v; lia |].
  rewrite Nat.sub_0_r in Hsub.
  unfold string_substitute. rewrite Hsub. simpl.
  pose proof (string_substitute_loop_length _ _ _ _ _ _ _ _ _ _ _ Hsub) as Hb'.
  destruct (memcpy_in_bounds DataBuffer (sc_data st) (sc_offset st) (take (Z.to_nat v) buffer'))
    as [d1 Hd1]; [rewrite length_take; lia|].
  rewrite Hd1. simpl.
  destruct (memcpy_in_bounds DataBuffer d1 (sc_offset st + Z.to_nat v)
              (replicate (available - Z.to_nat v) x00)) as [d2 Hd2].
  { rewrite length_replicate, (memcpy_length _ _ _ _ _ Hd1). lia. }
  unfold memset. rewrite Hd2. simpl. eauto.
Qed.

Lemma sr_body_defined (len i : nat) (st : scan) :
  length (sc_data st) = len -> sc_offset st <= i -> i < len ->
  (Z.of_nat len < 2 ^ 32)%Z ->
  (Z.of_nat len * (Z.of_nat (length replace) + 1) < 2 ^ 64)%Z ->
  exists st', sr_body al search replace len i st = Done st'.
Proof.
  intros Hlen Hoff Hi H32 H64. unfold sr_body.
  destruct (sc_state st =? 0)%Z; [|destruct (sc_state st =? 1)%Z];
    destruct (is_nul _); eauto;
    apply sr_match_defined; simpl; auto.
Qed.

Lemma sre_match_defined (len i : nat) (st : scan) :
  length (sc_data st) = len -> sc_offset st <= i -> i < len ->
  exists st', sre_match search replace len i st = Done st'.
Proof.
  intros Hlen Hoff Hi. unfold sre_match.
  destruct (if Byte.eqb _ _ then _ else _) as [c1 state1].
  destruct (_ && _); [|eauto].
  set (available := available_length (drop (sc_offset st) (sc_data st)) (len - sc_offset st)).
  assert (Hav : available < len - sc_offset st) by (apply available_length_lt; lia).
  destruct (Nat.ltb_spec available (length replace)) as [Hbig|Hfit]; [eauto|].
  rewrite take_ge by lia.
  destruct (memcpy_in_bounds DataBuffer (sc_data st) (sc_offset st) replace) as [d1 Hd1]; [lia|].
  rewrite Hd1. simpl.
  destruct (memcpy_in_bounds DataBuffer d1 (sc_offset st + length replace)
              (replicate (available - length replace) x00)) as [d2 Hd2].
  { rewrite length_replicate, (memcpy_length _ _ _ _ _ Hd1). lia. }
  unfold memset. rewrite Hd2. simpl. eauto.
Qed.

Lemma sre_body_defined (len i : nat) (st : scan) :
  length (sc_data st) = len -> sc_offset st <= i -> i < len ->
  exists st', sre_body search replace len i st = Done st'.
Proof.
  intros Hlen Hoff Hi. unfold sre_body.
  destruct (sc_state st =? 0)%Z; [|destruct (sc_state st =? 1)%Z];
    try destruct (is_nul _); eauto;
    apply sre_match_defined; simpl; auto.
Qed.

(** A loop whose body keeps the length and the bound on [offset], and is
    defined under them, runs to its end with the length unchanged. *)
Lemma for_loop_length (body : nat -> scan -> outcome scan) :
  (forall i st st', body i st = Done st' ->
     length (sc_data st') = length (sc_data st) /\
     (sc_offset st <= i -> sc_offset st' <= i)) ->
  forall fuel i st st',
    for_loop body fuel i st = Done st' -> sc_offset st <= i ->
    length (sc_data st') = length (sc_data st) /\ sc_offset st' <= i + fuel.
Proof.
  intros Hkeep. induction fuel as [|fuel IH]; intros i st st' H Hoff; simpl in H.
  - injection H as <-. split; [reflexivity | lia].
  - apply bind_out_Done in H as (st1 & H1 & H2).
    destruct (Hkeep _ _ _ H1) as [E1 O1].
    destruct (IH _ _ _ H2) as [E2 O2]; [specialize (O1 Hoff); lia|].
    split; [congruence | lia].
Qed.

(** The first [k] iterations, then the rest. *)
Lemma for_loop_split (body : nat -> scan -> outcome scan) (k m i : nat) (st : scan) :
  for_loop body (k + m) i st = bind_out (for_loop body k i st) (for_loop body m (i + k)).
Proof.
  revert i st. induction k as [|k IH]; intros i st; simpl.
  - now rewrite Nat.add_0_r.
  - destruct (body i st) as [st1|r]; simpl; [|reflexivity].
    rewrite IH. now rewrite Nat.add_succ_r.
Qed.

Lemma for_loop_defined (body : nat -> scan -> outcome scan) (len : nat) :
  (forall i st st', body i st = Done st' ->
     length (sc_data st') = length (sc_data st) /\
     (sc_offset st <= i -> sc_offset st' <= i)) ->
  (forall i st, length (sc_data st) = len -> sc_offset st <= i -> i < len ->
     exists st', body i st = Done st') ->
  forall fuel i st,
    i + fuel = len -> length (sc_data st) = len -> sc_offset st <= i ->
    exists st', for_loop body fuel i st = Done st'.
Proof.
  intros Hkeep Hdef. induction fuel as [|fuel IH]; intros i st Hi Hlen Hoff; simpl.
  - eauto.
  - destruct (Hdef i st) as [st1 H1]; [lia..|].
    rewrite H1. simpl.
    destruct (Hkeep _ _ _ H1) as [E1 O1].
    apply IH; [lia | congruence | specialize (O1 Hoff); lia].
Qed.

(** [string_substitute] writes to the temporary block only. *)
Lemma string_substitute_loop_region (fuel : nat) (output str : list byte)
    (searchLen replaceLen i j c : nat) (r : region) :
  string_substitute_loop fuel output str search replace searchLen replaceLen i j c = Overrun r ->
  r = TempBlock.
Proof.
  revert output i j c.
  induction fuel as [|fuel IH]; intros output i j c H; simpl in H; [discriminate|].
  destruct (Byte.eqb _ _); simpl in H.
  - destruct (_ <=? _); simpl in H; [|eauto].
    unfold memcpy in H. destruct (_ <=? _); simpl in H; [eauto | congruence].
  - unfold memcpy at 1 in H. destruct (_ <=? _); simpl in H; [|congruence].
    destruct (_ <=? _); simpl in H; [|eauto].
    unfold memcpy in H. destruct (_ <=? _); simpl in H; [eauto | congruence].
Qed.

(** Whatever the sizes, the matching step of substring mode never writes
    outside the buffer of the caller. *)
Lemma sr_match_no_buffer_overrun (len i : nat) (st : scan) :
  length (sc_data st) = len -> sc_offset st < len ->
  sr_match al search replace len i st <> Overrun DataBuffer.
Proof.
  intros Hlen Hoff. unfold sr_match.
  destruct (length search <=? _); [|discriminate].
  destruct (count_occurrences _ _ _ _) as [count curLen].
  set (v := wrap_size _).
  set (available := available_length (drop (sc_offset st) (sc_data st)) (len - sc_offset st)).
  assert (Hav : available < len - sc_offset st) by (apply available_length_lt; lia).
  destruct (Z.ltb_spec (Z.of_nat available) v) as [Hbig|Hfit]; [discriminate|].
  destruct (match sc_buffer st with Some _ => _ | None => _ end) as [buffer|]; [|discriminate].
  destruct (string_substitute _ _ _ _ _ _ _) as [buffer'|r] eqn:Hsub; simpl.
  - destruct (memcpy_in_bounds DataBuffer (sc_data st) (sc_offset st)
                (take (Z.to_nat v) buffer')) as [d1 Hd1]; [rewrite length_take; lia|].
    rewrite Hd1. simpl.
    destruct (memcpy_in_bounds DataBuffer d1 (sc_offset st + Z.to_nat v)
                (replicate (available - Z.to_nat v) x00)) as [d2 Hd2].
    { rewrite length_replicate, (memcpy_length _ _ _ _ _ Hd1). lia. }
    unfold memset. rewrite Hd2. simpl. discriminate.
  - apply string_substitute_loop_region in Hsub. subst r. discriminate.
Qed.

Lemma sr_body_no_buffer_overrun (len i : nat) (st : scan) :
  length (sc_data st) = len -> sc_offset st <= i -> i < len ->
  sr_body al search replace len i st <> Overrun DataBuffer.
Proof.
  intros Hlen Hoff Hi. unfold sr_body.
  destruct (sc_state st =? 0)%Z; [|destruct (sc_state st =? 1)%Z];
    destruct (is_nul _); try discriminate;
    apply sr_match_no_buffer_overrun; simpl; auto; lia.
Qed.

Lemma for_loop_no_buffer_overrun (body : nat -> scan -> outcome scan) (len : nat) :
  (forall i st st', body i st = Done st' ->
     length (sc_data st') = length (sc_data st) /\
     (sc_offset st <= i -> sc_offset st' <= i)) ->
  (forall i st, length (sc_data st) = len -> sc_offset st <= i -> i < len ->
     body i st <> Overrun DataBuffer) ->
  forall fuel i st,
    i + fuel = len -> length (sc_data st) = len -> sc_offset st <= i ->
    for_loop body fuel i st <> Overrun DataBuffer.
Proof.
  intros Hkeep Hsafe. induction fuel as [|fuel IH]; intros i st Hi Hlen Hoff; simpl.
  - discriminate.
  - destruct (body i st) as [st1|r] eqn:H1; simpl.
    + destruct (Hkeep _ _ _ H1) as [E1 O1].
      apply IH; [lia | congruence | specialize (O1 Hoff); lia].
    + intros [= ->]. apply (Hsafe i st); auto. lia.
Qed.

End BufferLength.

(** ** Printable length of a run and the room it may use *)



Lemma run_length_drop_nul (s : list byte) (n : nat) :
  is_nul (char_at s n) = true -> run_length (drop n s) = 0.
Proof.
  revert s. induction n as [|n IH]; intros [|b s]; simpl; auto.
  unfold char_at. simpl. now intros ->.
Qed.




(** A [memcpy] of the new text followed by the [memset] of the padding is one
    splice of the room. *)
Lemma memcpy_memset_splice (r : region) (d : list byte) (off : nat) (text : list byte)
    (avail : nat) (d1 d2 : list byte) :
  memcpy r d off text = Done d1 ->
  memset r d1 (off + length text) x00 (avail - length text) = Done d2 ->
  length text <= avail ->
  d2 = take off d ++ text ++ replicate (avail - length text) x00 ++ drop (off + avail) d.
Proof.
  intros H1 H2 Hle.
  pose proof (memcpy_length _ _ _ _ _ H1) as Hlen1.
  apply memcpy_Done_inv in H1 as [Hb1 ->].
  apply memcpy_Done_inv in H2 as [Hb2 ->].
  rewrite length_replicate in *.
  replace (off + length text + (avail - length text)) with (off + avail) in * by lia.
  rewrite (app_assoc (take off d) text).
  rewrite take_app_length' by (rewrite length_app, length_take; lia).
  rewrite drop_app_ge by (rewrite length_app, length_take; lia).
  rewrite length_app, length_take, drop_drop.
  rewrite <- !app_assoc. do 3 f_equal. f_equal. lia.
Qed.


Section NoOvergrowth.

Variable al : allocator.
Variables search replace : list byte.



End NoOvergrowth.


(** ** The navigators *)

Lemma flow_bind_Go {A B : Type} (m : flow A) (k : A -> flow B) (b : B) :
  flow_bind m k = Go b -> exists a, m = Go a /\ k a = Go b.
Proof. destruct m as [a| |]; simpl; [eauto | discriminate..]. Qed.

Lemma seek_or_Go (code : Z) (r : option FILE) (f : FILE) :
  seek_or code r = Go f -> r = Some f.
Proof. destruct r; simpl; congruence. Qed.

Lemma fseek_set_bytes (f f' : FILE) (offset : Z) :
  fseek_set f offset = Some f' -> f_bytes f' = f_bytes f /\ f_pos f' = offset.
Proof.
  unfold fseek_set. destruct (_ <? _)%Z; [discriminate|]. intros [= <-]. auto.
Qed.

Lemma fseek_cur_bytes (f f' : FILE) (offset : Z) :
  fseek_cur f offset = Some f' -> f_bytes f' = f_bytes f /\ f_pos f' = (f_pos f + offset)%Z.
Proof. apply fseek_set_bytes. Qed.

Lemma fread_inv (f f' : FILE) (size nmemb : nat) (got : list byte) (n : nat) :
  fread f size nmemb = (got, n, f') ->
  got = take (size * nmemb) (drop (Z.to_nat (f_pos f)) (f_bytes f)) /\
  n = length got / size /\
  f_bytes f' = f_bytes f /\
  f_pos f' = (f_pos f + Z.of_nat (length got))%Z.
Proof. unfold fread. intros [= <- <- <-]. auto. Qed.

(** A complete read of [nmemb] items has read all of their bytes. *)
Lemma fread_full (f f' : FILE) (size nmemb : nat) (got : list byte) :
  fread f size nmemb = (got, nmemb, f') -> 0 < size -> 0 < nmemb ->
  length got = size * nmemb.
Proof.
  intros H Hs Hn. apply fread_inv in H as (-> & Hdiv & _ & _).
  set (got := take _ _) in *.
  assert (Hle : length got <= size * nmemb) by (subst got; rewrite length_take; lia).
  assert (Hge : size * nmemb <= length got).
  { rewrite Hdiv at 1. apply Nat.Div0.mul_div_le. }
  lia.
Qed.

Lemma read_or_Go (code : Z) (f f' : FILE) (size nmemb : nat) (got : list byte) :
  read_or code f size nmemb = Go (got, f') -> fread f size nmemb = (got, nmemb, f').
Proof.
  unfold read_or. destruct (fread f size nmemb) as [[g n] f1].
  destruct (Nat.eqb_spec n nmemb); [|discriminate]. intros [= <- <-]. congruence.
Qed.

Lemma advance_or_Go (code : Z) (f f' : FILE) (size : nat) (offset : Z) (got : list byte) :
  advance_or code f size offset = Go (got, f') ->
  exists f1, fseek_cur f offset = Some f1 /\ fread f1 size 1 = (got, 1, f').
Proof.
  unfold advance_or, advance_and_read.
  destruct (fseek_cur f offset) as [f1|]; [|simpl; discriminate].
  destruct (fread f1 size 1) as [[g n] f2] eqn:Hread.
  destruct (Nat.eqb_spec n 1) as [->|]; simpl; [|discriminate].
  intros [= <- <-]. exists f1. split; [reflexivity | exact Hread].
Qed.

Lemma uchar_nonneg (b : byte) : (0 <= uchar b)%Z.
Proof. unfold uchar. lia. Qed.

Lemma le_uint_nonneg (bs : list byte) : (0 <= le_uint bs)%Z.
Proof.
  induction bs as [|b bs IH]; simpl; [lia|].
  pose proof (uchar_nonneg b). lia.
Qed.

Lemma uchar_lt (b : byte) : (uchar b < 256)%Z.
Proof. unfold uchar. pose proof (Byte.to_N_bounded b). lia. Qed.

Lemma le_uint_lt (bs : list byte) : (le_uint bs < 256 ^ Z.of_nat (length bs))%Z.
Proof.
  induction bs as [|b bs IH]; [reflexivity|].
  cbn [le_uint fold_right length]. fold (le_uint bs).
  rewrite Nat2Z.inj_succ, Z.pow_succ_r by lia.
  pose proof (uchar_lt b). lia.
Qed.

(** The loop over the PE section table either leaves the out-parameters as
    they were or returns the two fields of a header whose name matched. *)
Lemma pe_sections_loop_Go (fuel : nat) (in_ : FILE) (section : list byte) (a l a' l' : Z) :
  pe_sections_loop fuel in_ section a l = Go (a', l') ->
  (a' = a /\ l' = l) \/ pe_header_matches (f_bytes in_) section a' l'.
Proof.
  revert in_. induction fuel as [|fuel IH]; intros in_ H; cbn [pe_sections_loop] in H.
  - injection H as <- <-. auto.
  - destruct (fread in_ 1 8) as [[name n] in1] eqn:Hname.
    destruct (Nat.eqb_spec n 8) as [->|]; cbn [andb] in H.
    + destruct (Z.eqb_spec (strncmp section name 8) 0) as [Hcmp|].
      * right.
        apply flow_bind_Go in H as ([lenBytes in2] & Hlen & H).
        apply flow_bind_Go in H as ([addrBytes in3] & Haddr & H).
        injection H as <- <-.
        apply advance_or_Go in Hlen as (f1 & Hseek & Hlen).
        apply read_or_Go in Haddr.
        pose proof (fread_full _ _ _ _ _ Hname ltac:(lia) ltac:(lia)) as Hn8.
        pose proof (fread_full _ _ _ _ _ Hlen ltac:(lia) ltac:(lia)) as Hn4.
        apply fread_inv in Hname as (Ename & _ & Eb1 & Ep1).
        apply fseek_cur_bytes in Hseek as (Eb2 & Ep2).
        apply fread_inv in Hlen as (Elen & _ & Eb3 & Ep3).
        apply fread_inv in Haddr as (Eaddr & _ & _ & _).
        exists (f_pos in_). cbv zeta.
        rewrite Eb3, Ep3, Eb2, Ep2, Ep1, Eb1, Hn4, Hn8 in Eaddr.
        rewrite Eb2, Ep2, Ep1, Eb1, Hn8 in Elen.
        simpl in Ename, Elen, Eaddr.
        rewrite <- Ename.
        replace (f_pos in_ + 16)%Z with (f_pos in_ + Z.of_nat 8 + 8)%Z by lia.
        replace (f_pos in_ + 20)%Z with (f_pos in_ + Z.of_nat 8 + 8 + Z.of_nat 4)%Z by lia.
        rewrite <- Elen, <- Eaddr. auto.
      * apply flow_bind_Go in H as (in2 & Hseek & H).
        apply seek_or_Go, fseek_cur_bytes in Hseek as (Eb2 & _).
        apply fread_inv in Hname as (_ & _ & Eb1 & _).
        apply IH in H. rewrite Eb2, Eb1 in H. exact H.
    + apply flow_bind_Go in H as (in2 & Hseek & H).
      apply seek_or_Go, fseek_cur_bytes in Hseek as (Eb2 & _).
      apply fread_inv in Hname as (_ & _ & Eb1 & _).
      apply IH in H. rewrite Eb2, Eb1 in H. exact H.
Qed.

Lemma pe_find_strings_section_Go (in_ : FILE) (section : list byte) (address len : Z) :
  pe_find_strings_section in_ section = Go (address, len) ->
  (0 < address)%Z /\ pe_header_matches (f_bytes in_) section address len.
Proof.
  unfold pe_find_strings_section. intros H.
  apply flow_bind_Go in H as (in1 & H1 & H).
  apply flow_bind_Go in H as ([b2 in2] & H2 & H).
  apply flow_bind_Go in H as (in3 & H3 & H).
  apply flow_bind_Go in H as ([sig in4] & H4 & H).
  destruct (negb _); [discriminate|].
  apply flow_bind_Go in H as ([b5 in5] & H5 & H).
  apply flow_bind_Go in H as ([b6 in6] & H6 & H).
  apply flow_bind_Go in H as (in7 & H7 & H).
  apply flow_bind_Go in H as ([a l] & Hloop & H).
  destruct (Z.eqb_spec a 0) as [|Hne]; [discriminate|].
  injection H as <- <-.
  apply seek_or_Go, fseek_set_bytes in H1 as (E1 & _).
  apply read_or_Go, fread_inv in H2 as (_ & _ & E2 & _).
  apply seek_or_Go, fseek_set_bytes in H3 as (E3 & _).
  apply read_or_Go, fread_inv in H4 as (_ & _ & E4 & _).
  apply advance_or_Go in H5 as (f5 & S5 & R5).
  apply fseek_cur_bytes in S5 as (E5 & _). apply fread_inv in R5 as (_ & _ & E5' & _).
  apply advance_or_Go in H6 as (f6 & S6 & R6).
  apply fseek_cur_bytes in S6 as (E6 & _). apply fread_inv in R6 as (_ & _ & E6' & _).
  apply seek_or_Go, fseek_cur_bytes in H7 as (E7 & _).
  assert (Hbytes : f_bytes in7 = f_bytes in_) by congruence.
  apply pe_sections_loop_Go in Hloop as [[-> _]|Hm]; [contradiction|].
  rewrite Hbytes in Hm. split; [|exact Hm].
  destruct Hm as (p & _ & _ & _ & ->).
  pose proof (le_uint_nonneg (take 4 (drop (Z.to_nat (p + 20)) (f_bytes in_)))). lia.
Qed.





Lemma word_width_pos (r : Z) : 0 < word_width r.
Proof. unfold word_width. destruct (IS_32_BITS r); lia. Qed.



Section ElfNavigatorFacts.

Variable u : indeterminate.
Variable al : allocator.
Variable section : list byte.






End ElfNavigatorFacts.


(** * The claims *)

Section BodyRewrites.

Variable al : allocator.
Variables search replace : list byte.



End BodyRewrites.

(** The scenarios of section 8 of the specification, run on the embedding.
    In scenario A the 14 bytes are kept: four zero bytes follow "hi". *)
Example scenario_A (fill : nat -> byte) :
  search_and_replace (granting fill) (cstr "hello") (cstr "hi") hello_world
  = Done (0%Z, cstr "hi" ++ replicate 4 x00 ++ cstr "world" ++ replicate 3 x00).
Proof. vm_compute. reflexivity. Qed.

Example scenario_B :
  search_and_replace_exact (cstr "world") (cstr "globe") hello_world
  = Done (0%Z, cstr "hello" ++ [x00] ++ cstr "globe" ++ replicate 3 x00).
Proof. vm_compute. reflexivity. Qed.

Example scenario_D (fill : nat -> byte) :
  search_and_replace (granting fill) (cstr "hello") (cstr "greetings") hello_world
  = Done (2%Z, hello_world).
Proof. vm_compute. reflexivity. Qed.

(** C1 (defect of the code).  Substring mode does not find every
    left-to-right, non-overlapping occurrence: the matcher restarts after a
    failed partial match without looking at the current byte again.  In the
    run "aabaaab" the pattern "aab" occurs at 0 and at 4; only the first is
    replaced by "x", although the rewritten run would fit.  In the run
    "aaab" the only occurrence, at 1, is not found at all. *)
Theorem substring_mode_misses_occurrence (fill : nat -> byte) :
  search_and_replace (granting fill) (cstr "aab") (cstr "x") (cstr "aabaaab" ++ [x00])
    = Done (0%Z, cstr "xaaab" ++ replicate 3 x00) /\
  search_and_replace (granting fill) (cstr "aab") (cstr "x") (cstr "aaab" ++ [x00])
    = Done (1%Z, cstr "aaab" ++ [x00]).
Proof. vm_compute. auto. Qed.

(** C2 (defect of the code).  A run that matched but whose replacement did
    not fit is left as it was, yet the result code is not 2 when a later
    run is replaced: the later match sets [ret] back to 0.  Here the first
    "hello" has room 5 for the 7 bytes of "hello!!", the second has room 7;
    both modes return 0. *)
Theorem later_match_hides_does_not_fit (fill : nat -> byte) :
  let data := cstr "hello" ++ [x00] ++ cstr "hello" ++ replicate 3 x00 in
  let out := cstr "hello" ++ [x00] ++ cstr "hello!!" ++ [x00] in
  available_length data (length data) = 5 /\
  search_and_replace (granting fill) (cstr "hello") (cstr "hello!!") data = Done (0%Z, out) /\
  search_and_replace_exact (cstr "hello") (cstr "hello!!") data = Done (0%Z, out).
Proof. vm_compute. auto. Qed.

(** C3 (defect of the code).  Exact mode does not replace every run that
    equals the search string: when the run before it is a proper prefix of
    the search string, the mismatch at its terminator puts the loop in the
    skipping state and the next run is passed over.  The run "hello" after
    "he" is left alone and the result is 1, although "hi" fits. *)
Theorem exact_mode_skips_run_after_prefix :
  let data := cstr "he" ++ [x00] ++ cstr "hello" ++ [x00] in
  search_and_replace_exact (cstr "hello") (cstr "hi") data = Done (1%Z, data).
Proof. vm_compute. reflexivity. Qed.




(** The buffer of [n] bytes "a" and a terminator, with "a" to be replaced
    by "bb". *)
Lemma char_at_letters (n i : nat) : i < n -> char_at (replicate n x61 ++ [x00]) i = x61.
Proof.
  intros H. unfold char_at.
  rewrite app_nth1 by (rewrite length_replicate; lia).
  revert i H. induction n as [|m IH]; intros [|i] H; simpl; try lia; auto.
  apply IH. lia.
Qed.

Lemma char_at_letters_end (n : nat) : char_at (replicate n x61 ++ [x00]) n = x00.
Proof.
  unfold char_at. rewrite app_nth2 by (rewrite length_replicate; lia).
  rewrite length_replicate, Nat.sub_diag. reflexivity.
Qed.

(** The counter of [count_occurrences] is the number of bytes counted so
    far, reduced to the range of [unsigned int]. *)
Lemma count_occurrences_loop_wraps (n fuel i : nat) :
  i <= n -> n - i < fuel ->
  count_occurrences_loop fuel (replicate n x61 ++ [x00]) [x61] 1 i 0 (wrap_uint (Z.of_nat i))
  = (wrap_uint (Z.of_nat n), n).
Proof.
  revert i. induction fuel as [|fuel IH]; intros i Hi Hfuel; [lia|].
  cbn [count_occurrences_loop].
  destruct (Nat.eq_dec i n) as [->|Hne].
  - rewrite char_at_letters_end. reflexivity.
  - rewrite char_at_letters by lia.
    change (is_nul x61) with false. change (char_at [x61] 0) with x61.
    change (Byte.eqb x61 x61) with true. cbn [Nat.leb].
    replace (wrap_uint (wrap_uint (Z.of_nat i) + 1)) with (wrap_uint (Z.of_nat (S i))).
    + apply IH; lia.
    + unfold wrap_uint. rewrite Nat2Z.inj_succ, <- Z.add_1_r.
      rewrite Zplus_mod_idemp_l. reflexivity.
Qed.

(** The room of the string is all of it. *)
Lemma available_length_loop_letters (n fuel i : nat) (lc : byte) :
  is_nul lc = false -> i <= n -> i + fuel = S n ->
  available_length_loop fuel (replicate n x61 ++ [x00]) (S n) i lc = n.
Proof.
  revert i lc. induction fuel as [|fuel IH]; intros i lc Hlc Hi Hfuel; [lia|].
  cbn [available_length_loop]. rewrite Hlc, andb_false_r.
  destruct (Nat.eq_dec i n) as [->|Hne].
  - assert (fuel = 0) as -> by lia. cbn [available_length_loop]. lia.
  - rewrite char_at_letters by lia. apply IH; [reflexivity | lia | lia].
Qed.

(** [string_substitute] writes the two bytes of the replacement for each
    byte of the string: a block of [n] bytes is overrun. *)
Lemma string_substitute_loop_overruns (n fuel i : nat) (block : list byte) :
  0 < n -> length block = n -> 2 * i <= n -> i + fuel = n ->
  string_substitute_loop fuel block (replicate n x61 ++ [x00]) [x61] [x62; x62] 1 2
    i (2 * i) 0
  = Overrun TempBlock.
Proof.
  intros Hn. revert i block.
  induction fuel as [|fuel IH]; intros i block Hlen Hi Hfuel; [lia|].
  cbn [string_substitute_loop].
  rewrite char_at_letters by lia.
  change (char_at [x61] 0) with x61. change (Byte.eqb x61 x61) with true.
  cbn [bind_out Nat.leb take]. unfold memcpy. cbn [length].
  destruct (Nat.leb_spec (2 * i + 2) (length block)) as [Hfit|Hover];
    cbn [bind_out]; [|reflexivity].
  replace (2 * i + 2) with (2 * S i) by lia.
  apply IH; [|lia..].
  rewrite !length_app, length_take, length_drop. cbn [length]. lia.
Qed.

(** When the number of occurrences is a multiple of 2^32 the counter is
    back at 0, the length computed for the rewritten string is the length
    of the string, and the block of that size is overrun. *)
Lemma search_and_replace_counter_wraps (n : nat) (fill : nat -> byte) :
  0 < n -> (Z.of_nat n mod 2 ^ 32 = 0)%Z -> (Z.of_nat n < 2 ^ 64)%Z ->
  count_occurrences (replicate n x61 ++ [x00]) [x61] 1 (S n) = (0%Z, n) /\
  available_length (replicate n x61 ++ [x00]) (S n) = n /\
  search_and_replace (granting fill) [x61] [x62; x62] (replicate n x61 ++ [x00])
    = Overrun TempBlock.
Proof.
  intros Hn Hwrap Hsize.
  set (data := replicate n x61 ++ [x00]).
  assert (Hcount : count_occurrences data [x61] 1 (S n) = (0%Z, n)).
  { unfold count_occurrences, data.
    pose proof (count_occurrences_loop_wraps n (S n) 0 ltac:(lia) ltac:(lia)) as Hc.
    change (wrap_uint (Z.of_nat 0)) with 0%Z in Hc. rewrite Hc.
    unfold wrap_uint. rewrite Hwrap. reflexivity. }
  assert (Hav : available_length data (S n) = n).
  { unfold available_length. apply available_length_loop_letters; [reflexivity | lia | lia]. }
  split; [exact Hcount|]. split; [exact Hav|].
  unfold search_and_replace.
  assert (Hlen : length data = S n).
  { unfold data. rewrite length_app, length_replicate. simpl. lia. }
  rewrite Hlen. cbn [for_loop].
  assert (Hbody : sr_body (granting fill) [x61] [x62; x62] (S n) 0 (scan_init data)
                  = Overrun TempBlock); [|rewrite Hbody; reflexivity].
  unfold sr_body, scan_init. cbn [sc_state sc_data sc_c sc_ret sc_buffer Z.eqb].
  unfold data at 1. rewrite char_at_letters by lia. change (is_nul x61) with false. cbv iota.
  unfold sr_match. cbn [sc_state sc_data sc_c sc_ret sc_buffer sc_offset].
  unfold data at 1. rewrite char_at_letters by lia.
  change (char_at [x61] 0) with x61. change (Byte.eqb x61 x61) with true.
  cbn [length Nat.leb]. rewrite drop_0, Nat.sub_0_r, Hcount.
  assert (HnewLen : wrap_size (Z.of_nat n + 0 * (Z.of_nat 2 - Z.of_nat 1)) = Z.of_nat n).
  { rewrite Z.mul_0_l, Z.add_0_r. apply Z.mod_small. lia. }
  cbv zeta. rewrite !HnewLen, Hav, Z.ltb_irrefl, Nat2Z.id.
  unfold malloc. cbn [granting grants fresh].
  unfold string_substitute, data.
  rewrite (string_substitute_loop_overruns n n 0) by (rewrite ?length_map, ?length_seq; lia).
  reflexivity.
Qed.

(** C5 (defect of the code).  [count_occurrences] counts in an
    [unsigned int], although the length of the buffer, the length of the
    string and the count that its caller stores are [size_t].  On the
    buffer of 2^32 bytes "a" and a terminator, with "a" to be replaced by
    "bb", the 2^32 occurrences are counted as 0; the length computed for
    the rewritten string is then 2^32 instead of 2^33, it is not larger
    than the room of 2^32 bytes, and [string_substitute] writes beyond the
    block of 2^32 bytes, whatever the block holds: the call does not
    return a buffer. *)
Theorem occurrence_counter_wraps (fill : nat -> byte) :
  let data := replicate (Z.to_nat (2 ^ 32)) x61 ++ [x00] in
  count_occurrences data (cstr "a") 1 (S (Z.to_nat (2 ^ 32))) = (0%Z, Z.to_nat (2 ^ 32)) /\
  available_length data (S (Z.to_nat (2 ^ 32))) = Z.to_nat (2 ^ 32) /\
  search_and_replace (granting fill) (cstr "a") (cstr "bb") data = Overrun TempBlock.
Proof.
  apply (search_and_replace_counter_wraps (Z.to_nat (2 ^ 32)) fill).
  - lia.
  - rewrite Z2Nat.id by lia. reflexivity.
  - rewrite Z2Nat.id by lia. reflexivity.
Qed.

(** C6 (defect of the code).  Replacing the search string by itself does
    not always leave the buffer as it was: [string_substitute] never copies
    a partial match that is pending when the run ends, so those bytes of
    the run are taken from what the temporary block held before.  Whatever
    the allocator hands out, the second run "abcab" becomes "abcxy", the
    text left in the block by the first run. *)
Theorem self_replacement_alters_buffer (fill : nat -> byte) :
  search_and_replace (granting fill) (cstr "abc") (cstr "abc")
    (cstr "abcxy" ++ [x00] ++ cstr "abcab" ++ [x00])
  = Done (0%Z, cstr "abcxy" ++ [x00] ++ cstr "abcxy" ++ [x00]).
Proof. vm_compute. reflexivity. Qed.

(** C7 (defect of the code).  The width that [read_word] reads does not
    depend on the class argument at all: the test is made on the local [r],
    which has no value.  With class 1 (32-bit) and [r] holding 0 the call
    reads one 64-bit word, eight bytes, and so does
    [advance_and_read_word]. *)
Theorem read_word_width_ignores_class :
  (forall r f ptr c1 c2, read_word r f ptr c1 = read_word r f ptr c2) /\
  (let f := mkFILE (le_bytes 4 52 ++ le_bytes 4 16) 0 in
   read_word 0 f (mkWord 0) 1 = (1%Z, mkWord 68719476788, mkFILE (f_bytes f) 8) /\
   advance_and_read_word 0 f (mkWord 0) 1 0
     = (1%Z, mkWord 68719476788, mkFILE (f_bytes f) 8)).
Proof. split; [reflexivity | vm_compute; auto]. Qed.




(** Why C8 (amended) speaks of the 64-bit storage of the offset word and
    asks, for the offset as a [long], that the width read be the width of
    the class: on a 32-bit image whose [.rodata] header records the offset
    0, a 64-bit read at the offset takes the size field for the high half
    of the word; the final test passes and the caller reads offset 0. *)
Example elf_offset_zero_when_width_is_wrong :
  elf_find_strings_section env_r_offset_wide zero_alloc (cstr ".rodata")
    (mkFILE (elf_image 0 16) 4)
    = Go (mkWord (16 * 2 ^ 32), mkWord 0, mkElfAttrs 1 1) /\
  word_to_long 1 (mkWord (16 * 2 ^ 32)) = 0%Z.
Proof. vm_compute. auto. Qed.

(** C9 (defect of the code).  The fourth byte read at the PE-header pointer
    is never examined: [strncmp] stops at the zero byte that is third in
    both arrays.  Whatever that byte is, the signature is accepted and the
    navigation goes on to find the section. *)
Theorem pe_signature_fourth_byte_unchecked (b : byte) :
  strncmp [x50; x45; x00; b] PE_SIGNATURE 4 = 0%Z /\
  pe_find_strings_section (mkFILE (pe_image b 16 168) 0) (cstr ".rdata")
    = Go (168%Z, 16%Z).
Proof. vm_compute. auto. Qed.

(** C10.  Whenever [search_and_replace] or [search_and_replace_exact]
    returns 1 (not found), the buffer it returns is the buffer it was
    given. *)
Theorem not_found_keeps_buffer (al : allocator) (search replace data out : list byte) :
  search_and_replace al search replace data = Done (1%Z, out) \/
  search_and_replace_exact search replace data = Done (1%Z, out) ->
  out = data.
Proof.
  intros [H|H].
  - unfold search_and_replace in H.
    apply bind_out_Done in H as (st & Hrun & H). injection H as Hret <-.
    eapply for_loop_ret1 in Hrun as [Hd _]; eauto.
    intros. eapply sr_body_ret1; eauto.
  - unfold search_and_replace_exact in H.
    apply bind_out_Done in H as (st & Hrun & H). injection H as Hret <-.
    eapply for_loop_ret1 in Hrun as [Hd _]; eauto.
    intros. eapply sre_body_ret1; eauto.
Qed.

Lemma not_found_keeps_buffer_witness : hello_world = hello_world.
Proof.
  apply (not_found_keeps_buffer zero_alloc (cstr "x") (cstr "y") hello_world hello_world).
  left. vm_compute. reflexivity.
Defined.

(** * Further properties of the code *)

Lemma char_at_app_l (a b : list byte) (i : nat) :
  i < length a -> char_at (a ++ b) i = char_at a i.
Proof. intros H. unfold char_at. now rewrite app_nth1. Qed.

Lemma char_at_app_r (a b : list byte) (i : nat) :
  length a <= i -> char_at (a ++ b) i = char_at b (i - length a).
Proof. intros H. unfold char_at. now rewrite app_nth2. Qed.

Lemma char_at_replicate (n i : nat) : char_at (replicate n x00) i = x00.
Proof.
  unfold char_at. revert i. induction n as [|n IH]; intros [|i]; simpl; auto.
Qed.

Lemma char_at_nul_free (s : list byte) (i : nat) :
  nul_free s -> i < length s -> is_nul (char_at s i) = false.
Proof.
  unfold nul_free, char_at. intros H. revert i.
  induction H as [|b s Hb Hs IH]; intros [|i] Hi; simpl in *; try lia; auto.
  apply IH. lia.
Qed.

Lemma char_at_beyond (s : list byte) (i : nat) : length s <= i -> char_at s i = x00.
Proof. intros H. unfold char_at. now apply nth_overflow. Qed.

Section PaddedText.

Variables (txt : list byte) (m : nat) (rest : list byte).
Hypothesis Htxt : nul_free txt.

Lemma padded_in_text (i : nat) :
  i < length txt -> is_nul (char_at (txt ++ replicate m x00 ++ rest) i) = false.
Proof. intros H. rewrite char_at_app_l by lia. now apply char_at_nul_free. Qed.

Lemma padded_in_padding (i : nat) :
  length txt <= i < length txt + m -> char_at (txt ++ replicate m x00 ++ rest) i = x00.
Proof.
  intros H. rewrite char_at_app_r by lia.
  rewrite char_at_app_l by (rewrite length_replicate; lia).
  apply char_at_replicate.
Qed.

Lemma padded_last_char (i : nat) :
  i <= length txt -> is_nul (last_char (txt ++ replicate m x00 ++ rest) i) = false.
Proof. destruct i as [|i]; simpl; [reflexivity|]. intros H. apply padded_in_text. lia. Qed.

Lemma padded_last_char_pad (i : nat) :
  length txt < i <= length txt + m ->
  last_char (txt ++ replicate m x00 ++ rest) i = x00.
Proof. destruct i as [|i]; [lia|]. intros H. simpl. apply padded_in_padding. lia. Qed.

(** Up to the end of the padding the loop of [available_length] goes on. *)
Lemma available_length_loop_padded (len fuel i k : nat) :
  i + k <= length txt + m -> k <= fuel ->
  available_length_loop fuel (txt ++ replicate m x00 ++ rest) len i
    (last_char (txt ++ replicate m x00 ++ rest) i)
  = available_length_loop (fuel - k) (txt ++ replicate m x00 ++ rest) len (i + k)
      (last_char (txt ++ replicate m x00 ++ rest) (i + k)).
Proof.
  revert fuel i. induction k as [|k IH]; intros fuel i Hi Hk.
  - now rewrite Nat.sub_0_r, Nat.add_0_r.
  - destruct fuel as [|fuel]; [lia|]. simpl.
    replace (i + S k) with (S i + k) by lia.
    rewrite <- (IH fuel (S i)) by lia. cbn [last_char].
    destruct (Nat.lt_ge_cases i (length txt)) as [Hin|Hout].
    + rewrite padded_in_text, padded_last_char by lia. reflexivity.
    + rewrite padded_in_padding by lia. reflexivity.
Qed.

End PaddedText.

Lemma available_length_padded_next (txt : list byte) (m : nat) (b : byte) (rest : list byte) :
  nul_free txt -> 0 < m -> is_nul b = false ->
  available_length (txt ++ replicate m x00 ++ b :: rest)
    (length (txt ++ replicate m x00 ++ b :: rest)) = length txt + m - 1.
Proof.
  intros Htxt Hm Hb. set (str := txt ++ replicate m x00 ++ b :: rest).
  unfold available_length.
  assert (Hlen : length str = length txt + m + S (length rest)).
  { unfold str. rewrite !length_app, length_replicate. simpl. lia. }
  change x01 with (last_char str 0). unfold str at 2 3.
  rewrite (available_length_loop_padded txt m (b :: rest) Htxt _ _ 0 (length txt + m))
    by lia.
  rewrite Hlen. replace (length txt + m + S (length rest) - (length txt + m))
    with (S (length rest)) by lia.
  cbn [available_length_loop Nat.add].
  replace (char_at (txt ++ replicate m x00 ++ b :: rest) (length txt + m)) with b.
  2:{ rewrite char_at_app_r by lia. rewrite char_at_app_r by (rewrite length_replicate; lia).
      rewrite length_replicate. replace (length txt + m - length txt - m) with 0 by lia.
      reflexivity. }
  rewrite Hb, padded_last_char_pad by (auto; lia). reflexivity.
Qed.

Lemma available_length_padded_end (txt : list byte) (m : nat) :
  nul_free txt -> 0 < length txt + m ->
  available_length (txt ++ replicate m x00) (length (txt ++ replicate m x00))
  = length txt + m - 1.
Proof.
  intros Htxt Hpos. set (str := txt ++ replicate m x00).
  unfold available_length.
  assert (Hlen : length str = length txt + m).
  { unfold str. rewrite !length_app, length_replicate. lia. }
  change x01 with (last_char str 0).
  unfold str at 2 3. rewrite <- (app_nil_r (replicate m x00)).
  rewrite (available_length_loop_padded txt m [] Htxt _ _ 0 (length txt + m)) by lia.
  rewrite Hlen, Nat.sub_diag. cbn [available_length_loop].
  rewrite app_nil_r. fold str. lia.
Qed.

(** X1.  For a string of non-zero bytes followed by m zero bytes,
    available_length returns (length of the string) + m - 1: the room of a
    string reaches up to, not including, the last zero byte of its padding.
    This holds when another string follows the padding (m >= 1) and when the
    padding ends the buffer (also for m = 0, where the room is one byte less
    than the string). *)
Theorem available_length_of_padded_text (txt : list byte) (m : nat) (b : byte)
    (rest : list byte) :
  nul_free txt ->
  (0 < m -> is_nul b = false ->
   let str := txt ++ replicate m x00 ++ b :: rest in
   available_length str (length str) = length txt + m - 1) /\
  (0 < length txt + m ->
   let str := txt ++ replicate m x00 in
   available_length str (length str) = length txt + m - 1).
Proof.
  intros Htxt. split.
  - intros Hm Hb. now apply available_length_padded_next.
  - intros Hpos. now apply available_length_padded_end.
Qed.

Lemma available_length_of_padded_text_witness :
  available_length (cstr "hello" ++ replicate 3 x00 ++ x77 :: cstr "orld") 13 = 7 /\
  available_length (cstr "hello" ++ replicate 3 x00) 8 = 7.
Proof.
  destruct (available_length_of_padded_text (cstr "hello") 3 x77 (cstr "orld")) as [H1 H2].
  - repeat constructor.
  - split; [apply H1; [lia | reflexivity] | apply H2; simpl; lia].
Defined.

Lemma run_length_drop_S (s : list byte) (i : nat) :
  is_nul (char_at s i) = false -> run_length (drop i s) = S (run_length (drop (S i) s)).
Proof.
  revert s. induction i as [|i IH]; intros [|b s]; unfold char_at; simpl;
    try discriminate.
  - intros ->. now rewrite drop_0.
  - intros H. now apply IH.
Qed.

Lemma count_occurrences_loop_strLen (str word : list byte) (wordLen fuel i c : nat) (count : Z) :
  snd (count_occurrences_loop fuel str word wordLen i c count)
  = i + Nat.min (run_length (drop i str)) fuel.
Proof.
  revert i c count. induction fuel as [|fuel IH]; intros i c count; simpl; [lia|].
  destruct (is_nul (char_at str i)) eqn:Hnul; simpl.
  - rewrite (run_length_drop_nul _ _ Hnul). simpl. lia.
  - rewrite (run_length_drop_S _ _ Hnul).
    destruct (_ <=? _); rewrite IH; simpl; lia.
Qed.

(** X2.  count_occurrences stores in [strLen] the number of bytes before the
    first zero byte of str, or len if there is none among the first len
    bytes; and for len below 2^32 the count it returns, times the length of
    the word, does not exceed that length (the occurrences it counts do not
    overlap). *)
Theorem count_occurrences_measures_run (str word : list byte) (len : nat) :
  let '(count, strLen) := count_occurrences str word (length word) len in
  strLen = Nat.min (run_length str) len /\
  ((Z.of_nat len < 2 ^ 32)%Z ->
   (0 <= count)%Z /\ (count * Z.of_nat (length word) <= Z.of_nat strLen)%Z).
Proof.
  destruct (count_occurrences str word (length word) len) as [count strLen] eqn:E.
  split.
  - pose proof (count_occurrences_loop_strLen str word (length word) len 0 0 0%Z) as H.
    unfold count_occurrences in E. rewrite E in H. simpl in H. now rewrite drop_0 in H.
  - intros Hlen. unfold count_occurrences in E.
    destruct (count_occurrences_loop_bounds _ _ _ _ _ _ _ _ E) as (_ & H1 & H2 & _);
      [lia | lia | auto |].
    split; [lia|]. rewrite Nat.sub_0_r in H2. lia.
Qed.

Lemma count_occurrences_measures_run_witness :
  exists count strLen,
    count_occurrences (cstr "abcabc" ++ [x00]) (cstr "abc") (length (cstr "abc")) 7
    = (count, strLen) /\
    strLen = Nat.min (run_length (cstr "abcabc" ++ [x00])) 7 /\
    (0 <= count)%Z /\ (count * Z.of_nat (length (cstr "abc")) <= Z.of_nat strLen)%Z.
Proof.
  pose proof (count_occurrences_measures_run (cstr "abcabc" ++ [x00]) (cstr "abc") 7) as H.
  destruct (count_occurrences _ _ _ _) as [count strLen].
  exists count, strLen. destruct H as [H1 H2].
  split; [reflexivity|]. split; [exact H1|]. apply H2. vm_compute. reflexivity.
Defined.

(** X3.  With count and curLen as count_occurrences returns them (len below
    2^32), newLen = curLen + count * (replaceLen - searchLen) is not
    negative, and string_substitute called on a block of at least newLen
    bytes writes only inside that block: every memcpy it makes stays in
    bounds. *)
Theorem string_substitute_fits (str search replace block : list byte)
    (len : nat) (count : Z) (curLen : nat) :
  count_occurrences str search (length search) len = (count, curLen) ->
  (Z.of_nat len < 2 ^ 32)%Z ->
  (Z.of_nat curLen + count * (Z.of_nat (length replace) - Z.of_nat (length search))
   <= Z.of_nat (length block))%Z ->
  (0 <= Z.of_nat curLen + count * (Z.of_nat (length replace) - Z.of_nat (length search)))%Z /\
  exists out,
    string_substitute block str search replace (length search) (length replace) curLen
      = Done out /\
    length out = length block.
Proof.
  intros E Hlen Hroom. unfold count_occurrences in E.
  destruct (count_occurrences_loop_bounds _ _ _ _ _ _ _ _ E) as (_ & H1 & H2 & _);
    [lia | lia | auto |].
  split; [nia|].
  destruct (string_substitute_loop_in_bounds str search replace _ _ _ _ _ _ block 0 E)
    as [out Hout]; [lia | lia | auto | lia |].
  rewrite Nat.sub_0_r in Hout. exists out. split; [exact Hout|].
  eapply string_substitute_loop_length; eauto.
Qed.

Lemma string_substitute_fits_witness :
  (0 <= Z.of_nat 6 + 2 * (Z.of_nat (length (cstr "x")) - Z.of_nat (length (cstr "abc"))))%Z /\
  exists out,
    string_substitute (replicate 2 x00) (cstr "abcabc" ++ [x00]) (cstr "abc") (cstr "x")
      (length (cstr "abc")) (length (cstr "x")) 6 = Done out /\
    length out = length (replicate 2 x00).
Proof.
  apply (string_substitute_fits (cstr "abcabc" ++ [x00]) (cstr "abc") (cstr "x")
           (replicate 2 x00) 7 2%Z 6).
  - vm_compute. reflexivity.
  - vm_compute. reflexivity.
  - simpl. lia.
Defined.

Lemma byte_eqb_eq (a b : byte) : Byte.eqb a b = true -> a = b.
Proof. apply Byte.byte_dec_bl. Qed.

Lemma is_nul_eq (b : byte) : is_nul b = true -> b = x00.
Proof. apply byte_eqb_eq. Qed.

Lemma char_at_lookup (s : list byte) (i : nat) :
  i < length s -> s !! i = Some (char_at s i).
Proof.
  intros H. unfold char_at.
  destruct (nth_lookup_or_length s i x00) as [E|E]; [exact E | lia].
Qed.

(** A window of [c] matched bytes that ends before [i] grows by the byte at
    [i]. *)
Lemma window_extend (d s : list byte) (k c : nat) :
  k + c < length d -> c < length s ->
  take c (drop k d) = take c s ->
  char_at d (k + c) = char_at s c ->
  take (S c) (drop k d) = take (S c) s.
Proof.
  intros Hd Hs Hwin Heq.
  rewrite (take_S_r (drop k d) c (char_at d (k + c)))
    by (rewrite lookup_drop; apply char_at_lookup; lia).
  rewrite (take_S_r s c (char_at s c)) by (apply char_at_lookup; lia).
  now rewrite Hwin, Heq.
Qed.

Section NoOccurrence.

Variable al : allocator.
Variables search replace data : list byte.

Hypothesis Hsearch : nul_free search.
Hypothesis Habsent : forall off, take (length search) (drop off data) <> search.

Lemma search_not_empty : 0 < length search.
Proof.
  destruct search as [|b s] eqn:E; simpl; [|lia].
  exfalso. apply (Habsent 0). reflexivity.
Qed.

Lemma sr_match_quiet (i : nat) (st : scan) :
  i < length data ->
  sc_data st = data -> sc_ret st = 1%Z ->
  sc_c st < length search -> sc_c st <= i ->
  take (sc_c st) (drop (i - sc_c st) data) = take (sc_c st) search ->
  (sc_state st = 0%Z /\ sc_c st = 0 /\ is_nul (char_at data i) = true \/ sc_state st = 2%Z) ->
  exists st',
    sr_match al search replace (length data) i st = Done st' /\
    sr_quiet search data (S i) st'.
Proof.
  intros Hi Hd Hr Hc Hci Hwin Hst.
  unfold sr_match. rewrite Hd.
  destruct (Byte.eqb (char_at data i) (char_at search (sc_c st))) eqn:Heq.
  - apply byte_eqb_eq in Heq.
    assert (Hwin' : take (S (sc_c st)) (drop (i - sc_c st) data)
                    = take (S (sc_c st)) search).
    { apply window_extend; auto; replace (i - sc_c st + sc_c st) with i by lia; auto. }
    destruct (Nat.leb_spec (length search) (S (sc_c st))) as [Hfull|Hpart].
    + exfalso. apply (Habsent (i - sc_c st)).
      replace (length search) with (S (sc_c st)) by lia.
      rewrite Hwin'. apply take_ge. lia.
    + destruct Hst as [(_ & Hc0 & Hnul)|Hst].
      * exfalso. rewrite Hc0 in Heq. rewrite Heq in Hnul.
        rewrite char_at_nul_free in Hnul by (auto; lia). discriminate.
      * eexists. split; [reflexivity|].
        repeat split; simpl; auto; try lia.
  - destruct (Nat.leb_spec (length search) 0) as [Hfull|Hpart]; [lia|].
    eexists. split; [reflexivity|].
    repeat split; simpl; auto; try lia;
      try (destruct Hst as [(Hs & _ & _)|Hs]; rewrite Hs; auto).
Qed.

Lemma sr_body_quiet (i : nat) (st : scan) :
  i < length data -> sr_quiet search data i st ->
  exists st',
    sr_body al search replace (length data) i st = Done st' /\
    sr_quiet search data (S i) st'.
Proof.
  intros Hi (Hd & Hr & Hc & Hci & Hwin & Hst).
  pose proof search_not_empty as Hne.
  unfold sr_body. rewrite Hd.
  destruct Hst as [[Hs Hc0]| Hs]; rewrite Hs; simpl.
  - destruct (is_nul (char_at data i)) eqn:Hnul.
    + exists st. split; [reflexivity|].
      repeat split; auto; try lia; try (rewrite Hc0; reflexivity).
    + apply sr_match_quiet; simpl; auto; try lia; try (rewrite Hc0; reflexivity).
  - destruct (is_nul (char_at data i)) eqn:Hnul.
    + apply sr_match_quiet; simpl; auto; lia.
    + apply sr_match_quiet; simpl; auto.
Qed.

Lemma sr_loop_quiet (fuel i : nat) (st : scan) :
  i + fuel = length data -> sr_quiet search data i st ->
  exists st', for_loop (sr_body al search replace (length data)) fuel i st = Done st' /\
              sr_quiet search data (i + fuel) st'.
Proof.
  revert i st. induction fuel as [|fuel IH]; intros i st Hi Hq; simpl.
  - exists st. rewrite Nat.add_0_r. auto.
  - destruct (sr_body_quiet i st) as (st1 & H1 & Hq1); [lia | auto |].
    rewrite H1. simpl.
    destruct (IH (S i) st1) as (st' & H' & Hq'); [lia | auto |].
    exists st'. split; [exact H'|]. now replace (i + S fuel) with (S i + fuel) by lia.
Qed.

End NoOccurrence.

(** X4.  If the search string occurs nowhere in the buffer as a sequence of
    consecutive bytes, search_and_replace returns 1 and leaves every byte of
    the buffer as it was, whatever the allocator does: substring mode never
    reports or rewrites a match that is not there. *)
Theorem search_and_replace_absent (al : allocator) (search replace data : list byte) :
  nul_free search ->
  (forall off, take (length search) (drop off data) <> search) ->
  search_and_replace al search replace data = Done (1%Z, data).
Proof.
  intros Hs Habs. unfold search_and_replace.
  destruct (sr_loop_quiet al search replace data Hs Habs (length data) 0 (scan_init data))
    as (st & Hst & (Hd & Hr & _)); [lia | |].
  - pose proof (search_not_empty search data Hs Habs).
    repeat split; simpl; auto; lia.
  - rewrite Hst. simpl. now rewrite Hd, Hr.
Qed.

Lemma search_and_replace_absent_witness :
  search_and_replace zero_alloc (cstr "abc") (cstr "x") (cstr "ab" ++ [x00])
  = Done (1%Z, cstr "ab" ++ [x00]).
Proof.
  apply (search_and_replace_absent zero_alloc (cstr "abc") (cstr "x") (cstr "ab" ++ [x00])).
  - repeat constructor.
  - intros off. do 4 (destruct off as [|off]; [discriminate|]). discriminate.
Defined.

Section ExactPrecision.

Variables search replace data : list byte.

Hypothesis Hnone : forall off, ~ run_equals data search off.

Lemma sre_match_quiet (i : nat) (st : scan) :
  i < length data ->
  sc_data st = data -> sc_ret st = 1%Z -> sc_state st = 2%Z ->
  sc_c st <= length search -> sc_offset st + sc_c st = i ->
  (sc_offset st = 0 \/ is_nul (char_at data (sc_offset st - 1)) = true) ->
  take (sc_c st) (drop (sc_offset st) data) = take (sc_c st) search ->
  exists st',
    sre_match search replace (length data) i st = Done st' /\
    sre_quiet search data (S i) st'.
Proof.
  intros Hi Hd Hr Hs Hc Hoff Hstart Hwin.
  unfold sre_match. rewrite Hd.
  destruct (Byte.eqb (char_at data i) (char_at search (sc_c st))) eqn:Heq.
  - apply byte_eqb_eq in Heq.
    destruct (Nat.eq_dec (sc_c st) (length search)) as [Hfull|Hpart].
    + exfalso. apply (Hnone (sc_offset st)). split; [exact Hstart|].
      rewrite Hfull, (char_at_beyond search) in Heq by lia.
      rewrite Nat.add_1_r.
      rewrite (take_S_r _ _ x00).
      * rewrite <- Hfull, Hwin, Hfull. now rewrite take_ge by lia.
      * rewrite lookup_drop, <- Hfull, Hoff, <- Heq. apply char_at_lookup. lia.
    + destruct (Nat.ltb_spec (length search) (S (sc_c st))) as [Hgt|Hle]; [lia|].
      simpl. eexists. split; [reflexivity|].
      split; [reflexivity|]. split; [exact Hr|]. right. right. simpl.
      repeat split; auto; try lia.
      apply window_extend; auto; try lia; rewrite Hoff; auto.
  - destruct (Nat.ltb_spec (length search) 0) as [Hgt|Hle]; [lia|].
    simpl. eexists. split; [reflexivity|].
    split; [reflexivity|]. split; [exact Hr|]. right. left. auto.
Qed.

Lemma sre_body_quiet (i : nat) (st : scan) :
  i < length data -> sre_quiet search data i st ->
  exists st',
    sre_body search replace (length data) i st = Done st' /\
    sre_quiet search data (S i) st'.
Proof.
  intros Hi (Hd & Hr & Hst).
  unfold sre_body. rewrite Hd.
  destruct Hst as [(Hs & Hc0 & Hprev)|[(Hs & Hc0)|(Hs & Hc & Hoff & Hstart & Hwin)]];
    rewrite Hs; simpl.
  - destruct (is_nul (char_at data i)) eqn:Hnul.
    + exists st. split; [reflexivity|].
      split; [exact Hd|]. split; [exact Hr|]. left.
      repeat split; auto. right. now rewrite Nat.sub_1_r.
    + apply sre_match_quiet; simpl; auto; try lia; try (rewrite Hc0; reflexivity).
  - destruct (is_nul (char_at data i)) eqn:Hnul.
    + eexists. split; [reflexivity|].
      split; [reflexivity|]. split; [exact Hr|]. left. simpl.
      repeat split; auto. right. now rewrite Nat.sub_0_r.
    + exists st. split; [reflexivity|].
      split; [exact Hd|]. split; [exact Hr|]. right. left. auto.
  - apply sre_match_quiet; auto.
Qed.

Lemma sre_loop_quiet (fuel i : nat) (st : scan) :
  i + fuel = length data -> sre_quiet search data i st ->
  exists st', for_loop (sre_body search replace (length data)) fuel i st = Done st' /\
              sre_quiet search data (i + fuel) st'.
Proof.
  revert i st. induction fuel as [|fuel IH]; intros i st Hi Hq; simpl.
  - exists st. rewrite Nat.add_0_r. auto.
  - destruct (sre_body_quiet i st) as (st1 & H1 & Hq1); [lia | auto |].
    rewrite H1. simpl.
    destruct (IH (S i) st1) as (st' & H' & Hq'); [lia | auto |].
    exists st'. split; [exact H'|]. now replace (i + S fuel) with (S i + fuel) by lia.
Qed.

End ExactPrecision.

(** X5.  If no string of the buffer is the search string (no position that is
    the start of the buffer or follows a zero byte holds the bytes of the
    search string followed by a zero byte), search_and_replace_exact returns
    1 and leaves every byte of the buffer as it was: exact mode never
    rewrites a string that merely contains, or starts with, the search
    string. *)
Theorem search_and_replace_exact_absent (search replace data : list byte) :
  (forall off, ~ run_equals data search off) ->
  search_and_replace_exact search replace data = Done (1%Z, data).
Proof.
  intros Hnone. unfold search_and_replace_exact.
  destruct (sre_loop_quiet search replace data Hnone (length data) 0 (scan_init data))
    as (st & Hst & (Hd & Hr & _)); [lia | |].
  - split; [reflexivity|]. split; [reflexivity|]. left. simpl. auto.
  - rewrite Hst. simpl. now rewrite Hd, Hr.
Qed.

Lemma search_and_replace_exact_absent_witness :
  search_and_replace_exact (cstr "abc") (cstr "x") (cstr "ab" ++ [x00])
  = Done (1%Z, cstr "ab" ++ [x00]).
Proof.
  apply (search_and_replace_exact_absent (cstr "abc") (cstr "x") (cstr "ab" ++ [x00])).
  intros off [_ H]. do 4 (destruct off as [|off]; [discriminate|]). discriminate.
Defined.

Lemma byte_eqb_refl (b : byte) : Byte.eqb b b = true.
Proof. now apply Byte.byte_dec_lb. Qed.

(** In the state that looks for the start of a run, zero bytes are passed
    over. *)
Lemma sr_loop_zeros (al : allocator) (search replace : list byte) (len fuel i : nat) (st : scan) :
  sc_state st = 0%Z ->
  (forall j, i <= j < i + fuel -> is_nul (char_at (sc_data st) j) = true) ->
  for_loop (sr_body al search replace len) fuel i st = Done st.
Proof.
  intros Hs. revert i. induction fuel as [|fuel IH]; intros i Hz; simpl; [reflexivity|].
  unfold sr_body at 1. rewrite Hs. simpl. rewrite (Hz i) by lia. simpl.
  apply IH. intros j Hj. apply Hz. lia.
Qed.

Lemma sre_loop_zeros (search replace : list byte) (len fuel i : nat) (st : scan) :
  sc_state st = 0%Z ->
  (forall j, i <= j < i + fuel -> is_nul (char_at (sc_data st) j) = true) ->
  for_loop (sre_body search replace len) fuel i st = Done st.
Proof.
  intros Hs. revert i. induction fuel as [|fuel IH]; intros i Hz; simpl; [reflexivity|].
  unfold sre_body at 1. rewrite Hs. simpl. rewrite (Hz i) by lia. simpl.
  apply IH. intros j Hj. apply Hz. lia.
Qed.

(** After a substitution substring mode skips to the end of the run; when
    only zero bytes follow the first zero byte, nothing else happens. *)
Lemma sr_loop_tail (al : allocator) (search replace : list byte) (len fuel i : nat) (st : scan) :
  sc_state st = 1%Z \/ sc_state st = 0%Z ->
  (sc_state st = 0%Z -> forall j, i <= j < i + fuel -> is_nul (char_at (sc_data st) j) = true) ->
  (forall j k, i <= j -> j <= k < i + fuel ->
     is_nul (char_at (sc_data st) j) = true -> is_nul (char_at (sc_data st) k) = true) ->
  exists st', for_loop (sr_body al search replace len) fuel i st = Done st' /\
              sc_data st' = sc_data st /\ sc_ret st' = sc_ret st.
Proof.
  revert i st. induction fuel as [|fuel IH]; intros i st Hs H0 Hmono; simpl; [eauto|].
  destruct Hs as [Hs|Hs].
  - unfold sr_body at 1. rewrite Hs. simpl.
    destruct (is_nul (char_at (sc_data st) i)) eqn:Hnul; simpl.
    + eexists. split.
      * apply sr_loop_zeros; simpl; auto.
        intros j Hj. apply (Hmono i j); auto; lia.
      * split; reflexivity.
    + apply IH; auto.
      * rewrite Hs. discriminate.
      * intros j k Hj Hk. apply Hmono; lia.
  - exists st. split; [|split; reflexivity].
    unfold sr_body at 1. rewrite Hs. simpl. rewrite (H0 Hs i) by lia. simpl.
    apply sr_loop_zeros; auto. intros j Hj. apply H0; auto; lia.
Qed.

(** The bytes of a buffer that holds one string. *)
Lemma lone_string_length (z : nat) (s : list byte) (m : nat) :
  length (lone_string z s m) = z + length s + m.
Proof. unfold lone_string. rewrite !length_app, !length_replicate. lia. Qed.

Lemma lone_string_drop (z : nat) (s : list byte) (m : nat) :
  drop z (lone_string z s m) = s ++ replicate m x00.
Proof. unfold lone_string. apply drop_app_length'. now rewrite length_replicate. Qed.

Lemma lone_string_take (z : nat) (s : list byte) (m : nat) :
  take z (lone_string z s m) = replicate z x00.
Proof. unfold lone_string. apply take_app_length'. now rewrite length_replicate. Qed.

Lemma lone_string_zeros (z : nat) (s : list byte) (m j : nat) :
  j < z -> char_at (lone_string z s m) j = x00.
Proof.
  intros H. unfold lone_string. rewrite char_at_app_l by (rewrite length_replicate; lia).
  apply char_at_replicate.
Qed.

Lemma lone_string_text (z : nat) (s : list byte) (m c : nat) :
  c < length s -> char_at (lone_string z s m) (z + c) = char_at s c.
Proof.
  intros H. unfold lone_string. rewrite char_at_app_r by (rewrite length_replicate; lia).
  rewrite length_replicate. replace (z + c - z) with c by lia.
  now apply char_at_app_l.
Qed.

Lemma lone_string_padding (z : nat) (s : list byte) (m j : nat) :
  z + length s <= j -> char_at (lone_string z s m) j = x00.
Proof.
  intros H. unfold lone_string. rewrite char_at_app_r by (rewrite length_replicate; lia).
  rewrite length_replicate, char_at_app_r by lia. apply char_at_replicate.
Qed.

Lemma lone_string_text_nul (z : nat) (s : list byte) (m c : nat) :
  nul_free s -> c < length s -> is_nul (char_at (lone_string z s m) (z + c)) = false.
Proof. intros Hs H. rewrite lone_string_text by lia. now apply char_at_nul_free. Qed.

Lemma padded_text (s : list byte) (m c : nat) :
  c < length s -> char_at (s ++ replicate m x00) c = char_at s c.
Proof. intros H. now apply char_at_app_l. Qed.

Lemma padded_padding (s : list byte) (m c : nat) :
  length s <= c -> char_at (s ++ replicate m x00) c = x00.
Proof. intros H. rewrite char_at_app_r by lia. apply char_at_replicate. Qed.

(** [count_occurrences] on the string alone: one occurrence, the length of
    the string. *)
Lemma count_occurrences_loop_alone (s : list byte) (m fuel c : nat) :
  nul_free s -> 0 < m ->
  c < length s -> length s - c < fuel ->
  count_occurrences_loop fuel (s ++ replicate m x00) s (length s) c c 0%Z = (1%Z, length s).
Proof.
  intros Hs Hm. revert c. induction fuel as [|fuel IH]; intros c Hc Hfuel; [lia|]. simpl.
  rewrite padded_text by lia.
  rewrite (char_at_nul_free s c) by auto.
  rewrite byte_eqb_refl.
  destruct (Nat.leb_spec (length s) (S c)) as [Hfull|Hpart].
  - assert (S c = length s) as -> by lia.
    destruct fuel as [|fuel]; [lia|]. simpl.
    rewrite padded_padding by lia. reflexivity.
  - apply IH; lia.
Qed.

(** [string_substitute] on the string alone writes the replacement at the
    head of the block. *)
Lemma string_substitute_loop_alone (s replace block : list byte) (m fuel c : nat) :
  c < length s -> c + fuel = length s ->
  length replace <= length block ->
  string_substitute_loop fuel block (s ++ replicate m x00) s replace
    (length s) (length replace) c 0 c
  = Done (replace ++ drop (length replace) block).
Proof.
  revert c. induction fuel as [|fuel IH]; intros c Hc Hfuel Hblock; [lia|]. simpl.
  rewrite padded_text by lia. rewrite byte_eqb_refl. simpl.
  destruct (Nat.leb_spec (length s) (S c)) as [Hfull|Hpart].
  - rewrite take_ge by lia. unfold memcpy.
    destruct (Nat.leb_spec (0 + length replace) (length block)); [|lia]. simpl.
    destruct fuel as [|fuel]; [reflexivity | lia].
  - simpl. apply IH; lia.
Qed.

(** The rewriting of the room of the string. *)
Lemma memcpy_memset_alone (z : nat) (s replace : list byte) (m : nat) (d1 d2 : list byte) :
  0 < m -> length replace < length s + m ->
  memcpy DataBuffer (lone_string z s m) z replace = Done d1 ->
  memset DataBuffer d1 (z + length replace) x00 (length s + m - 1 - length replace)
    = Done d2 ->
  d2 = lone_string z replace (length s + m - length replace).
Proof.
  intros Hm Hfit H1 H2.
  rewrite (memcpy_memset_splice _ _ _ _ (length s + m - 1) _ _ H1 H2) by lia.
  rewrite lone_string_take. unfold lone_string at 2. do 2 f_equal.
  replace (length s + m - length replace)
    with (S (length s + m - 1 - length replace)) by lia.
  rewrite replicate_S_end. f_equal.
  rewrite <- drop_drop, lone_string_drop.
  rewrite drop_app_ge by lia. rewrite drop_replicate.
  replace (m - (length s + m - 1 - length s)) with 1 by lia. reflexivity.
Qed.

Lemma rewrite_room_alone (z : nat) (s replace : list byte) (m : nat) :
  0 < m -> length replace < length s + m ->
  exists d1,
    memcpy DataBuffer (lone_string z s m) z replace = Done d1 /\
    memset DataBuffer d1 (z + length replace) x00 (length s + m - 1 - length replace)
    = Done (lone_string z replace (length s + m - length replace)).
Proof.
  intros Hm Hfit.
  destruct (memcpy_in_bounds DataBuffer (lone_string z s m) z replace) as [d1 H1];
    [rewrite lone_string_length; lia|].
  destruct (memcpy_in_bounds DataBuffer d1 (z + length replace)
              (replicate (length s + m - 1 - length replace) x00)) as [d2 H2].
  { rewrite length_replicate, (memcpy_length _ _ _ _ _ H1), lone_string_length. lia. }
  exists d1. split; [exact H1|]. unfold memset. rewrite H2.
  now rewrite (memcpy_memset_alone z s replace m d1 d2 Hm Hfit H1 H2).
Qed.

Section LoneString.

Variable al : allocator.
Variables search replace : list byte.
Variables z m : nat.

Lemma sr_match_alone (c : nat) :
  nul_free search -> 0 < m -> length replace < length search + m ->
  grants al (length replace) = true ->
  (Z.of_nat (z + length search + m) < 2 ^ 64)%Z ->
  c < length search ->
  sr_match al search replace (length (lone_string z search m)) (z + c)
    (mkScan (lone_string z search m) 2 c z 1 None)
  = if S c <? length search
    then Done (mkScan (lone_string z search m) 2 (S c) z 1 None)
    else Done (mkScan (lone_string z replace (length search + m - length replace))
                 1 0 z 0 (Some replace)).
Proof.
  intros Hs Hm Hfit Hgrant Hsize Hc.
  unfold sr_match. cbn [sc_data sc_c sc_offset sc_state sc_ret sc_buffer].
  rewrite lone_string_text, byte_eqb_refl by lia.
  destruct (Nat.leb_spec (length search) (S c)) as [Hfull|Hpart];
    destruct (Nat.ltb_spec (S c) (length search)); try lia; [|reflexivity].
  rewrite lone_string_drop, lone_string_length.
  replace (z + length search + m - z) with (length search + m) by lia.
  unfold count_occurrences.
  rewrite (count_occurrences_loop_alone search m (length search + m) 0) by (auto; lia).
  assert (Hwrap : wrap_size (Z.of_nat (length search)
                     + 1 * (Z.of_nat (length replace) - Z.of_nat (length search)))
                  = Z.of_nat (length replace)).
  { unfold wrap_size. rewrite Z.mod_small; lia. }
  rewrite Hwrap.
  pose proof (available_length_padded_end search m Hs ltac:(lia)) as Hav.
  rewrite length_app, length_replicate in Hav. rewrite Hav.
  destruct (Z.ltb_spec (Z.of_nat (length search + m - 1)) (Z.of_nat (length replace)));
    [lia|].
  rewrite Nat2Z.id. unfold malloc. rewrite Hgrant.
  set (block := map (fresh al) (seq 0 (length replace))).
  assert (Hblock : length block = length replace)
    by (unfold block; now rewrite length_map, length_seq).
  unfold string_substitute.
  rewrite (string_substitute_loop_alone search replace block m (length search) 0) by lia.
  rewrite drop_ge, app_nil_r by lia. simpl.
  rewrite take_ge by lia.
  destruct (rewrite_room_alone z search replace m Hm Hfit) as (d1 & H1 & H2).
  rewrite H1. simpl. rewrite H2. reflexivity.
Qed.

Lemma sr_loop_alone_match (k c : nat) :
  nul_free search -> 0 < m -> length replace < length search + m ->
  grants al (length replace) = true ->
  (Z.of_nat (z + length search + m) < 2 ^ 64)%Z ->
  c < length search -> c + k = length search ->
  for_loop (sr_body al search replace (length (lone_string z search m))) k (z + c)
    (mkScan (lone_string z search m) 2 c z 1 None)
  = Done (mkScan (lone_string z replace (length search + m - length replace))
            1 0 z 0 (Some replace)).
Proof.
  intros Hs Hm Hfit Hgrant Hsize.
  revert c. induction k as [|k IH]; intros c Hc Hk; [lia|]. simpl.
  unfold sr_body at 1. cbn [sc_data sc_c sc_offset sc_state sc_ret sc_buffer]. simpl Z.eqb.
  rewrite lone_string_text_nul by (auto; lia).
  rewrite sr_match_alone by (auto; lia).
  destruct (Nat.ltb_spec (S c) (length search)); simpl.
  - replace (S (z + c)) with (z + S c) by lia. apply IH; lia.
  - destruct k as [|k]; [reflexivity | lia].
Qed.

Lemma sr_loop_alone_start (k : nat) :
  nul_free search -> 0 < length search ->
  for_loop (sr_body al search replace (length (lone_string z search m))) (S k) z
    (scan_init (lone_string z search m))
  = for_loop (sr_body al search replace (length (lone_string z search m))) (S k) (z + 0)
      (mkScan (lone_string z search m) 2 0 z 1 None).
Proof.
  intros Hs Hn. rewrite Nat.add_0_r. simpl. unfold sr_body at 1 3.
  cbn [sc_data sc_c sc_offset sc_state sc_ret sc_buffer scan_init].
  simpl Z.eqb. cbv iota.
  pose proof (lone_string_text_nul z search m 0 Hs Hn) as Hnul.
  rewrite Nat.add_0_r in Hnul. rewrite Hnul. reflexivity.
Qed.

Lemma sr_loop_alone_tail (q : nat) :
  nul_free replace ->
  exists st',
    for_loop (sr_body al search replace (length (lone_string z search m))) m
      (z + length search)
      (mkScan (lone_string z replace q) 1 0 z 0 (Some replace)) = Done st' /\
    sc_data st' = lone_string z replace q /\ sc_ret st' = 0%Z.
Proof.
  intros Hr.
  apply (sr_loop_tail al search replace _ m (z + length search)
           (mkScan (lone_string z replace q) 1 0 z 0 (Some replace))); simpl; auto.
  - discriminate.
  - intros j k Hj Hk Hnul.
    destruct (Nat.lt_ge_cases j (z + length replace)) as [Hin|Hout].
    + replace j with (z + (j - z)) in Hnul by lia.
      rewrite lone_string_text_nul in Hnul by (auto; lia). discriminate.
    + now rewrite lone_string_padding by lia.
Qed.

End LoneString.

(** X6.  On a buffer that holds z zero bytes, the search string and m >= 1 zero
    bytes, search_and_replace returns 0 and turns the buffer into z zero
    bytes, the replacement and zero bytes up to the same length, whenever
    the replacement is shorter than length(search) + m, malloc grants the
    block and the buffer is shorter than 2^64 bytes. *)
Theorem search_and_replace_lone_string (al : allocator) (search replace : list byte)
    (z m : nat) :
  nul_free search -> 0 < length search -> 0 < m ->
  nul_free replace -> length replace < length search + m ->
  grants al (length replace) = true ->
  (Z.of_nat (z + length search + m) < 2 ^ 64)%Z ->
  search_and_replace al search replace (lone_string z search m)
  = Done (0%Z, lone_string z replace (length search + m - length replace)).
Proof.
  intros Hs Hn Hm Hr Hfit Hg Hsize.
  set (data := lone_string z search m).
  assert (Hlen : length data = z + (length search + m)).
  { unfold data. rewrite lone_string_length. lia. }
  assert (Hzeros : for_loop (sr_body al search replace (length data)) z 0 (scan_init data)
                   = Done (scan_init data)).
  { apply sr_loop_zeros; [reflexivity|]. intros j Hj. simpl.
    unfold data. rewrite lone_string_zeros by lia. reflexivity. }
  assert (Hfirst : for_loop (sr_body al search replace (length data)) (length search) z
                     (scan_init data)
                   = Done (mkScan (lone_string z replace
                                     (length search + m - length replace))
                             1 0 z 0 (Some replace))).
  { replace (length search) with (S (length search - 1)) at 1 by lia.
    unfold data. rewrite sr_loop_alone_start by auto.
    apply sr_loop_alone_match; auto; lia. }
  destruct (sr_loop_alone_tail al search replace z m
              (length search + m - length replace) Hr) as (st' & Htail & Hd & Hret).
  fold data in Htail.
  unfold search_and_replace.
  set (body := sr_body al search replace (length data)) in *.
  rewrite Hlen, for_loop_split, Hzeros. cbn [bind_out Nat.add].
  rewrite for_loop_split, Hfirst. cbn [bind_out].
  rewrite Htail. cbn [bind_out]. now rewrite Hd, Hret.
Qed.

Lemma search_and_replace_lone_string_witness :
  search_and_replace zero_alloc (cstr "hello") (cstr "hi") (lone_string 2 (cstr "hello") 3)
  = Done (0%Z, lone_string 2 (cstr "hi") 6).
Proof.
  apply (search_and_replace_lone_string zero_alloc (cstr "hello") (cstr "hi") 2 3).
  - repeat constructor.
  - simpl. lia.
  - lia.
  - repeat constructor.
  - simpl. lia.
  - reflexivity.
  - vm_compute. reflexivity.
Defined.

Section LoneStringExact.

Variables search replace : list byte.
Variables z m : nat.

Lemma sre_match_alone_step (c : nat) :
  c < length search ->
  sre_match search replace (length (lone_string z search m)) (z + c)
    (mkScan (lone_string z search m) 2 c z 1 None)
  = Done (mkScan (lone_string z search m) 2 (S c) z 1 None).
Proof.
  intros Hc. unfold sre_match. cbn [sc_data sc_c sc_offset sc_state sc_ret sc_buffer].
  rewrite lone_string_text, byte_eqb_refl by lia.
  destruct (Nat.ltb_spec (length search) (S c)); [lia|]. reflexivity.
Qed.

Lemma sre_match_alone_end :
  nul_free search -> 0 < m -> length replace < length search + m ->
  sre_match search replace (length (lone_string z search m)) (z + length search)
    (mkScan (lone_string z search m) 2 (length search) z 1 None)
  = Done (mkScan (lone_string z replace (length search + m - length replace)) 0 0 z 0 None).
Proof.
  intros Hs Hm Hfit.
  unfold sre_match. cbn [sc_data sc_c sc_offset sc_state sc_ret sc_buffer].
  rewrite lone_string_padding, (char_at_beyond search) by lia.
  change (Byte.eqb x00 x00) with true. cbv iota.
  destruct (Nat.ltb_spec (length search) (S (length search))); [|lia].
  change (is_nul x00) with true. cbn [andb].
  rewrite lone_string_drop, lone_string_length.
  replace (z + length search + m - z) with (length search + m) by lia.
  pose proof (available_length_padded_end search m Hs ltac:(lia)) as Hav.
  rewrite length_app, length_replicate in Hav. rewrite Hav.
  destruct (Nat.ltb_spec (length search + m - 1) (length replace)); [lia|].
  rewrite take_ge by lia.
  destruct (rewrite_room_alone z search replace m Hm Hfit) as (d1 & H1 & H2).
  rewrite H1. simpl. rewrite H2. reflexivity.
Qed.

Lemma sre_loop_alone_match (k c : nat) :
  nul_free search -> 0 < m -> length replace < length search + m ->
  c + k = length search ->
  for_loop (sre_body search replace (length (lone_string z search m))) (S k) (z + c)
    (mkScan (lone_string z search m) 2 c z 1 None)
  = Done (mkScan (lone_string z replace (length search + m - length replace)) 0 0 z 0 None).
Proof.
  intros Hs Hm Hfit.
  revert c. induction k as [|k IH]; intros c Hk; cbn [for_loop].
  - unfold sre_body. cbn [sc_state]. simpl Z.eqb. cbv iota.
    replace c with (length search) by lia. now rewrite sre_match_alone_end.
  - unfold sre_body at 1. cbn [sc_state]. simpl Z.eqb. cbv iota.
    rewrite sre_match_alone_step by lia. cbn [bind_out].
    replace (S (z + c)) with (z + S c) by lia. apply IH. lia.
Qed.

Lemma sre_loop_alone_start (k : nat) :
  nul_free search -> 0 < length search ->
  for_loop (sre_body search replace (length (lone_string z search m))) (S k) z
    (scan_init (lone_string z search m))
  = for_loop (sre_body search replace (length (lone_string z search m))) (S k) (z + 0)
      (mkScan (lone_string z search m) 2 0 z 1 None).
Proof.
  intros Hs Hn. rewrite Nat.add_0_r. cbn [for_loop]. unfold sre_body at 1 3.
  cbn [sc_data sc_c sc_offset sc_state sc_ret sc_buffer scan_init].
  simpl Z.eqb. cbv iota.
  pose proof (lone_string_text_nul z search m 0 Hs Hn) as Hnul.
  rewrite Nat.add_0_r in Hnul. rewrite Hnul. reflexivity.
Qed.

End LoneStringExact.

(** X7.  On a buffer that holds z zero bytes, the search string and m >= 1 zero
    bytes, search_and_replace_exact returns 0 and turns the buffer into z
    zero bytes, the replacement and zero bytes up to the same length,
    whenever the replacement is shorter than length(search) + m and at most
    one byte longer than the search string (so that the scan resumes after
    the replacement). *)
Theorem search_and_replace_exact_lone_string (search replace : list byte) (z m : nat) :
  nul_free search -> 0 < length search -> 0 < m ->
  length replace < length search + m ->
  length replace <= length search + 1 ->
  search_and_replace_exact search replace (lone_string z search m)
  = Done (0%Z, lone_string z replace (length search + m - length replace)).
Proof.
  intros Hs Hn Hm Hfit Hshort.
  set (data := lone_string z search m).
  set (data' := lone_string z replace (length search + m - length replace)).
  assert (Hlen : length data = z + (S (length search) + (m - 1))).
  { unfold data. rewrite lone_string_length. lia. }
  assert (Hzeros : for_loop (sre_body search replace (length data)) z 0 (scan_init data)
                   = Done (scan_init data)).
  { apply sre_loop_zeros; [reflexivity|]. intros j Hj. simpl.
    unfold data. rewrite lone_string_zeros by lia. reflexivity. }
  assert (Hfirst : for_loop (sre_body search replace (length data)) (S (length search)) z
                     (scan_init data) = Done (mkScan data' 0 0 z 0 None)).
  { unfold data, data'. rewrite sre_loop_alone_start by assumption.
    apply sre_loop_alone_match; auto. }
  assert (Htail : for_loop (sre_body search replace (length data)) (m - 1)
                    (z + S (length search)) (mkScan data' 0 0 z 0 None)
                  = Done (mkScan data' 0 0 z 0 None)).
  { apply sre_loop_zeros; [reflexivity|]. intros j Hj. simpl.
    unfold data'. rewrite lone_string_padding by lia. reflexivity. }
  unfold search_and_replace_exact.
  set (body := sre_body search replace (length data)) in *.
  rewrite Hlen, for_loop_split, Hzeros. cbn [bind_out]. rewrite Nat.add_0_l.
  rewrite for_loop_split, Hfirst. cbn [bind_out].
  rewrite Htail. reflexivity.
Qed.

Lemma search_and_replace_exact_lone_string_witness :
  search_and_replace_exact (cstr "hello") (cstr "hello!") (lone_string 2 (cstr "hello") 3)
  = Done (0%Z, lone_string 2 (cstr "hello!") 2).
Proof.
  apply (search_and_replace_exact_lone_string (cstr "hello") (cstr "hello!") 2 3).
  - repeat constructor.
  - simpl. lia.
  - lia.
  - simpl. lia.
  - simpl. lia.
Defined.

Section LoneStringNoRoom.

Variable al : allocator.
Variables search replace : list byte.
Variables z m : nat.

Lemma sr_match_alone_no_room (c : nat) :
  nul_free search -> 0 < m -> length search + m <= length replace ->
  (Z.of_nat (length replace) < 2 ^ 64)%Z ->
  c < length search ->
  sr_match al search replace (length (lone_string z search m)) (z + c)
    (mkScan (lone_string z search m) 2 c z 1 None)
  = if S c <? length search
    then Done (mkScan (lone_string z search m) 2 (S c) z 1 None)
    else Done (mkScan (lone_string z search m) 1 0 z 2 None).
Proof.
  intros Hs Hm Hfit Hsize Hc.
  unfold sr_match. cbn [sc_data sc_c sc_offset sc_state sc_ret sc_buffer].
  rewrite lone_string_text, byte_eqb_refl by lia.
  destruct (Nat.leb_spec (length search) (S c)) as [Hfull|Hpart];
    destruct (Nat.ltb_spec (S c) (length search)); try lia; [|reflexivity].
  rewrite lone_string_drop, lone_string_length.
  replace (z + length search + m - z) with (length search + m) by lia.
  unfold count_occurrences.
  rewrite (count_occurrences_loop_alone search m (length search + m) 0) by (auto; lia).
  assert (Hwrap : wrap_size (Z.of_nat (length search)
                     + 1 * (Z.of_nat (length replace) - Z.of_nat (length search)))
                  = Z.of_nat (length replace)).
  { unfold wrap_size. rewrite Z.mod_small; lia. }
  rewrite Hwrap.
  pose proof (available_length_padded_end search m Hs ltac:(lia)) as Hav.
  rewrite length_app, length_replicate in Hav. rewrite Hav.
  destruct (Z.ltb_spec (Z.of_nat (length search + m - 1)) (Z.of_nat (length replace)));
    [reflexivity | lia].
Qed.

Lemma sr_loop_alone_no_room (k c : nat) :
  nul_free search -> 0 < m -> length search + m <= length replace ->
  (Z.of_nat (length replace) < 2 ^ 64)%Z ->
  c < length search -> c + k = length search ->
  for_loop (sr_body al search replace (length (lone_string z search m))) k (z + c)
    (mkScan (lone_string z search m) 2 c z 1 None)
  = Done (mkScan (lone_string z search m) 1 0 z 2 None).
Proof.
  intros Hs Hm Hfit Hsize.
  revert c. induction k as [|k IH]; intros c Hc Hk; [lia|]. simpl.
  unfold sr_body at 1. cbn [sc_data sc_c sc_offset sc_state sc_ret sc_buffer]. simpl Z.eqb.
  rewrite lone_string_text_nul by (auto; lia).
  rewrite sr_match_alone_no_room by (auto; lia).
  destruct (Nat.ltb_spec (S c) (length search)); simpl.
  - replace (S (z + c)) with (z + S c) by lia. apply IH; lia.
  - destruct k as [|k]; [reflexivity | lia].
Qed.

Lemma sre_match_alone_no_room :
  nul_free search -> 0 < m -> length search + m <= length replace ->
  sre_match search replace (length (lone_string z search m)) (z + length search)
    (mkScan (lone_string z search m) 2 (length search) z 1 None)
  = Done (mkScan (lone_string z search m) 0 0 z 2 None).
Proof.
  intros Hs Hm Hfit.
  unfold sre_match. cbn [sc_data sc_c sc_offset sc_state sc_ret sc_buffer].
  rewrite lone_string_padding, (char_at_beyond search) by lia.
  change (Byte.eqb x00 x00) with true. cbv iota.
  destruct (Nat.ltb_spec (length search) (S (length search))); [|lia].
  change (is_nul x00) with true. cbn [andb].
  rewrite lone_string_drop, lone_string_length.
  replace (z + length search + m - z) with (length search + m) by lia.
  pose proof (available_length_padded_end search m Hs ltac:(lia)) as Hav.
  rewrite length_app, length_replicate in Hav. rewrite Hav.
  destruct (Nat.ltb_spec (length search + m - 1) (length replace)); [reflexivity | lia].
Qed.

Lemma sre_loop_alone_no_room (k c : nat) :
  nul_free search -> 0 < m -> length search + m <= length replace ->
  c + k = length search ->
  for_loop (sre_body search replace (length (lone_string z search m))) (S k) (z + c)
    (mkScan (lone_string z search m) 2 c z 1 None)
  = Done (mkScan (lone_string z search m) 0 0 z 2 None).
Proof.
  intros Hs Hm Hfit.
  revert c. induction k as [|k IH]; intros c Hk; cbn [for_loop].
  - unfold sre_body. cbn [sc_state]. simpl Z.eqb. cbv iota.
    replace c with (length search) by lia. now rewrite sre_match_alone_no_room.
  - unfold sre_body at 1. cbn [sc_state]. simpl Z.eqb. cbv iota.
    rewrite sre_match_alone_step by lia. cbn [bind_out].
    replace (S (z + c)) with (z + S c) by lia. apply IH. lia.
Qed.

End LoneStringNoRoom.

(** X8.  On a buffer that holds z zero bytes, the search string and m >= 1 zero
    bytes, a replacement of length(search) + m bytes or more does not fit:
    search_and_replace and search_and_replace_exact both return 2 and leave
    every byte of the buffer as it was. *)
Theorem lone_string_without_room (al : allocator) (search replace : list byte) (z m : nat) :
  nul_free search -> 0 < length search -> 0 < m ->
  length search + m <= length replace ->
  (Z.of_nat (length replace) < 2 ^ 64)%Z ->
  search_and_replace al search replace (lone_string z search m)
  = Done (2%Z, lone_string z search m) /\
  search_and_replace_exact search replace (lone_string z search m)
  = Done (2%Z, lone_string z search m).
Proof.
  intros Hs Hn Hm Hfit Hsize.
  set (data := lone_string z search m).
  assert (Hpad : forall j, z + length search <= j -> is_nul (char_at data j) = true).
  { intros j Hj. unfold data. now rewrite lone_string_padding by lia. }
  split.
  - assert (Hlen : length data = z + (length search + m)).
    { unfold data. rewrite lone_string_length. lia. }
    assert (Hzeros : for_loop (sr_body al search replace (length data)) z 0 (scan_init data)
                     = Done (scan_init data)).
    { apply sr_loop_zeros; [reflexivity|]. intros j Hj. simpl.
      unfold data. rewrite lone_string_zeros by lia. reflexivity. }
    assert (Hfirst : for_loop (sr_body al search replace (length data)) (length search) z
                       (scan_init data) = Done (mkScan data 1 0 z 2 None)).
    { replace (length search) with (S (length search - 1)) at 1 by lia.
      unfold data. rewrite sr_loop_alone_start by auto.
      apply sr_loop_alone_no_room; auto; lia. }
    destruct (sr_loop_tail al search replace (length data) m (z + length search)
                (mkScan data 1 0 z 2 None)) as (st' & Htail & Hd & Hret).
    + left. reflexivity.
    + discriminate.
    + intros j k Hj Hk _. apply Hpad. lia.
    + unfold search_and_replace.
      set (body := sr_body al search replace (length data)) in *.
      rewrite Hlen, for_loop_split, Hzeros. cbn [bind_out Nat.add].
      rewrite for_loop_split, Hfirst. cbn [bind_out].
      rewrite Htail. cbn [bind_out]. now rewrite Hd, Hret.
  - assert (Hlen : length data = z + (S (length search) + (m - 1))).
    { unfold data. rewrite lone_string_length. lia. }
    assert (Hzeros : for_loop (sre_body search replace (length data)) z 0 (scan_init data)
                     = Done (scan_init data)).
    { apply sre_loop_zeros; [reflexivity|]. intros j Hj. simpl.
      unfold data. rewrite lone_string_zeros by lia. reflexivity. }
    assert (Hfirst : for_loop (sre_body search replace (length data)) (S (length search)) z
                       (scan_init data) = Done (mkScan data 0 0 z 2 None)).
    { unfold data. rewrite sre_loop_alone_start by assumption.
      apply sre_loop_alone_no_room; auto. }
    assert (Htail : for_loop (sre_body search replace (length data)) (m - 1)
                      (z + S (length search)) (mkScan data 0 0 z 2 None)
                    = Done (mkScan data 0 0 z 2 None)).
    { apply sre_loop_zeros; [reflexivity|]. intros j Hj. simpl. apply Hpad. lia. }
    unfold search_and_replace_exact.
    set (body := sre_body search replace (length data)) in *.
    rewrite Hlen, for_loop_split, Hzeros. cbn [bind_out]. rewrite Nat.add_0_l.
    rewrite for_loop_split, Hfirst. cbn [bind_out].
    rewrite Htail. reflexivity.
Qed.

Lemma lone_string_without_room_witness :
  search_and_replace zero_alloc (cstr "hello") (cstr "hello!!!") (lone_string 2 (cstr "hello") 3)
  = Done (2%Z, lone_string 2 (cstr "hello") 3) /\
  search_and_replace_exact (cstr "hello") (cstr "hello!!!") (lone_string 2 (cstr "hello") 3)
  = Done (2%Z, lone_string 2 (cstr "hello") 3).
Proof.
  apply (lone_string_without_room zero_alloc (cstr "hello") (cstr "hello!!!") 2 3).
  - repeat constructor.
  - simpl. lia.
  - lia.
  - simpl. lia.
  - vm_compute. reflexivity.
Defined.

Lemma printf_s_text (txt rest : list byte) :
  nul_free txt -> printf_s (length txt) (txt ++ rest) = txt.
Proof.
  induction 1 as [|b txt Hb _ IH]; simpl; [reflexivity|].
  now rewrite Hb, IH.
Qed.

(** Inside a run nothing is printed. *)
Lemma print_strings_loop_in_run (data : list byte) (offset_start : Z) (fuel i l : nat)
    (s : nat) :
  (forall j, i <= j < i + fuel -> is_nul (char_at data j) = false) ->
  print_strings_loop fuel data offset_start i l (Some s) = [].
Proof.
  revert i l. induction fuel as [|fuel IH]; intros i l H; simpl; [reflexivity|].
  rewrite (H i) by lia. apply IH. intros j Hj. apply H. lia.
Qed.

(** The loop reads [data] from the index it is at, and from where the
    current run starts. *)
Lemma print_strings_loop_shift (pre data : list byte) (offset_start : Z) (fuel i l : nat)
    (s : option nat) :
  print_strings_loop fuel (pre ++ data) offset_start (length pre + i) l
    (option_map (Nat.add (length pre)) s)
  = print_strings_loop fuel data (offset_start + Z.of_nat (length pre)) i l s.
Proof.
  revert i l s. induction fuel as [|fuel IH]; intros i l s; simpl; [reflexivity|].
  rewrite char_at_app_r by lia.
  replace (length pre + i - length pre) with i by lia.
  replace (S (length pre + i)) with (length pre + S i) by lia.
  destruct (is_nul (char_at data i)).
  - destruct (0 <? l).
    + f_equal.
      * f_equal. f_equal. lia.
        destruct s as [k|]; simpl; [|reflexivity].
        now rewrite drop_app_ge, Nat.add_comm, Nat.add_sub by lia.
      * apply (IH (S i) 0 None).
    + apply IH.
  - destruct s as [k|]; simpl.
    + apply (IH (S i) (S l) (Some k)).
    + apply (IH (S i) (S l) (Some i)).
Qed.

Lemma printf_s_app (l : nat) (a b : list byte) :
  l <= length a -> printf_s l (a ++ b) = printf_s l a.
Proof.
  revert a. induction l as [|l IH]; intros a Hl; simpl.
  - now destruct (a ++ b), a.
  - destruct a as [|x a]; simpl in *; [lia|].
    destruct (is_nul x); [reflexivity|]. f_equal. apply IH. lia.
Qed.

(** A run that no zero byte ends is not printed. *)
Lemma print_strings_loop_app (data txt : list byte) (offset_start : Z)
    (fuel i l : nat) (s : option nat) :
  nul_free txt ->
  i + fuel = length data ->
  ps_state_at i l s ->
  print_strings_loop (fuel + length txt) (data ++ txt) offset_start i l s
  = print_strings_loop fuel data offset_start i l s.
Proof.
  intros Htxt. unfold ps_state_at.
  revert i l s. induction fuel as [|fuel IH]; intros i l s Hi Hs.
  - rewrite Nat.add_0_l. simpl.
    destruct txt as [|b txt]; [reflexivity|].
    assert (Hrun : forall j, i <= j < i + length (b :: txt) ->
                     is_nul (char_at (data ++ b :: txt) j) = false).
    { intros j Hj. rewrite char_at_app_r by lia.
      apply char_at_nul_free; [exact Htxt | lia]. }
    cbn [length print_strings_loop]. rewrite (Hrun i) by (simpl; lia).
    destruct s as [k|]; apply print_strings_loop_in_run;
      intros j Hj; apply Hrun; simpl; lia.
  - cbn [Nat.add print_strings_loop].
    rewrite char_at_app_l by lia.
    destruct (is_nul (char_at data i)) eqn:Hnul.
    + destruct (Nat.ltb_spec 0 l).
      * f_equal.
        -- f_equal. destruct s as [k|]; [|reflexivity].
           rewrite drop_app_le by lia. apply printf_s_app. rewrite length_drop. lia.
        -- apply IH; [lia | reflexivity].
      * apply IH; [lia|]. destruct s; lia.
    + destruct s as [k|]; apply IH; simpl in *; lia.
Qed.

(** X9.  print_strings prints nothing for bytes at the end of the buffer that no
    zero byte ends: the lines printed for a buffer followed by any non-zero
    bytes are the lines printed for the buffer alone, so a last string
    without terminator is not listed. *)
Theorem print_strings_drops_unterminated (data txt : list byte) (offset_start : Z) :
  nul_free txt ->
  print_strings (data ++ txt) offset_start (length (data ++ txt))
  = print_strings data offset_start (length data).
Proof.
  intros Htxt. unfold print_strings. rewrite length_app.
  apply print_strings_loop_app; [exact Htxt | lia | reflexivity].
Qed.

Lemma print_strings_drops_unterminated_witness :
  print_strings ((cstr "hello" ++ [x00]) ++ cstr "world") 168 11
  = print_strings (cstr "hello" ++ [x00]) 168 6.
Proof.
  apply (print_strings_drops_unterminated (cstr "hello" ++ [x00]) (cstr "world") 168).
  repeat constructor.
Defined.

Lemma print_strings_loop_zeros (data : list byte) (offset_start : Z) (k fuel i : nat) :
  (forall j, i <= j < i + k -> is_nul (char_at data j) = true) ->
  print_strings_loop (k + fuel) data offset_start i 0 None
  = print_strings_loop fuel data offset_start (i + k) 0 None.
Proof.
  revert i. induction k as [|k IH]; intros i H.
  - now rewrite Nat.add_0_r.
  - cbn [Nat.add print_strings_loop]. rewrite (H i) by lia. simpl.
    rewrite IH by (intros j Hj; apply H; lia).
    f_equal. lia.
Qed.

Lemma print_strings_loop_text (data : list byte) (offset_start : Z) (k fuel i l s : nat) :
  (forall j, i <= j < i + k -> is_nul (char_at data j) = false) ->
  print_strings_loop (k + fuel) data offset_start i l (Some s)
  = print_strings_loop fuel data offset_start (i + k) (l + k) (Some s).
Proof.
  revert i l. induction k as [|k IH]; intros i l H.
  - now rewrite !Nat.add_0_r.
  - cbn [Nat.add print_strings_loop]. rewrite (H i) by lia.
    rewrite IH by (intros j Hj; apply H; lia).
    f_equal; lia.
Qed.

(** X10.  On a buffer that starts with z zero bytes, a non-empty string of
    non-zero bytes and the zero byte that ends it, print_strings first
    prints one line, with the offset offset_start + z (as a size_t) and the
    bytes of the string, and then prints what it prints for the rest of the
    buffer with offset_start moved past that zero byte. *)
Theorem print_strings_first_string (z : nat) (txt rest : list byte) (offset_start : Z) :
  nul_free txt -> 0 < length txt ->
  let data := replicate z x00 ++ txt ++ x00 :: rest in
  print_strings data offset_start (length data)
  = (wrap_size (offset_start + Z.of_nat z), txt)
    :: print_strings rest (offset_start + Z.of_nat (z + length txt + 1)) (length rest).
Proof.
  intros Htxt Hlen data. unfold print_strings.
  assert (Hdata : length data = z + (length txt + S (length rest))).
  { unfold data. rewrite !length_app, length_replicate. simpl. lia. }
  assert (Hz : forall j, j < z -> char_at data j = x00).
  { intros j Hj. unfold data. rewrite char_at_app_l by (rewrite length_replicate; lia).
    apply char_at_replicate. }
  assert (Ht : forall j, z <= j < z + length txt -> is_nul (char_at data j) = false).
  { intros j Hj. unfold data.
    rewrite char_at_app_r, length_replicate by (rewrite length_replicate; lia).
    rewrite char_at_app_l by lia. apply char_at_nul_free; [exact Htxt | lia]. }
  assert (He : char_at data (z + length txt) = x00).
  { unfold data.
    rewrite char_at_app_r, length_replicate by (rewrite length_replicate; lia).
    rewrite char_at_app_r by lia.
    now replace (z + length txt - z - length txt) with 0 by lia. }
  rewrite Hdata, print_strings_loop_zeros by (intros j Hj; rewrite Hz by lia; reflexivity).
  rewrite Nat.add_0_l.
  destruct txt as [|b txt]; [simpl in Hlen; lia|].
  cbn [length Nat.add print_strings_loop].
  rewrite (Ht z) by (simpl; lia). cbn [length] in *.
  rewrite (print_strings_loop_text data offset_start (length txt))
    by (intros j Hj; apply Ht; lia).
  cbn [print_strings_loop].
  replace (S z + length txt) with (z + S (length txt)) by lia.
  rewrite He. change (is_nul x00) with true. cbv iota.
  destruct (Nat.ltb_spec 0 (1 + length txt)); [|lia].
  f_equal.
  - f_equal.
    + f_equal. lia.
    + unfold data. rewrite drop_app_length' by (now rewrite length_replicate).
      replace (1 + length txt) with (length (b :: txt)) by (simpl; lia).
      apply printf_s_text. exact Htxt.
  - pose proof (print_strings_loop_shift (replicate z x00 ++ (b :: txt) ++ [x00]) rest
                  offset_start (length rest) 0 0 None) as Hs.
    rewrite !length_app, length_replicate in Hs. cbn [length option_map] in Hs.
    replace (z + (S (length txt) + 1) + 0) with (S (z + S (length txt))) in Hs by lia.
    replace ((replicate z x00 ++ (b :: txt) ++ [x00]) ++ rest) with data in Hs
      by (unfold data; now rewrite <- !app_assoc).
    rewrite Hs. f_equal. lia.
Qed.

Lemma print_strings_first_string_witness :
  print_strings (replicate 2 x00 ++ cstr "hello" ++ x00 :: cstr "world" ++ [x00]) 168 14
  = (wrap_size (168 + Z.of_nat 2), cstr "hello")
    :: print_strings (cstr "world" ++ [x00]) (168 + Z.of_nat (2 + 5 + 1)) 6.
Proof.
  apply (print_strings_first_string 2 (cstr "hello") (cstr "world" ++ [x00]) 168).
  - repeat constructor.
  - simpl. lia.
Defined.

(** Masking with the byte at bit [k] keeps that byte in place. *)
Lemma land_byte_mask (x k : Z) :
  (0 <= k)%Z -> Z.land x (Z.shiftl 255 k) = ((x / 2 ^ k) mod 256 * 2 ^ k)%Z.
Proof.
  intros Hk. change 256%Z with (2 ^ 8)%Z.
  rewrite <- Z.shiftr_div_pow2, <- Z.land_ones, <- Z.shiftl_mul_pow2 by lia.
  change (Z.ones 8) with 255%Z.
  apply Z.bits_inj'. intros n Hn.
  rewrite Z.land_spec, !Z.shiftl_spec by lia.
  destruct (Z.lt_ge_cases n k) as [Hlt|Hge].
  - rewrite !(Z.testbit_neg_r _ (n - k)) by lia. apply andb_false_r.
  - rewrite Z.land_spec, Z.shiftr_spec by lia.
    replace (n - k + k)%Z with n by lia. reflexivity.
Qed.

(** Bytes that do not overlap are joined by addition. *)
Lemma lor_add_disjoint (a b k : Z) :
  (0 <= k)%Z -> (0 <= a < 2 ^ k)%Z -> Z.lor a (b * 2 ^ k) = (a + b * 2 ^ k)%Z.
Proof.
  intros Hk Ha.
  assert (Hdis : Z.land a (b * 2 ^ k) = 0%Z).
  { rewrite <- Z.shiftl_mul_pow2 by lia.
    apply Z.bits_inj'. intros n Hn.
    rewrite Z.land_spec, Z.shiftl_spec, Z.bits_0 by lia.
    destruct (Z.lt_ge_cases n k) as [Hlt|Hge].
    - rewrite (Z.testbit_neg_r _ (n - k)) by lia. apply andb_false_r.
    - destruct (Z.eq_dec a 0%Z) as [->|Hne]; [now rewrite Z.bits_0|].
      rewrite (Z.bits_above_log2 a n); [reflexivity | lia |].
      apply Z.log2_lt_pow2; [lia|].
      apply Z.lt_le_trans with (2 ^ k)%Z; [lia|].
      apply Z.pow_le_mono_r; lia. }
  rewrite Z.add_nocarry_lxor by exact Hdis.
  symmetry. apply Z.lxor_lor. exact Hdis.
Qed.

Lemma bswap_16_bytes (a b : byte) : bswap_16 (le_uint [a; b]) = le_uint [b; a].
Proof.
  unfold bswap_16. cbn [le_uint fold_right].
  pose proof (uchar_nonneg a). pose proof (uchar_lt a).
  pose proof (uchar_nonneg b). pose proof (uchar_lt b).
  set (ua := uchar a) in *. set (ub := uchar b) in *.
  rewrite Z.shiftl_mul_pow2, Z.shiftr_div_pow2 by lia.
  replace ((ua + 256 * (ub + 256 * 0)) / 2 ^ 8)%Z with ub
    by (change (2 ^ 8)%Z with 256%Z; Z.div_mod_to_equations; lia).
  rewrite Z.lor_comm, lor_add_disjoint by (change (2 ^ 8)%Z with 256%Z; lia).
  change 65535%Z with (Z.ones 16). rewrite Z.land_ones by lia.
  change (2 ^ 8)%Z with 256%Z. change (2 ^ 16)%Z with 65536%Z.
  Z.div_mod_to_equations; lia.
Qed.

Lemma bswap_32_bytes (a b c d : byte) :
  bswap_32 (le_uint [a; b; c; d]) = le_uint [d; c; b; a].
Proof.
  unfold bswap_32. cbn [le_uint fold_right].
  byte_bounds uchar_nonneg uchar_lt a. byte_bounds uchar_nonneg uchar_lt b.
  byte_bounds uchar_nonneg uchar_lt c. byte_bounds uchar_nonneg uchar_lt d.
  set (u0 := uchar a) in *. set (u1 := uchar b) in *.
  set (u2 := uchar c) in *. set (u3 := uchar d) in *.
  set (v := (u0 + 256 * (u1 + 256 * (u2 + 256 * (u3 + 256 * 0))))%Z).
  change (Z.land v 255) with (Z.land v (Z.shiftl 255 0)).
  change 4278190080%Z with (Z.shiftl 255 24).
  change 16711680%Z with (Z.shiftl 255 16).
  change 65280%Z with (Z.shiftl 255 8).
  rewrite !land_byte_mask by lia.
  rewrite !Z.shiftr_div_pow2, !Z.shiftl_mul_pow2 by lia.
  change (2 ^ 0)%Z with 1%Z. change (2 ^ 8)%Z with 256%Z.
  change (2 ^ 16)%Z with 65536%Z. change (2 ^ 24)%Z with 16777216%Z.
  replace ((v / 16777216) mod 256)%Z with u3 by (subst v; Z.div_mod_to_equations; lia).
  replace ((v / 65536) mod 256)%Z with u2 by (subst v; Z.div_mod_to_equations; lia).
  replace ((v / 256) mod 256)%Z with u1 by (subst v; Z.div_mod_to_equations; lia).
  replace ((v / 1) mod 256)%Z with u0 by (subst v; Z.div_mod_to_equations; lia).
  replace (u3 * 16777216 / 16777216)%Z with u3 by (Z.div_mod_to_equations; lia).
  replace (u2 * 65536 / 256)%Z with (u2 * 256)%Z by (Z.div_mod_to_equations; lia).
  replace (u1 * 256 * 256)%Z with (u1 * 65536)%Z by lia.
  replace (u0 * 1 * 16777216)%Z with (u0 * 16777216)%Z by lia.
  join_byte lor_add_disjoint 8%Z. join_byte lor_add_disjoint 16%Z.
  join_byte lor_add_disjoint 24%Z.
  lia.
Qed.

Lemma bswap_64_bytes (b0 b1 b2 b3 b4 b5 b6 b7 : byte) :
  bswap_64 (le_uint [b0; b1; b2; b3; b4; b5; b6; b7])
  = le_uint [b7; b6; b5; b4; b3; b2; b1; b0].
Proof.
  unfold bswap_64. cbn [le_uint fold_right].
  byte_bounds uchar_nonneg uchar_lt b0. byte_bounds uchar_nonneg uchar_lt b1.
  byte_bounds uchar_nonneg uchar_lt b2. byte_bounds uchar_nonneg uchar_lt b3.
  byte_bounds uchar_nonneg uchar_lt b4. byte_bounds uchar_nonneg uchar_lt b5.
  byte_bounds uchar_nonneg uchar_lt b6. byte_bounds uchar_nonneg uchar_lt b7.
  set (u0 := uchar b0) in *. set (u1 := uchar b1) in *.
  set (u2 := uchar b2) in *. set (u3 := uchar b3) in *.
  set (u4 := uchar b4) in *. set (u5 := uchar b5) in *.
  set (u6 := uchar b6) in *. set (u7 := uchar b7) in *.
  match goal with |- context [Z.land ?x 255] => set (v := x) end.
  change (Z.land v 255) with (Z.land v (Z.shiftl 255 0)).
  change 18374686479671623680%Z with (Z.shiftl 255 56).
  change 71776119061217280%Z with (Z.shiftl 255 48).
  change 280375465082880%Z with (Z.shiftl 255 40).
  change 1095216660480%Z with (Z.shiftl 255 32).
  change 4278190080%Z with (Z.shiftl 255 24).
  change 16711680%Z with (Z.shiftl 255 16).
  change 65280%Z with (Z.shiftl 255 8).
  rewrite !land_byte_mask by lia.
  rewrite !Z.shiftr_div_pow2, !Z.shiftl_mul_pow2 by lia.
  byte_of v 56%Z u7. byte_of v 48%Z u6. byte_of v 40%Z u5. byte_of v 32%Z u4.
  byte_of v 24%Z u3. byte_of v 16%Z u2. byte_of v 8%Z u1. byte_of v 0%Z u0.
  replace (u7 * 2 ^ 56 / 2 ^ 56)%Z with u7 by (pow_lits; Z.div_mod_to_equations; lia).
  replace (u6 * 2 ^ 48 / 2 ^ 40)%Z with (u6 * 2 ^ 8)%Z
    by (pow_lits; Z.div_mod_to_equations; lia).
  replace (u5 * 2 ^ 40 / 2 ^ 24)%Z with (u5 * 2 ^ 16)%Z
    by (pow_lits; Z.div_mod_to_equations; lia).
  replace (u4 * 2 ^ 32 / 2 ^ 8)%Z with (u4 * 2 ^ 24)%Z
    by (pow_lits; Z.div_mod_to_equations; lia).
  replace (u3 * 2 ^ 24 * 2 ^ 8)%Z with (u3 * 2 ^ 32)%Z by (pow_lits; lia).
  replace (u2 * 2 ^ 16 * 2 ^ 24)%Z with (u2 * 2 ^ 40)%Z by (pow_lits; lia).
  replace (u1 * 2 ^ 8 * 2 ^ 40)%Z with (u1 * 2 ^ 48)%Z by (pow_lits; lia).
  replace (u0 * 2 ^ 0 * 2 ^ 56)%Z with (u0 * 2 ^ 56)%Z by (pow_lits; lia).
  join_byte lor_add_disjoint 8%Z. join_byte lor_add_disjoint 16%Z.
  join_byte lor_add_disjoint 24%Z. join_byte lor_add_disjoint 32%Z.
  join_byte lor_add_disjoint 40%Z. join_byte lor_add_disjoint 48%Z.
  join_byte lor_add_disjoint 56%Z.
  pow_lits. lia.
Qed.

Lemma e32_set_e32 (w : Word) (v : Z) : e32 (set_e32 w v) = (v mod 2 ^ 32)%Z.
Proof.
  unfold e32, set_e32, e64, e32. cbn [w_bits]. pow_lits.
  Z.div_mod_to_equations. lia.
Qed.

Lemma e64_set_e64 (w : Word) (v : Z) : e64 (set_e64 w v) = (v mod 2 ^ 64)%Z.
Proof. unfold e64, set_e64. cbn [w_bits]. apply Z.mod_mod. lia. Qed.

(** X11.  On the little-endian host, swap_data_16, swap_data_32 and swap_data_64
    applied to the value read from 2, 4 or 8 bytes of the file give, when
    the endianness byte is 2 (big-endian), the number those bytes spell most
    significant byte first, and for every other endianness byte the value
    unchanged. *)
Theorem swap_data_reads_file_order (e : Z) (b0 b1 b2 b3 b4 b5 b6 b7 : byte) :
  swap_data_16 e (le_uint [b0; b1])
  = (if (e =? 2)%Z then le_uint [b1; b0] else le_uint [b0; b1]) /\
  swap_data_32 e (le_uint [b0; b1; b2; b3])
  = (if (e =? 2)%Z then le_uint [b3; b2; b1; b0] else le_uint [b0; b1; b2; b3]) /\
  swap_data_64 e (le_uint [b0; b1; b2; b3; b4; b5; b6; b7])
  = (if (e =? 2)%Z then le_uint [b7; b6; b5; b4; b3; b2; b1; b0]
     else le_uint [b0; b1; b2; b3; b4; b5; b6; b7]).
Proof.
  unfold swap_data_16, swap_data_32, swap_data_64, IS_BIG_ENDIAN.
  rewrite bswap_16_bytes, bswap_32_bytes, bswap_64_bytes.
  destruct (e =? 2)%Z; auto.
Qed.

(** X12.  A field stored in a Word and passed through swap_data_word and
    word_to_long: for class 1, four bytes stored in e32 give the number they
    spell in the byte order of the file, whatever the other half of the
    union held; for any other class, eight bytes stored in e64 give that
    number converted to long. *)
Theorem elf_word_decoding (e cl : Z) (w : Word) :
  (forall a b c d : byte,
     word_to_long 1 (swap_data_word e 1 (set_e32 w (le_uint [a; b; c; d])))
     = if (e =? 2)%Z then le_uint [d; c; b; a] else le_uint [a; b; c; d]) /\
  (cl <> 1%Z ->
   forall b0 b1 b2 b3 b4 b5 b6 b7 : byte,
     word_to_long cl
       (swap_data_word e cl (set_e64 w (le_uint [b0; b1; b2; b3; b4; b5; b6; b7])))
     = to_long (if (e =? 2)%Z then le_uint [b7; b6; b5; b4; b3; b2; b1; b0]
                else le_uint [b0; b1; b2; b3; b4; b5; b6; b7])).
Proof.
  split.
  - intros a b c d. unfold word_to_long, swap_data_word.
    change (IS_32_BITS 1) with true. cbv iota.
    rewrite !e32_set_e32.
    pose proof (le_uint_nonneg [a; b; c; d]). pose proof (le_uint_lt [a; b; c; d]).
    pose proof (le_uint_nonneg [d; c; b; a]). pose proof (le_uint_lt [d; c; b; a]).
    cbn [length] in *.
    rewrite (Z.mod_small (le_uint [a; b; c; d])) by (pow_lits; lia).
    unfold swap_data_32, IS_BIG_ENDIAN. rewrite bswap_32_bytes.
    destruct (e =? 2)%Z; apply Z.mod_small; pow_lits; lia.
  - intros Hcl b0 b1 b2 b3 b4 b5 b6 b7. unfold word_to_long, swap_data_word, IS_32_BITS.
    destruct (Z.eqb_spec cl 1); [contradiction|].
    rewrite !e64_set_e64.
    set (bs := [b0; b1; b2; b3; b4; b5; b6; b7]).
    set (sb := [b7; b6; b5; b4; b3; b2; b1; b0]).
    pose proof (le_uint_nonneg bs). pose proof (le_uint_lt bs).
    pose proof (le_uint_nonneg sb). pose proof (le_uint_lt sb).
    cbn [length bs sb] in *.
    rewrite (Z.mod_small (le_uint bs)) by (pow_lits; lia).
    unfold swap_data_64, IS_BIG_ENDIAN. unfold bs at 1. rewrite bswap_64_bytes. fold bs sb.
    f_equal. destruct (e =? 2)%Z; apply Z.mod_small; pow_lits; lia.
Qed.

Lemma elf_word_decoding_witness :
  word_to_long 2
    (swap_data_word 2 2 (set_e64 (mkWord 0) (le_uint [x00; x00; x00; x00; x00; x00; x01; x02])))
  = to_long (le_uint [x02; x01; x00; x00; x00; x00; x00; x00]).
Proof.
  apply (proj2 (elf_word_decoding 2 2 (mkWord 0)) ltac:(discriminate)
           x00 x00 x00 x00 x00 x00 x01 x02).
Defined.

Lemma fread_at (f : FILE) (p size : nat) :
  f_pos f = Z.of_nat p ->
  fread f size 1
  = (take size (drop p (f_bytes f)),
     length (take size (drop p (f_bytes f))) / size,
     mkFILE (f_bytes f) (Z.of_nat (p + length (take size (drop p (f_bytes f)))))).
Proof.
  intros Hp. unfold fread. rewrite Hp, Nat2Z.id, Nat.mul_1_r.
  now rewrite Nat2Z.inj_add.
Qed.

(** A write at the end of a stream appends. *)
Lemma fwrite_append (f : FILE) (src : list byte) (n : nat) :
  f_pos f = Z.of_nat (length (f_bytes f)) -> 0 < n -> length src = n ->
  fwrite f src n 1
  = (1, mkFILE (f_bytes f ++ src) (Z.of_nat (length (f_bytes f ++ src)))).
Proof.
  intros Hp Hn Hsrc. unfold fwrite. rewrite Nat.mul_1_r.
  destruct (Nat.eqb_spec n 0); [lia|].
  rewrite Hp, Nat2Z.id, take_ge, Nat.sub_diag by lia.
  rewrite (take_ge src), drop_ge by lia. simpl. rewrite app_nil_r.
  now rewrite length_app, Nat2Z.inj_add, Hsrc.
Qed.

(** A write inside a stream replaces the bytes it covers. *)
Lemma fwrite_inside (f : FILE) (src : list byte) (p n : nat) :
  f_pos f = Z.of_nat p -> 0 < n -> length src = n -> p + n <= length (f_bytes f) ->
  fwrite f src n 1
  = (1, mkFILE (take p (f_bytes f) ++ src ++ drop (p + n) (f_bytes f)) (Z.of_nat (p + n))).
Proof.
  intros Hp Hn Hsrc Hin. unfold fwrite. rewrite Nat.mul_1_r.
  destruct (Nat.eqb_spec n 0); [lia|].
  rewrite Hp, Nat2Z.id, (take_ge src) by lia.
  replace (p - length (f_bytes f)) with 0 by lia. simpl.
  now rewrite Nat2Z.inj_add.
Qed.

(** What a copy of [n] bytes from position [p] does when [n] is not
    negative: it succeeds when it has something to copy and the file holds
    it, and then has appended those bytes. *)
Lemma copy_all_spec (fuel : nat) (in_ out : FILE) (i limit : Z) (p n : nat) :
  f_pos in_ = Z.of_nat p ->
  f_pos out = Z.of_nat (length (f_bytes out)) ->
  (limit - i = Z.of_nat n)%Z -> n <= fuel ->
  exists code in' out',
    copy_all fuel in_ out i limit = Some (code, in', out') /\
    f_bytes in' = f_bytes in_ /\
    if (0 <? n) && (p + n <=? length (f_bytes in_))
    then code = 1%Z /\ f_pos in' = Z.of_nat (p + n) /\
         out' = mkFILE (f_bytes out ++ take n (drop p (f_bytes in_)))
                  (Z.of_nat (length (f_bytes out) + n))
    else code = 0%Z /\ (n = 0 -> out' = out).
Proof.
  revert in_ out i p n.
  assert (Hrest : forall in_ out i p n,
    f_pos in_ = Z.of_nat p ->
    f_pos out = Z.of_nat (length (f_bytes out)) ->
    (limit - i = Z.of_nat n)%Z -> n <= 1024 ->
    exists code in' out',
      copy_rest in_ out (limit - i) = Some (code, in', out') /\
      f_bytes in' = f_bytes in_ /\
      if (0 <? n) && (p + n <=? length (f_bytes in_))
      then code = 1%Z /\ f_pos in' = Z.of_nat (p + n) /\
           out' = mkFILE (f_bytes out ++ take n (drop p (f_bytes in_)))
                    (Z.of_nat (length (f_bytes out) + n))
      else code = 0%Z /\ (n = 0 -> out' = out)).
  { intros in_ out i p n Hp Ho Hl Hn. unfold copy_rest.
    rewrite Hl. unfold wrap_size.
    rewrite Z.mod_small, Nat2Z.id by (change (2 ^ 64)%Z with 18446744073709551616%Z; lia).
    rewrite (fread_at in_ p n Hp).
    set (got := take n (drop p (f_bytes in_))).
    assert (Hgot : length got = Nat.min n (length (f_bytes in_) - p))
      by (unfold got; now rewrite length_take, length_drop).
    destruct (Nat.ltb_spec 1024 (length got)); [lia|].
    destruct (Nat.ltb_spec 0 n) as [Hpos|Hzero]; cbn [andb].
    - destruct (Nat.leb_spec (p + n) (length (f_bytes in_))) as [Hfit|Hshort].
      + assert (Hfull : length got = n) by lia.
        rewrite Hfull, Nat.div_same by lia. cbn [Nat.eqb negb].
        rewrite (fwrite_append out got n Ho Hpos Hfull). cbn [Nat.eqb negb].
        eexists _, _, _. split; [reflexivity|]. split; [reflexivity|].
        split; [reflexivity|]. split; [reflexivity|].
        now rewrite length_app, Hfull.
      + rewrite Nat.div_small by lia. cbn [Nat.eqb negb].
        eexists _, _, _. split; [reflexivity|]. split; [reflexivity|].
        split; [reflexivity | intros; lia].
    - assert (n = 0) as -> by lia. cbn [Nat.div Nat.eqb negb]. simpl.
      eexists _, _, _. split; [reflexivity|]. split; [reflexivity|]. auto. }
  induction fuel as [|fuel IH]; intros in_ out i p n Hp Ho Hl Hn.
  - unfold copy_all. cbn [copy_chunks negb].
    apply (Hrest in_ out i p n Hp Ho Hl). lia.
  - unfold copy_all. cbn [copy_chunks].
    destruct (Z.ltb_spec (i + 1024) limit) as [Hmore|Hlast].
    + rewrite (fread_at in_ p 1024 Hp).
      set (got := take 1024 (drop p (f_bytes in_))).
      assert (Hgot : length got = Nat.min 1024 (length (f_bytes in_) - p))
        by (unfold got; now rewrite length_take, length_drop).
      destruct (Nat.leb_spec (p + 1024) (length (f_bytes in_))) as [Hfit|Hshort].
      * assert (Hfull : length got = 1024) by lia.
        rewrite Hfull. change (1024 / 1024) with 1. cbn [Nat.eqb negb].
        rewrite (fwrite_append out got 1024 Ho ltac:(lia) Hfull). cbn [Nat.eqb negb].
        destruct (IH (mkFILE (f_bytes in_) (Z.of_nat (p + 1024)))
                    (mkFILE (f_bytes out ++ got) (Z.of_nat (length (f_bytes out ++ got))))
                    (i + 1024)%Z (p + 1024) (n - 1024))
          as (code & in' & out' & Hrun & Hbytes & Hres);
          [reflexivity | reflexivity | lia | lia |].
        unfold copy_all in Hrun. rewrite Hrun.
        exists code, in', out'. split; [reflexivity|]. split; [exact Hbytes|].
        cbn [f_bytes] in Hres.
        destruct (Nat.ltb_spec 0 n); [|lia].
        destruct (Nat.ltb_spec 0 (n - 1024)); [|lia]. cbn [andb] in *.
        destruct (Nat.leb_spec (p + n) (length (f_bytes in_)));
          destruct (Nat.leb_spec (p + 1024 + (n - 1024)) (length (f_bytes in_)));
          try lia.
        destruct Hres as (Hc & Hpos & Hout). split; [exact Hc|].
        split; [rewrite Hpos; f_equal; lia|].
        rewrite Hout. f_equal.
        -- rewrite <- app_assoc. f_equal. unfold got.
           rewrite <- drop_drop, take_take_drop. f_equal. lia.
        -- rewrite length_app, Hfull. f_equal. lia.
      * rewrite Nat.div_small by lia. cbn [Nat.eqb negb].
        eexists _, _, _. split; [reflexivity|]. split; [reflexivity|].
        destruct (Nat.ltb_spec 0 n); [|lia].
        destruct (Nat.leb_spec (p + n) (length (f_bytes in_))); [lia|].
        split; [reflexivity | intros; lia].
    + cbn [negb]. apply (Hrest in_ out i p n Hp Ho Hl). lia.
Qed.

(** X13.  write_input_to_output_until with an offset n >= 0, an input stream at
    position p and an output stream at its end never overruns its buffer and
    returns 1 exactly when n > 0 and the input holds n more bytes; it has
    then appended exactly those n bytes to the output and left the input at
    p + n. With n = 0 it returns 0: the final fread of zero bytes reads no
    item. *)
Theorem write_input_to_output_until_copies (in_ out : FILE) (p n : nat) :
  f_pos in_ = Z.of_nat p ->
  f_pos out = Z.of_nat (length (f_bytes out)) ->
  exists code in' out',
    write_input_to_output_until in_ out (Z.of_nat n) = Some (code, in', out') /\
    f_bytes in' = f_bytes in_ /\
    (code = 1%Z \/ code = 0%Z) /\
    (code = 1%Z <-> 0 < n /\ p + n <= length (f_bytes in_)) /\
    (code = 1%Z ->
     f_pos in' = Z.of_nat (p + n) /\
     f_bytes out' = f_bytes out ++ take n (drop p (f_bytes in_)) /\
     f_pos out' = Z.of_nat (length (f_bytes out'))).
Proof.
  intros Hp Ho. unfold write_input_to_output_until.
  destruct (copy_all_spec (Z.to_nat (Z.of_nat n)) in_ out 0 (Z.of_nat n) p n Hp Ho)
    as (code & in' & out' & Hrun & Hbytes & Hres); [lia | lia |].
  exists code, in', out'. split; [exact Hrun|]. split; [exact Hbytes|].
  destruct (Nat.ltb_spec 0 n); destruct (Nat.leb_spec (p + n) (length (f_bytes in_)));
    cbn [andb] in Hres.
  2-4: destruct Hres as [-> _]; split; [auto|];
    split; [split; [discriminate | lia] | discriminate].
  destruct Hres as (-> & Hpos & ->). cbn [f_bytes f_pos].
  split; [auto|]. split; [split; auto|]. intros _.
  split; [exact Hpos|]. split; [reflexivity|].
  rewrite length_app, length_take, length_drop. f_equal. lia.
Qed.

Lemma write_input_to_output_until_copies_witness :
  exists code in' out',
    write_input_to_output_until (mkFILE hello_world 0) (mkFILE [] 0) (Z.of_nat 6)
    = Some (code, in', out') /\
    f_bytes in' = hello_world /\
    (code = 1%Z \/ code = 0%Z) /\
    (code = 1%Z <-> 0 < 6 /\ 0 + 6 <= length hello_world) /\
    (code = 1%Z ->
     f_pos in' = Z.of_nat (0 + 6) /\
     f_bytes out' = [] ++ take 6 (drop 0 hello_world) /\
     f_pos out' = Z.of_nat (length (f_bytes out'))).
Proof.
  apply (write_input_to_output_until_copies (mkFILE hello_world 0) (mkFILE [] 0) 0 6);
    reflexivity.
Defined.

Lemma copy_chunks_stop (fuel : nat) (in_ out : FILE) (i limit : Z) :
  (limit <= i + 1024)%Z -> copy_chunks fuel in_ out i limit = (true, in_, out, i).
Proof.
  intros H. destruct fuel; [reflexivity|]. cbn [copy_chunks].
  destruct (Z.ltb_spec (i + 1024) limit); [lia | reflexivity].
Qed.

(** A stream that stands beyond the end of its file has nothing to give. *)
Lemma copy_all_beyond (fuel : nat) (in_ out : FILE) (p : nat) :
  f_pos in_ = Z.of_nat p -> length (f_bytes in_) < p ->
  exists in',
    copy_all fuel in_ out (f_pos in_) (Z.of_nat (length (f_bytes in_))) = Some (0%Z, in', out) /\
    f_bytes in' = f_bytes in_.
Proof.
  intros Hp Hbeyond. unfold copy_all. rewrite copy_chunks_stop by lia. cbn [negb].
  unfold copy_rest. rewrite (fread_at in_ p _ Hp).
  rewrite drop_ge, take_nil by lia. cbn [length].
  rewrite Nat.Div0.div_0_l. cbn [Nat.ltb Nat.leb Nat.eqb negb].
  eexists. split; reflexivity.
Qed.

(** X14.  write_input_to_output_end with an input stream at position p and an
    output stream at its end never overruns its buffer and returns 1 exactly
    when at least one byte of the input lies after p; it has then appended
    exactly the bytes from p to the end of the input. When the input is
    already at its end it returns 0. *)
Theorem write_input_to_output_end_copies (in_ out : FILE) (p : nat) :
  f_pos in_ = Z.of_nat p ->
  f_pos out = Z.of_nat (length (f_bytes out)) ->
  exists code in' out',
    write_input_to_output_end in_ out = Some (code, in', out') /\
    f_bytes in' = f_bytes in_ /\
    (code = 1%Z \/ code = 0%Z) /\
    (code = 1%Z <-> p < length (f_bytes in_)) /\
    (code = 1%Z -> f_bytes out' = f_bytes out ++ drop p (f_bytes in_)).
Proof.
  intros Hp Ho. unfold write_input_to_output_end.
  destruct (Nat.le_gt_cases p (length (f_bytes in_))) as [Hin|Hbeyond].
  - destruct (copy_all_spec (Z.to_nat (Z.of_nat (length (f_bytes in_)))) in_ out (f_pos in_)
                (Z.of_nat (length (f_bytes in_))) p (length (f_bytes in_) - p) Hp Ho)
      as (code & in' & out' & Hrun & Hbytes & Hres); [lia | lia |].
    exists code, in', out'. split; [exact Hrun|]. split; [exact Hbytes|].
    destruct (Nat.ltb_spec 0 (length (f_bytes in_) - p));
      destruct (Nat.leb_spec (p + (length (f_bytes in_) - p)) (length (f_bytes in_)));
      cbn [andb] in Hres; try lia.
    destruct Hres as (-> & Hpos & ->). cbn [f_bytes].
    split; [auto|]. split; [split; [lia | auto]|]. intros _.
    f_equal. apply take_ge. rewrite length_drop. lia.
  - destruct (copy_all_beyond (Z.to_nat (Z.of_nat (length (f_bytes in_)))) in_ out p Hp Hbeyond)
      as (in' & Hrun & Hbytes).
    exists 0%Z, in', out. split; [exact Hrun|]. split; [exact Hbytes|].
    split; [auto|]. split; [split; [discriminate | lia] | discriminate].
Qed.

Lemma write_input_to_output_end_copies_witness :
  exists code in' out',
    write_input_to_output_end (mkFILE hello_world 6) (mkFILE [] 0) = Some (code, in', out') /\
    f_bytes in' = hello_world /\
    (code = 1%Z \/ code = 0%Z) /\
    (code = 1%Z <-> 6 < length hello_world) /\
    (code = 1%Z -> f_bytes out' = [] ++ drop 6 hello_world).
Proof.
  apply (write_input_to_output_end_copies (mkFILE hello_world 6) (mkFILE [] 0) 6);
    reflexivity.
Defined.

(** X15.  write_input_to_output_until called with a negative offset (a long) on
    an input of less than 2^63 bytes that holds more than 1024 bytes after
    its position has undefined behaviour: the length becomes a huge size_t
    and the final fread stores the rest of the file in the 1024-byte buffer. *)
Theorem write_input_to_output_until_negative_offset (in_ out : FILE) (offset : Z)
    (p : nat) :
  f_pos in_ = Z.of_nat p ->
  (- 2 ^ 63 <= offset < 0)%Z ->
  (Z.of_nat (length (f_bytes in_)) < 2 ^ 63)%Z ->
  p + 1024 < length (f_bytes in_) ->
  write_input_to_output_until in_ out offset = None.
Proof.
  intros Hp Hoff Hsize Hlong. unfold write_input_to_output_until, copy_all.
  rewrite copy_chunks_stop by lia. cbn [negb].
  unfold copy_rest. rewrite (fread_at in_ p _ Hp).
  rewrite take_ge.
  - rewrite length_drop.
    destruct (Nat.ltb_spec 1024 (length (f_bytes in_) - p)); [reflexivity | lia].
  - rewrite length_drop. unfold wrap_size.
    change (2 ^ 63)%Z with 9223372036854775808%Z in *.
    change (2 ^ 64)%Z with 18446744073709551616%Z.
    assert ((offset - 0) mod 18446744073709551616 = offset + 18446744073709551616)%Z
      by (Z.div_mod_to_equations; lia).
    lia.
Qed.

Lemma write_input_to_output_until_negative_offset_witness :
  write_input_to_output_until (mkFILE (replicate 1025 x00) 0) (mkFILE [] 0) (-1) = None.
Proof.
  apply (write_input_to_output_until_negative_offset
           (mkFILE (replicate 1025 x00) 0) (mkFILE [] 0) (-1) 0).
  - reflexivity.
  - lia.
  - cbn [f_bytes]. rewrite length_replicate. lia.
  - cbn [f_bytes]. rewrite length_replicate. lia.
Defined.

(** ** The codes the navigators return with *)

Lemma returns_only_bind {A B : Type} (P : Z -> Prop) (U : Prop) (m : flow A)
    (k : A -> flow B) :
  returns_only P U m -> (forall a, returns_only P U (k a)) ->
  returns_only P U (flow_bind m k).
Proof. destruct m; simpl; auto. Qed.

Lemma returns_only_seek {U : Prop} (P : Z -> Prop) (code : Z) (r : option FILE) :
  P code -> returns_only P U (seek_or code r).
Proof. destruct r; simpl; auto. Qed.

Lemma returns_only_read {U : Prop} (P : Z -> Prop) (code : Z) (f : FILE) (size nmemb : nat) :
  P code -> returns_only P U (read_or code f size nmemb).
Proof.
  intros H. unfold read_or. destruct (fread f size nmemb) as [[g n] f'].
  destruct (n =? nmemb); simpl; auto.
Qed.

Lemma returns_only_advance {U : Prop} (P : Z -> Prop) (code : Z) (f : FILE) (size : nat)
    (offset : Z) :
  P code -> returns_only P U (advance_or code f size offset).
Proof.
  intros H. unfold advance_or. destruct (advance_and_read f size offset) as [[ok g] f'].
  destruct (ok =? 0)%Z; simpl; auto.
Qed.

Lemma pe_sections_loop_codes (P : Z -> Prop) (fuel : nat) (in_ : FILE) (section : list byte)
    (a l : Z) :
  P 8%Z -> returns_only P False (pe_sections_loop fuel in_ section a l).
Proof.
  intros H8. revert in_. induction fuel as [|fuel IH]; intros in_; cbn [pe_sections_loop].
  - exact I.
  - destruct (fread in_ 1 8) as [[name n] in1].
    destruct ((n =? 8) && (strncmp section name 8 =? 0)%Z).
    + apply returns_only_bind; [now apply returns_only_advance|]. intros [lenBytes in2].
      apply returns_only_bind; [now apply returns_only_read|]. intros [addrBytes in3].
      exact I.
    + apply returns_only_bind; [now apply returns_only_seek|]. intros in2. apply IH.
Qed.

Lemma pe_find_strings_section_codes (in_ : FILE) (section : list byte) :
  returns_only (fun c => c = 4 \/ c = 5 \/ c = 6 \/ c = 8 \/ c = 9)%Z False
    (pe_find_strings_section in_ section).
Proof.
  unfold pe_find_strings_section.
  apply returns_only_bind; [apply returns_only_seek; auto|]. intros in1.
  apply returns_only_bind; [apply returns_only_read; auto|]. intros [b in2].
  apply returns_only_bind; [apply returns_only_seek; auto|]. intros in3.
  apply returns_only_bind; [apply returns_only_read; auto|]. intros [signature in4].
  destruct (negb _); [simpl; auto|].
  apply returns_only_bind; [apply returns_only_advance; auto|]. intros [b5 in5].
  apply returns_only_bind; [apply returns_only_advance; auto|]. intros [b6 in6].
  apply returns_only_bind; [apply returns_only_seek; auto|]. intros in7.
  apply returns_only_bind; [apply pe_sections_loop_codes; auto 6|]. intros [a l].
  destruct (a =? 0)%Z; simpl; auto 6.
Qed.

Lemma le_uint_take_lt (n : nat) (bs : list byte) : (le_uint (take n bs) < 256 ^ Z.of_nat n)%Z.
Proof.
  pose proof (le_uint_lt (take n bs)) as H.
  assert (length (take n bs) <= n) by (rewrite length_take; lia).
  eapply Z.lt_le_trans; [exact H|]. apply Z.pow_le_mono_r; lia.
Qed.

(** X16.  For every file and section name pe_find_strings_section has defined
    behaviour and either returns one of the codes 4, 5, 6, 8, 9, or returns
    0 with an address in 1 .. 2^32 - 1 and a length in 0 .. 2^32 - 1. *)
Theorem pe_navigator_results (in_ : FILE) (section : list byte) :
  match pe_find_strings_section in_ section with
  | Go (address, len) => (0 < address < 2 ^ 32)%Z /\ (0 <= len < 2 ^ 32)%Z
  | Return c => (c = 4 \/ c = 5 \/ c = 6 \/ c = 8 \/ c = 9)%Z
  | Undefined => False
  end.
Proof.
  pose proof (pe_find_strings_section_codes in_ section) as H.
  destruct (pe_find_strings_section in_ section) as [[a l]|c|] eqn:E; [|exact H..].
  apply pe_find_strings_section_Go in E as (Hpos & p & _ & _ & -> & ->).
  pose proof (le_uint_take_lt 4 (drop (Z.to_nat (p + 16)) (f_bytes in_))).
  pose proof (le_uint_take_lt 4 (drop (Z.to_nat (p + 20)) (f_bytes in_))).
  pose proof (le_uint_nonneg (take 4 (drop (Z.to_nat (p + 16)) (f_bytes in_)))).
  change (256 ^ Z.of_nat 4)%Z with (2 ^ 32)%Z in *. lia.
Qed.

Lemma returns_only_advance_word {U : Prop} (P : Z -> Prop) (u : indeterminate) (code : Z)
    (k : nat) (f : FILE) (ptr : Word) (class offset : Z) :
  P code -> returns_only P U (advance_word_or u code k f ptr class offset).
Proof.
  intros H. unfold advance_word_or.
  destruct (advance_and_read_word _ f ptr class offset) as [[ok w] f'].
  destruct (ok =? 0)%Z; simpl; auto.
Qed.

Lemma returns_only_read_word {U : Prop} (P : Z -> Prop) (u : indeterminate) (code : Z)
    (k : nat) (f : FILE) (ptr : Word) (class : Z) :
  P code -> returns_only P U (read_word_or u code k f ptr class).
Proof.
  intros H. unfold read_word_or. destruct (read_word _ f ptr class) as [[n w] f'].
  destruct (n =? 1)%Z; simpl; auto.
Qed.

Lemma elf_sections_loop_codes (P : Z -> Prop) (u : indeterminate) (section : list byte)
    (fuel : nat) (in_ : FILE) (attrs : ElfAttrs) (shstrtab : list byte) (size : Z)
    (a l : Word) :
  P 8%Z -> returns_only P True (elf_sections_loop u section fuel in_ attrs shstrtab size a l).
Proof.
  intros H8. revert in_. induction fuel as [|fuel IH]; intros in_; cbn [elf_sections_loop].
  - exact I.
  - assert (Hnext : forall f,
      returns_only P True
        (flow_bind (seek_or 8 (fseek_cur f (to_long (size - 4))))
           (fun in2 => elf_sections_loop u section fuel in2 attrs shstrtab size a l))).
    { intros f. apply returns_only_bind; [now apply returns_only_seek | apply IH]. }
    destruct (fread in_ 4 1) as [[b n] in1].
    destruct (n =? 1); [|apply Hnext].
    destruct (strcmp_at section shstrtab _) as [cmp|]; [|exact I].
    destruct (cmp =? 0)%Z; [|apply Hnext].
    apply returns_only_bind; [now apply returns_only_advance_word|]. intros [w in2].
    apply returns_only_bind; [now apply returns_only_read_word|]. intros [w3 in3].
    exact I.
Qed.

Lemma elf_find_strings_section_codes (u : indeterminate) (al : allocator)
    (section : list byte) (in_ : FILE) :
  returns_only (fun c => c = 5 \/ c = 6 \/ c = 7 \/ c = 8 \/ c = 9)%Z True
    (elf_find_strings_section u al section in_).
Proof.
  unfold elf_find_strings_section.
  apply returns_only_bind; [apply returns_only_read; auto|]. intros [b1 in1].
  apply returns_only_bind; [apply returns_only_read; auto|]. intros [b2 in2].
  apply returns_only_bind; [apply returns_only_advance_word; auto|]. intros [w3 in3].
  apply returns_only_bind; [apply returns_only_advance; auto|]. intros [b4 in4].
  apply returns_only_bind; [apply returns_only_read; auto|]. intros [b5 in5].
  apply returns_only_bind; [apply returns_only_read; auto|]. intros [b6 in6].
  apply returns_only_bind; [apply returns_only_seek; auto|]. intros in7.
  destruct (INT_MAX <? _)%Z; [exact I|].
  apply returns_only_bind; [apply returns_only_seek; auto|]. intros in8.
  apply returns_only_bind; [apply returns_only_advance_word; auto|]. intros [w9 in9].
  apply returns_only_bind; [apply returns_only_read_word; auto|]. intros [w10 in10].
  apply returns_only_bind; [apply returns_only_seek; auto|]. intros in11.
  destruct (negb _); [simpl; auto|].
  apply returns_only_bind; [apply returns_only_read; auto|]. intros [shstrtab in12].
  apply returns_only_bind; [apply returns_only_seek; auto|]. intros in13.
  apply returns_only_bind; [apply elf_sections_loop_codes; auto 6|]. intros [a l].
  destruct (e64 a =? 0)%Z; simpl; auto 6.
Qed.

(** ** The entry points *)

Lemma scan_strtab_length (al : allocator) (search replace : list byte) (exact : Z)
    (strtab out : list byte) (ret : Z) :
  scan_strtab al search replace exact strtab = Done (ret, out) ->
  length out = length strtab.
Proof.
  unfold scan_strtab, search_and_replace, search_and_replace_exact.
  destruct (exact =? 0)%Z; intros H;
    apply bind_out_Done in H as (st & Hst & H); injection H as _ <-.
  - apply (for_loop_length _ (sr_body_length al search replace (length strtab))) in Hst
      as [Hlen _]; [exact Hlen | simpl; lia].
  - apply (for_loop_length _ (sre_body_length search replace (length strtab))) in Hst
      as [Hlen _]; [exact Hlen | simpl; lia].
Qed.

Lemma fread_exact (f : FILE) (p n : nat) :
  f_pos f = Z.of_nat p -> 0 < n -> p + n <= length (f_bytes f) ->
  fread f n 1 = (take n (drop p (f_bytes f)), 1, mkFILE (f_bytes f) (Z.of_nat (p + n))).
Proof.
  intros Hp Hn Hfit. rewrite (fread_at f p n Hp).
  assert (Hlen : length (take n (drop p (f_bytes f))) = n)
    by (rewrite length_take, length_drop; lia).
  now rewrite Hlen, Nat.div_same by lia.
Qed.

(** A read of one item gives it only if the file holds all of it. *)
Lemma fread_one_inv (f f' : FILE) (p n : nat) (got : list byte) :
  f_pos f = Z.of_nat p -> fread f n 1 = (got, 1, f') ->
  0 < n /\ p + n <= length (f_bytes f) /\ got = take n (drop p (f_bytes f)) /\
  f' = mkFILE (f_bytes f) (Z.of_nat (p + n)).
Proof.
  intros Hp H. rewrite (fread_at f p n Hp) in H.
  injection H as <- Hdiv <-.
  set (got := take n (drop p (f_bytes f))) in *.
  assert (Hgot : length got = Nat.min n (length (f_bytes f) - p))
    by (unfold got; now rewrite length_take, length_drop).
  destruct (Nat.eq_dec n 0) as [->|Hn]; [discriminate|].
  destruct (Nat.le_gt_cases (p + n) (length (f_bytes f))) as [Hfit|Hshort].
  - repeat split; try lia. f_equal. f_equal. lia.
  - rewrite Nat.div_small in Hdiv by lia. discriminate.
Qed.

Lemma fseek_set_at (f : FILE) (q : nat) :
  fseek_set f (Z.of_nat q) = Some (mkFILE (f_bytes f) (Z.of_nat q)).
Proof. unfold fseek_set. destruct (Z.ltb_spec (Z.of_nat q) 0); [lia | reflexivity]. Qed.

(** What the shared part does with a section that lies in the file. *)
Lemma process_section_runs (al : allocator) (in_ : FILE) (out : option FILE)
    (search replace : list byte) (exact : Z) (q len : nat) (ret : Z) (strtab' : list byte) :
  0 < len -> q + len <= length (f_bytes in_) ->
  grants al len = true ->
  scan_strtab al search replace exact (take len (drop q (f_bytes in_))) = Done (ret, strtab') ->
  (forall o, out = Some o -> 0 < q /\ f_pos o = Z.of_nat (length (f_bytes o))) ->
  finish (process_section al in_ out search (Some replace) exact (Z.of_nat q) len)
  = Some
      match out with
      | None => mkResult ret (patched (f_bytes in_) strtab' q len) None []
      | Some o =>
          if q + len =? length (f_bytes in_)
          then mkResult 14 (f_bytes in_) (Some (f_bytes o ++ take q (f_bytes in_) ++ strtab')) []
          else mkResult ret (f_bytes in_)
                 (Some (f_bytes o ++ patched (f_bytes in_) strtab' q len)) []
      end.
Proof.
  intros Hlen Hfit Hgrant Hscan Hout.
  assert (Hs : length strtab' = len).
  { rewrite (scan_strtab_length _ _ _ _ _ _ _ Hscan), length_take, length_drop. lia. }
  unfold process_section.
  destruct out as [o|].
  - destruct (Hout o eq_refl) as [Hq Ho].
    change (fseek_set in_ 0) with (fseek_set in_ (Z.of_nat 0)).
    rewrite (fseek_set_at in_ 0). cbv iota.
    unfold write_input_to_output_until.
    destruct (copy_all_spec (Z.to_nat (Z.of_nat q)) (mkFILE (f_bytes in_) (Z.of_nat 0)) o 0
                (Z.of_nat q) 0 q eq_refl Ho)
      as (code & in' & o1 & Hrun & _ & Hres); [lia | lia |].
    rewrite Hrun. cbn [f_bytes] in Hres.
    destruct (Nat.ltb_spec 0 q); [|lia].
    destruct (Nat.leb_spec (0 + q) (length (f_bytes in_))); [|lia].
    cbn [andb] in Hres. destruct Hres as (-> & _ & ->).
    cbn [Z.eqb step_bind option_map f_bytes].
    rewrite (fseek_set_at in_ q). cbn [step_bind]. rewrite Hgrant. cbn [negb].
    rewrite (fread_exact (mkFILE (f_bytes in_) (Z.of_nat q)) q len eq_refl Hlen Hfit).
    cbn [Nat.eqb negb f_bytes f_pos].
    rewrite Hscan. cbn [step_bind].
    rewrite drop_0.
    rewrite (fwrite_append
               (mkFILE (f_bytes o ++ take q (f_bytes in_)) (Z.of_nat (length (f_bytes o) + q)))
               strtab' len); cbn [f_bytes f_pos];
      [|rewrite length_app, length_take; f_equal; lia | exact Hlen | exact Hs].
    cbn [Nat.eqb negb]. unfold write_input_to_output_end. cbn [f_pos f_bytes].
    destruct (copy_all_spec (Z.to_nat (Z.of_nat (length (f_bytes in_))))
                (mkFILE (f_bytes in_) (Z.of_nat (q + len)))
                (mkFILE ((f_bytes o ++ take q (f_bytes in_)) ++ strtab')
                   (Z.of_nat (length ((f_bytes o ++ take q (f_bytes in_)) ++ strtab'))))
                (Z.of_nat (q + len)) (Z.of_nat (length (f_bytes in_)))
                (q + len) (length (f_bytes in_) - (q + len)) eq_refl eq_refl)
      as (code & in3 & o3 & Hrun3 & _ & Hres3); [lia | lia |].
    rewrite Hrun3. cbn [f_bytes] in Hres3.
    destruct (Nat.eqb_spec (q + len) (length (f_bytes in_))) as [Hend|Hmid].
    + destruct (Nat.ltb_spec 0 (length (f_bytes in_) - (q + len))); [lia|].
      cbn [andb] in Hres3. destruct Hres3 as [-> Hsame].
      rewrite Hsame by lia. cbn [Z.eqb finish f_bytes].
      now rewrite <- app_assoc.
    + destruct (Nat.ltb_spec 0 (length (f_bytes in_) - (q + len))); [|lia].
      destruct (Nat.leb_spec (q + len + (length (f_bytes in_) - (q + len)))
                  (length (f_bytes in_))); [|lia].
      cbn [andb] in Hres3. destruct Hres3 as (-> & _ & ->).
      cbn [Z.eqb finish f_bytes]. unfold patched.
      rewrite (take_ge (drop (q + len) (f_bytes in_))) by (rewrite length_drop; lia).
      now rewrite <- !app_assoc.
  - cbn [step_bind option_map].
    rewrite (fseek_set_at in_ q). cbn [step_bind]. rewrite Hgrant. cbn [negb].
    rewrite (fread_exact (mkFILE (f_bytes in_) (Z.of_nat q)) q len eq_refl Hlen Hfit).
    cbn [Nat.eqb negb f_bytes f_pos].
    rewrite Hscan. cbn [step_bind].
    change (fseek_set (mkFILE (f_bytes in_) (Z.of_nat (q + len))) (Z.of_nat q))
      with (fseek_set in_ (Z.of_nat q)).
    rewrite (fseek_set_at in_ q).
    rewrite (fwrite_inside (mkFILE (f_bytes in_) (Z.of_nat q)) strtab' q len eq_refl Hlen Hs Hfit).
    reflexivity.
Qed.

(** A negative offset: the copy fails or overruns the buffer. *)
Lemma copy_all_negative (fuel : nat) (in_ out : FILE) (offset : Z) (p : nat) :
  f_pos in_ = Z.of_nat p ->
  (- 2 ^ 63 <= offset < 0)%Z ->
  (Z.of_nat (length (f_bytes in_)) < 2 ^ 63)%Z ->
  copy_all fuel in_ out 0 offset = None \/
  exists in', copy_all fuel in_ out 0 offset = Some (0%Z, in', out).
Proof.
  intros Hp Hoff Hsize. unfold copy_all.
  rewrite copy_chunks_stop by lia. cbn [negb].
  unfold copy_rest. rewrite (fread_at in_ p _ Hp).
  set (size := Z.to_nat (wrap_size (offset - 0))).
  assert (Hbig : length (f_bytes in_) < size).
  { unfold size, wrap_size.
    change (2 ^ 63)%Z with 9223372036854775808%Z in *.
    change (2 ^ 64)%Z with 18446744073709551616%Z.
    assert ((offset - 0) mod 18446744073709551616 = offset + 18446744073709551616)%Z
      by (Z.div_mod_to_equations; lia).
    lia. }
  set (got := take size (drop p (f_bytes in_))).
  assert (Hgot : length got <= length (f_bytes in_))
    by (unfold got; rewrite length_take, length_drop; lia).
  destruct (1024 <? length got); [left; reflexivity|].
  rewrite Nat.div_small by lia. cbn [Nat.eqb negb].
  right. eexists. reflexivity.
Qed.

(** What a run of the shared part that ends with the result of the scanner
    has done. *)
Lemma process_section_inv (al : allocator) (in_ : FILE) (out : option FILE)
    (search replace : list byte) (exact loc : Z) (len : nat) (res : run_result) :
  finish (process_section al in_ out search (Some replace) exact loc len) = Some res ->
  (0 <= r_code res < 3)%Z ->
  (0 <= loc \/ - 2 ^ 63 <= loc /\ Z.of_nat (length (f_bytes in_)) < 2 ^ 63)%Z ->
  (forall o, out = Some o -> f_pos o = Z.of_nat (length (f_bytes o))) ->
  exists q strtab',
    loc = Z.of_nat q /\ 0 < len /\ q + len <= length (f_bytes in_) /\
    grants al len = true /\
    scan_strtab al search replace exact (take len (drop q (f_bytes in_)))
    = Done (r_code res, strtab') /\
    match out with
    | None => res = mkResult (r_code res) (patched (f_bytes in_) strtab' q len) None []
    | Some o =>
        0 < q /\ q + len < length (f_bytes in_) /\
        res = mkResult (r_code res) (f_bytes in_)
                (Some (f_bytes o ++ patched (f_bytes in_) strtab' q len)) []
    end.
Proof.
  intros Hrun Hcode Hloc Hout.
  destruct (Z.lt_ge_cases loc 0) as [Hneg|Hpos].
  { exfalso. destruct Hloc as [?|[Hlow Hsize]]; [lia|].
    unfold process_section in Hrun. destruct out as [o|].
    - change (fseek_set in_ 0) with (fseek_set in_ (Z.of_nat 0)) in Hrun.
      rewrite (fseek_set_at in_ 0) in Hrun. cbv iota in Hrun.
      unfold write_input_to_output_until in Hrun.
      destruct (copy_all_negative (Z.to_nat loc) (mkFILE (f_bytes in_) (Z.of_nat 0)) o loc 0
                  eq_refl ltac:(lia) Hsize) as [E|[in' E]];
        rewrite E in Hrun; simpl in Hrun; [discriminate|].
      injection Hrun as <-. simpl in Hcode. lia.
    - cbn [step_bind] in Hrun. unfold fseek_set in Hrun.
      destruct (Z.ltb_spec loc 0); [|lia]. simpl in Hrun.
      injection Hrun as <-. simpl in Hcode. lia. }
  exists (Z.to_nat loc).
  assert (Hq : loc = Z.of_nat (Z.to_nat loc)) by lia.
  set (q := Z.to_nat loc) in *. clearbody q. subst loc.
  assert (Hwalk : (forall o, out = Some o -> 0 < q) /\ 0 < len /\
                  q + len <= length (f_bytes in_) /\ grants al len = true /\
                  exists ret strtab',
                    scan_strtab al search replace exact (take len (drop q (f_bytes in_)))
                    = Done (ret, strtab')).
  { unfold process_section in Hrun.
    assert (Hq0 : forall o, out = Some o -> 0 < q).
    { intros o ->. destruct (Nat.eq_dec q 0) as [->|]; [exfalso|lia].
      specialize (Hout o eq_refl).
      change (fseek_set in_ 0) with (fseek_set in_ (Z.of_nat 0)) in Hrun.
      rewrite (fseek_set_at in_ 0) in Hrun. cbv iota in Hrun.
      unfold write_input_to_output_until in Hrun.
      destruct (copy_all_spec (Z.to_nat (Z.of_nat 0)) (mkFILE (f_bytes in_) (Z.of_nat 0)) o 0
                  (Z.of_nat 0) 0 0 eq_refl Hout)
        as (code & in' & o1 & E & _ & Hres); [lia | lia |].
      rewrite E in Hrun. cbn [Nat.ltb Nat.leb andb] in Hres. destruct Hres as [-> _].
      simpl in Hrun. injection Hrun as <-. simpl in Hcode. lia. }
    split; [exact Hq0|].
    destruct (grants al len) eqn:Hgrant.
    2:{ exfalso. destruct out as [o|].
        - change (fseek_set in_ 0) with (fseek_set in_ (Z.of_nat 0)) in Hrun.
          rewrite (fseek_set_at in_ 0), (fseek_set_at in_ q) in Hrun. cbv iota in Hrun.
          destruct (write_input_to_output_until _ o _) as [[[ok i1] o1]|];
            [|discriminate].
          destruct (ok =? 0)%Z; simpl in Hrun; injection Hrun as <-; simpl in Hcode; lia.
        - rewrite (fseek_set_at in_ q) in Hrun. simpl in Hrun.
          injection Hrun as <-. simpl in Hcode. lia. }
    destruct (fread (mkFILE (f_bytes in_) (Z.of_nat q)) len 1) as [[strtab n] in3] eqn:Hread.
    destruct (Nat.eqb_spec n 1) as [->|Hn].
    2:{ exfalso. destruct out as [o|].
        - change (fseek_set in_ 0) with (fseek_set in_ (Z.of_nat 0)) in Hrun.
          rewrite (fseek_set_at in_ 0), (fseek_set_at in_ q) in Hrun. cbv iota in Hrun.
          destruct (write_input_to_output_until _ o _) as [[[ok i1] o1]|];
            [|discriminate].
          destruct (ok =? 0)%Z; cbn [step_bind negb] in Hrun;
            [injection Hrun as <-; simpl in Hcode; lia|].
          rewrite Hread in Hrun. destruct (Nat.eqb_spec n 1); [lia|].
          simpl in Hrun. injection Hrun as <-. simpl in Hcode. lia.
        - rewrite (fseek_set_at in_ q) in Hrun. cbn [step_bind negb] in Hrun.
          rewrite Hread in Hrun. destruct (Nat.eqb_spec n 1); [lia|].
          simpl in Hrun. injection Hrun as <-. simpl in Hcode. lia. }
    apply (fread_one_inv _ _ q) in Hread as (Hlen & Hfit & -> & ->); [|reflexivity].
    cbn [f_bytes] in *.
    split; [exact Hlen|]. split; [exact Hfit|]. split; [reflexivity|].
    destruct (scan_strtab al search replace exact (take len (drop q (f_bytes in_))))
      as [[ret strtab']|r] eqn:Hscan; [eauto|].
    exfalso. destruct out as [o|].
    - change (fseek_set in_ 0) with (fseek_set in_ (Z.of_nat 0)) in Hrun.
      rewrite (fseek_set_at in_ 0), (fseek_set_at in_ q) in Hrun. cbv iota in Hrun.
      destruct (write_input_to_output_until _ o _) as [[[ok i1] o1]|];
        [|discriminate].
      destruct (ok =? 0)%Z; cbn [step_bind negb] in Hrun;
        [injection Hrun as <-; simpl in Hcode; lia|].
      rewrite (fread_exact (mkFILE (f_bytes in_) (Z.of_nat q)) q len eq_refl Hlen Hfit) in Hrun.
      cbn [Nat.eqb negb f_bytes] in Hrun. rewrite Hscan in Hrun. discriminate.
    - rewrite (fseek_set_at in_ q) in Hrun. cbn [step_bind negb] in Hrun.
      rewrite (fread_exact (mkFILE (f_bytes in_) (Z.of_nat q)) q len eq_refl Hlen Hfit) in Hrun.
      cbn [Nat.eqb negb f_bytes] in Hrun. rewrite Hscan in Hrun. discriminate. }
  destruct Hwalk as (Hq0 & Hlen & Hfit & Hgrant & ret & strtab' & Hscan).
  rewrite (process_section_runs al in_ out search replace exact q len ret strtab'
             Hlen Hfit Hgrant Hscan) in Hrun
    by (intros o Ho; split; [exact (Hq0 o Ho) | exact (Hout o Ho)]).
  injection Hrun as Hres.
  exists strtab'. split; [reflexivity|]. split; [exact Hlen|]. split; [exact Hfit|].
  split; [exact Hgrant|].
  destruct out as [o|].
  - destruct (Nat.eqb_spec (q + len) (length (f_bytes in_))) as [Hend|Hmid];
      subst res; cbn [r_code] in *; [lia|].
    split; [exact Hscan|]. split; [exact (Hq0 o eq_refl)|]. split; [lia | reflexivity].
  - subst res. cbn [r_code]. split; [exact Hscan | reflexivity].
Qed.

(** The shared part when no replacement is given and no output file. *)
Lemma process_section_lists (al : allocator) (in_ : FILE) (search : list byte) (exact : Z)
    (q len : nat) :
  0 < len -> q + len <= length (f_bytes in_) -> grants al len = true ->
  finish (process_section al in_ None search None exact (Z.of_nat q) len)
  = Some (mkResult 0 (f_bytes in_) None
            (print_strings (take len (drop q (f_bytes in_))) (Z.of_nat q) len)).
Proof.
  intros Hlen Hfit Hgrant. unfold process_section.
  cbn [step_bind option_map].
  rewrite (fseek_set_at in_ q). cbn [step_bind]. rewrite Hgrant. cbn [negb].
  rewrite (fread_exact (mkFILE (f_bytes in_) (Z.of_nat q)) q len eq_refl Hlen Hfit).
  reflexivity.
Qed.

(** The shared part on a section of length 0. *)
Lemma process_section_empty (al : allocator) (in_ : FILE) (out : option FILE)
    (search : list byte) (replace : option (list byte)) (exact : Z) (q : nat) :
  (forall o, out = Some o -> f_pos o = Z.of_nat (length (f_bytes o))) ->
  exists res,
    finish (process_section al in_ out search replace exact (Z.of_nat q) 0) = Some res /\
    (r_code res = 13 \/ r_code res = 14 /\ out <> None)%Z /\
    r_in res = f_bytes in_ /\ r_printed res = [].
Proof.
  intros Hout. unfold process_section.
  assert (Hread : forall f, exists got f', fread f 0 1 = (got, 0, f')).
  { intros f. unfold fread. simpl. eauto. }
  destruct out as [o|].
  - change (fseek_set in_ 0) with (fseek_set in_ (Z.of_nat 0)).
    rewrite (fseek_set_at in_ 0). cbv iota.
    unfold write_input_to_output_until.
    destruct (copy_all_spec (Z.to_nat (Z.of_nat q)) (mkFILE (f_bytes in_) (Z.of_nat 0)) o 0
                (Z.of_nat q) 0 q eq_refl (Hout o eq_refl))
      as (code & in' & o1 & E & _ & Hres); [lia | lia |].
    rewrite E.
    destruct ((0 <? q) && (0 + q <=? length (f_bytes (mkFILE (f_bytes in_) (Z.of_nat 0))))).
    + destruct Hres as (-> & _ & _). cbn [Z.eqb step_bind].
      rewrite (fseek_set_at in_ q). cbn [step_bind].
      destruct (grants al 0); cbn [negb].
      * destruct (Hread (mkFILE (f_bytes in_) (Z.of_nat q))) as (got & f' & ->).
        cbn [Nat.eqb negb finish]. eexists. split; [reflexivity|]. simpl. auto.
      * cbn [finish]. eexists. split; [reflexivity|]. simpl. auto.
    + destruct Hres as [-> _]. cbn [Z.eqb step_bind finish].
      eexists. split; [reflexivity|]. simpl. split; [right; split; [reflexivity | discriminate]|].
      auto.
  - cbn [step_bind option_map].
    rewrite (fseek_set_at in_ q). cbn [step_bind].
    destruct (grants al 0); cbn [negb].
    + destruct (Hread (mkFILE (f_bytes in_) (Z.of_nat q))) as (got & f' & ->).
      cbn [Nat.eqb negb finish]. eexists. split; [reflexivity|]. simpl. auto.
    + cbn [finish]. eexists. split; [reflexivity|]. simpl. auto.
Qed.

(** X17.  When the navigator finds a section of len > 0 bytes at address that
    lies in the file, malloc grants the table and the scanner returns ret
    with the table rewritten, pe_process with a replacement: without output
    file returns ret and the input file holds the rewritten table in place
    of the section, same length, other bytes unchanged; with an output file
    (stream at its end) appends to it the input with the section replaced
    and returns ret, unless the section ends the file: then it returns 14
    although the output is complete. *)
Theorem pe_process_patches (al : allocator) (in_ : FILE) (out : option FILE)
    (section : option (list byte)) (search replace : list byte) (exact : Z)
    (address len ret : Z) (strtab' : list byte) :
  let bytes := f_bytes in_ in
  let q := Z.to_nat address in
  let n := Z.to_nat len in
  pe_find_strings_section in_ (default PE_DEFAULT_SECTION section) = Go (address, len) ->
  0 < n -> q + n <= length bytes ->
  grants al n = true ->
  scan_strtab al search replace exact (take n (drop q bytes)) = Done (ret, strtab') ->
  (forall o, out = Some o -> f_pos o = Z.of_nat (length (f_bytes o))) ->
  pe_process al in_ out section search (Some replace) exact
  = Some
      match out with
      | None => mkResult ret (patched bytes strtab' q n) None []
      | Some o =>
          if q + n =? length bytes
          then mkResult 14 bytes (Some (f_bytes o ++ take q bytes ++ strtab')) []
          else mkResult ret bytes (Some (f_bytes o ++ patched bytes strtab' q n)) []
      end.
Proof.
  intros bytes q n Hnav Hlen Hfit Hgrant Hscan Hout.
  unfold pe_process. rewrite Hnav.
  pose proof (pe_find_strings_section_Go _ _ _ _ Hnav) as [Hpos _].
  replace address with (Z.of_nat q) at 1 by (unfold q; lia).
  apply process_section_runs; auto.
  intros o Ho. split; [unfold q; lia | exact (Hout o Ho)].
Qed.

Lemma pe_process_patches_witness :
  pe_process zero_alloc (mkFILE (pe_image x00 12 168) 4) (Some (mkFILE [] 0)) None
    (cstr "world") (Some (cstr "moon")) 0
  = Some (mkResult 0 (pe_image x00 12 168)
            (Some ([] ++ patched (pe_image x00 12 168)
                           (cstr "hello" ++ [x00] ++ cstr "moon" ++ [x00; x00]) 168 12))
            []).
Proof.
  apply (pe_process_patches zero_alloc (mkFILE (pe_image x00 12 168) 4)
           (Some (mkFILE [] 0)) None (cstr "world") (cstr "moon") 0 168%Z 12%Z 0%Z
           (cstr "hello" ++ [x00] ++ cstr "moon" ++ [x00; x00])).
  - vm_compute. reflexivity.
  - vm_compute. lia.
  - vm_compute. lia.
  - reflexivity.
  - vm_compute. reflexivity.
  - intros o [= <-]. reflexivity.
Defined.

(** X18.  If pe_process with a replacement returns 0, 1 or 2, then the navigator
    had found a section of len > 0 bytes at address > 0 inside the file, the
    code is the one the scanner returned on the bytes of that section, and
    the file written (the output file if given, with the input untouched and
    the section strictly before the end of the file; else the input file) is
    the input with the section replaced by the scanner's buffer of the same
    length; nothing is printed. *)
Theorem pe_process_result (al : allocator) (in_ : FILE) (out : option FILE)
    (section : option (list byte)) (search replace : list byte) (exact : Z)
    (res : run_result) :
  pe_process al in_ out section search (Some replace) exact = Some res ->
  (0 <= r_code res < 3)%Z ->
  (forall o, out = Some o -> f_pos o = Z.of_nat (length (f_bytes o))) ->
  exists (address len : Z) (strtab' : list byte),
    let bytes := f_bytes in_ in
    let q := Z.to_nat address in
    let n := Z.to_nat len in
    pe_find_strings_section in_ (default PE_DEFAULT_SECTION section) = Go (address, len) /\
    0 < q /\ 0 < n /\ q + n <= length bytes /\
    scan_strtab al search replace exact (take n (drop q bytes)) = Done (r_code res, strtab') /\
    length strtab' = n /\
    match out with
    | None => res = mkResult (r_code res) (patched bytes strtab' q n) None []
    | Some o =>
        q + n < length bytes /\
        res = mkResult (r_code res) bytes (Some (f_bytes o ++ patched bytes strtab' q n)) []
    end.
Proof.
  intros Hrun Hcode Hout. unfold pe_process in Hrun.
  pose proof (pe_find_strings_section_codes in_ (default PE_DEFAULT_SECTION section)) as Hcodes.
  destruct (pe_find_strings_section in_ (default PE_DEFAULT_SECTION section))
    as [[address len]|c|] eqn:Hnav; [| |discriminate].
  2:{ injection Hrun as <-. simpl in Hcode, Hcodes. lia. }
  pose proof (pe_find_strings_section_Go _ _ _ _ Hnav) as [Hpos _].
  apply process_section_inv in Hrun as (q & strtab' & Hq & Hlen & Hfit & Hgrant & Hscan & Hres);
    [|exact Hcode | lia | exact Hout].
  exists address, len, strtab'. cbn zeta.
  replace (Z.to_nat address) with q by lia.
  split; [reflexivity|]. split; [lia|]. split; [exact Hlen|]. split; [exact Hfit|].
  split; [exact Hscan|].
  split; [rewrite (scan_strtab_length _ _ _ _ _ _ _ Hscan), length_take, length_drop; lia|].
  destruct out as [o|]; [|exact Hres]. destruct Hres as (_ & Hmid & Hres). auto.
Qed.

Lemma pe_process_result_witness :
  exists (address len : Z) (strtab' : list byte),
    let bytes := pe_image x00 12 168 in
    let q := Z.to_nat address in
    let n := Z.to_nat len in
    pe_find_strings_section (mkFILE (pe_image x00 12 168) 4) (cstr ".rdata")
    = Go (address, len) /\
    0 < q /\ 0 < n /\ q + n <= length bytes /\
    scan_strtab zero_alloc (cstr "world") (cstr "moon") 1 (take n (drop q bytes))
    = Done (0%Z, strtab') /\
    length strtab' = n /\
    q + n < length bytes /\
    mkResult 0 (pe_image x00 12 168)
      (Some (patched (pe_image x00 12 168)
               (cstr "hello" ++ [x00] ++ cstr "moon" ++ [x00; x00]) 168 12)) []
    = mkResult 0 bytes (Some ([] ++ patched bytes strtab' q n)) [].
Proof.
  apply (pe_process_result zero_alloc (mkFILE (pe_image x00 12 168) 4) (Some (mkFILE [] 0))
           (Some (cstr ".rdata")) (cstr "world") (cstr "moon") 1
           (mkResult 0 (pe_image x00 12 168)
              (Some (patched (pe_image x00 12 168)
                       (cstr "hello" ++ [x00] ++ cstr "moon" ++ [x00; x00]) 168 12)) [])).
  - vm_compute. reflexivity.
  - simpl. lia.
  - intros o [= <-]. reflexivity.
Defined.

(** X19.  When the navigator returns a section of length 0, pe_process has
    defined behaviour, leaves the input file as it is, prints nothing and
    returns 13 (or 14, only with an output file): malloc(0) fails or the
    fread of zero bytes reads no item. *)
Theorem pe_process_empty_section (al : allocator) (in_ : FILE) (out : option FILE)
    (section : option (list byte)) (search : list byte) (replace : option (list byte))
    (exact address : Z) :
  pe_find_strings_section in_ (default PE_DEFAULT_SECTION section) = Go (address, 0%Z) ->
  (forall o, out = Some o -> f_pos o = Z.of_nat (length (f_bytes o))) ->
  exists res,
    pe_process al in_ out section search replace exact = Some res /\
    (r_code res = 13 \/ r_code res = 14 /\ out <> None)%Z /\
    r_in res = f_bytes in_ /\ r_printed res = [].
Proof.
  intros Hnav Hout. unfold pe_process. rewrite Hnav.
  pose proof (pe_find_strings_section_Go _ _ _ _ Hnav) as [Hpos _].
  replace address with (Z.of_nat (Z.to_nat address)) by lia.
  change (Z.to_nat 0) with 0. now apply process_section_empty.
Qed.

Lemma pe_process_empty_section_witness :
  exists res,
    pe_process zero_alloc (mkFILE (pe_image x00 0 168) 4) None None (cstr "world")
      (Some (cstr "moon")) 0 = Some res /\
    (r_code res = 13 \/ r_code res = 14 /\ (None : option FILE) <> None)%Z /\
    r_in res = pe_image x00 0 168 /\ r_printed res = [].
Proof.
  apply (pe_process_empty_section zero_alloc (mkFILE (pe_image x00 0 168) 4) None None
           (cstr "world") (Some (cstr "moon")) 0 168%Z).
  - vm_compute. reflexivity.
  - intros o [=].
Defined.

(** X20.  Without replacement and without output file, when the navigator finds
    a section of len > 0 bytes that lies in the file and malloc grants the
    table, pe_process returns 0, leaves the file as it is and prints exactly
    what print_strings prints for the bytes of the section, with the address
    of the section as offset_start. *)
Theorem pe_process_lists (al : allocator) (in_ : FILE) (section : option (list byte))
    (search : list byte) (exact address len : Z) :
  let bytes := f_bytes in_ in
  let q := Z.to_nat address in
  let n := Z.to_nat len in
  pe_find_strings_section in_ (default PE_DEFAULT_SECTION section) = Go (address, len) ->
  0 < n -> q + n <= length bytes -> grants al n = true ->
  pe_process al in_ None section search None exact
  = Some (mkResult 0 bytes None (print_strings (take n (drop q bytes)) address n)).
Proof.
  intros bytes q n Hnav Hlen Hfit Hgrant. unfold pe_process. rewrite Hnav.
  pose proof (pe_find_strings_section_Go _ _ _ _ Hnav) as [Hpos _].
  replace address with (Z.of_nat q) by (unfold q; lia).
  now apply process_section_lists.
Qed.

Lemma pe_process_lists_witness :
  pe_process zero_alloc (mkFILE (pe_image x00 12 168) 4) None None [] None 0
  = Some (mkResult 0 (pe_image x00 12 168) None
            (print_strings (take 12 (drop 168 (pe_image x00 12 168))) 168 12)).
Proof.
  apply (pe_process_lists zero_alloc (mkFILE (pe_image x00 12 168) 4) None [] 0 168%Z 12%Z).
  - vm_compute. reflexivity.
  - vm_compute. lia.
  - vm_compute. lia.
  - reflexivity.
Defined.

Lemma word_to_long_range (class : Z) (w : Word) :
  (- 2 ^ 63 <= word_to_long class w < 2 ^ 63)%Z.
Proof.
  unfold word_to_long, to_long, e32, e64, wrap_size.
  change (2 ^ 63)%Z with 9223372036854775808%Z.
  change (2 ^ 64)%Z with 18446744073709551616%Z.
  change (2 ^ 32)%Z with 4294967296%Z.
  destruct (IS_32_BITS class).
  - pose proof (Z.mod_pos_bound (w_bits w) 4294967296 ltac:(lia)). lia.
  - pose proof (Z.mod_pos_bound (w_bits w mod 18446744073709551616) 18446744073709551616
                  ltac:(lia)).
    destruct (_ <? _)%Z eqn:E; [apply Z.ltb_lt in E | apply Z.ltb_ge in E]; lia.
Qed.

(** X21.  Whatever the file, the section name, the allocator and the values of
    the uninitialised locals, elf_find_strings_section returns no other
    non-zero code than 5, 6, 7, 8 and 9. *)
Theorem elf_navigator_codes (u : indeterminate) (al : allocator) (section : list byte)
    (in_ : FILE) :
  match elf_find_strings_section u al section in_ with
  | Return c => (c = 5 \/ c = 6 \/ c = 7 \/ c = 8 \/ c = 9)%Z
  | _ => True
  end.
Proof.
  pose proof (elf_find_strings_section_codes u al section in_) as H.
  destruct (elf_find_strings_section u al section in_); simpl in H; auto.
Qed.

(** X22.  When the navigator finds a section whose offset, as a long, is q >= 0
    and whose length n > 0 lies in the file, malloc grants the table and the
    scanner returns ret with the table rewritten, elf_process with a
    replacement: without output file returns ret and the input file holds
    the rewritten table in place of the section; with an output file (q > 0,
    stream at its end) appends to it the input with the section replaced and
    returns ret, unless the section ends the file: then it returns 14
    although the output is complete. *)
Theorem elf_process_patches (u : indeterminate) (al : allocator) (in_ : FILE)
    (out : option FILE) (section : option (list byte)) (search replace : list byte)
    (exact : Z) (address len : Word) (attrs : ElfAttrs) (q : nat) (ret : Z)
    (strtab' : list byte) :
  let bytes := f_bytes in_ in
  let n := Z.to_nat (wrap_size (word_to_long (class attrs) len)) in
  elf_find_strings_section u al (default ELF_DEFAULT_SECTION section) in_
  = Go (address, len, attrs) ->
  word_to_long (class attrs) address = Z.of_nat q ->
  0 < n -> q + n <= length bytes ->
  grants al n = true ->
  scan_strtab al search replace exact (take n (drop q bytes)) = Done (ret, strtab') ->
  (forall o, out = Some o -> 0 < q /\ f_pos o = Z.of_nat (length (f_bytes o))) ->
  elf_process u al in_ out section search (Some replace) exact
  = Some
      match out with
      | None => mkResult ret (patched bytes strtab' q n) None []
      | Some o =>
          if q + n =? length bytes
          then mkResult 14 bytes (Some (f_bytes o ++ take q bytes ++ strtab')) []
          else mkResult ret bytes (Some (f_bytes o ++ patched bytes strtab' q n)) []
      end.
Proof.
  intros bytes n Hnav Hq Hlen Hfit Hgrant Hscan Hout.
  unfold elf_process. rewrite Hnav. cbn zeta. rewrite Hq.
  now apply process_section_runs.
Qed.

Lemma elf_process_patches_witness :
  elf_process (env_r 1) zero_alloc (mkFILE (elf_image 52 12) 4) (Some (mkFILE [] 0)) None
    (cstr "world") (Some (cstr "moon")) 0
  = Some (mkResult 0 (elf_image 52 12)
            (Some ([] ++ patched (elf_image 52 12)
                           (cstr "hello" ++ [x00] ++ cstr "moon" ++ [x00; x00]) 52 12))
            []).
Proof.
  apply (elf_process_patches (env_r 1) zero_alloc (mkFILE (elf_image 52 12) 4)
           (Some (mkFILE [] 0)) None (cstr "world") (cstr "moon") 0
           (mkWord 52) (mkWord 12) (mkElfAttrs 1 1) 52 0%Z
           (cstr "hello" ++ [x00] ++ cstr "moon" ++ [x00; x00])).
  - vm_compute. reflexivity.
  - vm_compute. reflexivity.
  - vm_compute. lia.
  - vm_compute. lia.
  - reflexivity.
  - vm_compute. reflexivity.
  - intros o [= <-]. split; [lia | reflexivity].
Defined.

(** X23.  If elf_process with a replacement, on a file of less than 2^63 bytes,
    returns 0, 1 or 2, then the navigator had found a section whose offset
    as a long is q >= 0 and whose length n > 0 lies in the file, the code is
    the one the scanner returned on the bytes of that section, and the file
    written (the output file if given, with q > 0 and the section strictly
    before the end of the file; else the input file) is the input with the
    section replaced by the scanner's buffer of the same length. *)
Theorem elf_process_result (u : indeterminate) (al : allocator) (in_ : FILE)
    (out : option FILE) (section : option (list byte)) (search replace : list byte)
    (exact : Z) (res : run_result) :
  elf_process u al in_ out section search (Some replace) exact = Some res ->
  (0 <= r_code res < 3)%Z ->
  (Z.of_nat (length (f_bytes in_)) < 2 ^ 63)%Z ->
  (forall o, out = Some o -> f_pos o = Z.of_nat (length (f_bytes o))) ->
  exists (address len : Word) (attrs : ElfAttrs) (q : nat) (strtab' : list byte),
    let bytes := f_bytes in_ in
    let n := Z.to_nat (wrap_size (word_to_long (class attrs) len)) in
    elf_find_strings_section u al (default ELF_DEFAULT_SECTION section) in_
    = Go (address, len, attrs) /\
    word_to_long (class attrs) address = Z.of_nat q /\
    0 < n /\ q + n <= length bytes /\
    scan_strtab al search replace exact (take n (drop q bytes)) = Done (r_code res, strtab') /\
    length strtab' = n /\
    match out with
    | None => res = mkResult (r_code res) (patched bytes strtab' q n) None []
    | Some o =>
        0 < q /\ q + n < length bytes /\
        res = mkResult (r_code res) bytes (Some (f_bytes o ++ patched bytes strtab' q n)) []
    end.
Proof.
  intros Hrun Hcode Hsize Hout. unfold elf_process in Hrun.
  pose proof (elf_find_strings_section_codes u al (default ELF_DEFAULT_SECTION section) in_)
    as Hcodes.
  destruct (elf_find_strings_section u al (default ELF_DEFAULT_SECTION section) in_)
    as [[[address len] attrs]|c|] eqn:Hnav; [| |discriminate].
  2:{ injection Hrun as <-. simpl in Hcode, Hcodes. lia. }
  cbn zeta in Hrun.
  pose proof (word_to_long_range (class attrs) address) as Hrange.
  apply process_section_inv in Hrun as (q & strtab' & Hq & Hlen & Hfit & Hgrant & Hscan & Hres);
    [|exact Hcode | right; split; [lia | exact Hsize] | exact Hout].
  exists address, len, attrs, q, strtab'. cbn zeta.
  split; [reflexivity|]. split; [exact Hq|]. split; [exact Hlen|]. split; [exact Hfit|].
  split; [exact Hscan|].
  split; [rewrite (scan_strtab_length _ _ _ _ _ _ _ Hscan), length_take, length_drop; lia|].
  exact Hres.
Qed.

Lemma elf_process_result_witness :
  exists (address len : Word) (attrs : ElfAttrs) (q : nat) (strtab' : list byte),
    let bytes := elf_image 52 12 in
    let n := Z.to_nat (wrap_size (word_to_long (class attrs) len)) in
    elf_find_strings_section (env_r 1) zero_alloc (cstr ".rodata") (mkFILE (elf_image 52 12) 4)
    = Go (address, len, attrs) /\
    word_to_long (class attrs) address = Z.of_nat q /\
    0 < n /\ q + n <= length bytes /\
    scan_strtab zero_alloc (cstr "world") (cstr "moon") 0 (take n (drop q bytes))
    = Done (0%Z, strtab') /\
    length strtab' = n /\
    mkResult 0 (patched (elf_image 52 12)
                  (cstr "hello" ++ [x00] ++ cstr "moon" ++ [x00; x00]) 52 12) None []
    = mkResult 0 (patched bytes strtab' q n) None [].
Proof.
  apply (elf_process_result (env_r 1) zero_alloc (mkFILE (elf_image 52 12) 4) None
           (Some (cstr ".rodata")) (cstr "world") (cstr "moon") 0
           (mkResult 0 (patched (elf_image 52 12)
                          (cstr "hello" ++ [x00] ++ cstr "moon" ++ [x00; x00]) 52 12) None [])).
  - vm_compute. reflexivity.
  - simpl. lia.
  - vm_compute. reflexivity.
  - intros o [=].
Defined.

(** X24.  Without replacement and without output file, when the navigator finds
    a section whose offset as a long is q >= 0 and whose length n > 0 lies
    in the file and malloc grants the table, elf_process returns 0, leaves
    the file as it is and prints exactly what print_strings prints for the
    bytes of the section, with q as offset_start. *)
Theorem elf_process_lists (u : indeterminate) (al : allocator) (in_ : FILE)
    (section : option (list byte)) (search : list byte) (exact : Z)
    (address len : Word) (attrs : ElfAttrs) (q : nat) :
  let bytes := f_bytes in_ in
  let n := Z.to_nat (wrap_size (word_to_long (class attrs) len)) in
  elf_find_strings_section u al (default ELF_DEFAULT_SECTION section) in_
  = Go (address, len, attrs) ->
  word_to_long (class attrs) address = Z.of_nat q ->
  0 < n -> q + n <= length bytes -> grants al n = true ->
  elf_process u al in_ None section search None exact
  = Some (mkResult 0 bytes None (print_strings (take n (drop q bytes)) (Z.of_nat q) n)).
Proof.
  intros bytes n Hnav Hq Hlen Hfit Hgrant. unfold elf_process. rewrite Hnav.
  cbn zeta. rewrite Hq. now apply process_section_lists.
Qed.

Lemma elf_process_lists_witness :
  elf_process (env_r 1) zero_alloc (mkFILE (elf_image 52 12) 4) None None [] None 0
  = Some (mkResult 0 (elf_image 52 12) None
            (print_strings (take 12 (drop 52 (elf_image 52 12))) (Z.of_nat 52) 12)).
Proof.
  apply (elf_process_lists (env_r 1) zero_alloc (mkFILE (elf_image 52 12) 4) None [] 0
           (mkWord 52) (mkWord 12) (mkElfAttrs 1 1) 52).
  - vm_compute. reflexivity.
  - vm_compute. reflexivity.
  - vm_compute. lia.
  - vm_compute. lia.
  - reflexivity.
Defined.

Lemma fread_bytes (f : FILE) (p n : nat) :
  f_pos f = Z.of_nat p -> p + n <= length (f_bytes f) ->
  fread f 1 n = (take n (drop p (f_bytes f)), n, mkFILE (f_bytes f) (Z.of_nat (p + n))).
Proof.
  intros Hp Hfit. unfold fread. rewrite Hp, Nat2Z.id, Nat.mul_1_l.
  assert (Hlen : length (take n (drop p (f_bytes f))) = n)
    by (rewrite length_take, length_drop; lia).
  rewrite Hlen, Nat.div_1_r. now rewrite Nat2Z.inj_add.
Qed.

Lemma fseek_cur_at (f : FILE) (p : nat) (k : Z) :
  f_pos f = Z.of_nat p -> (0 <= k)%Z ->
  fseek_cur f k = Some (mkFILE (f_bytes f) (Z.of_nat (p + Z.to_nat k))).
Proof.
  intros Hp Hk. unfold fseek_cur. rewrite Hp.
  replace (Z.of_nat p + k)%Z with (Z.of_nat (p + Z.to_nat k)) by lia.
  apply fseek_set_at.
Qed.

Lemma read_or_at (code : Z) (f : FILE) (p n : nat) :
  f_pos f = Z.of_nat p -> 0 < n -> p + n <= length (f_bytes f) ->
  read_or code f n 1
  = Go (take n (drop p (f_bytes f)), mkFILE (f_bytes f) (Z.of_nat (p + n))).
Proof.
  intros Hp Hn Hfit. unfold read_or. now rewrite (fread_exact f p n Hp Hn Hfit).
Qed.

Lemma advance_or_at (code : Z) (f : FILE) (p : nat) (k : Z) (n : nat) :
  f_pos f = Z.of_nat p -> (0 <= k)%Z -> 0 < n ->
  p + Z.to_nat k + n <= length (f_bytes f) ->
  advance_or code f n k
  = Go (take n (drop (p + Z.to_nat k) (f_bytes f)),
        mkFILE (f_bytes f) (Z.of_nat (p + Z.to_nat k + n))).
Proof.
  intros Hp Hk Hn Hfit. unfold advance_or, advance_and_read.
  rewrite (fseek_cur_at f p k Hp Hk).
  now rewrite (fread_exact (mkFILE (f_bytes f) (Z.of_nat (p + Z.to_nat k)))
                 (p + Z.to_nat k) n eq_refl Hn Hfit).
Qed.

(** The loop over a table that lies in the file: the first header whose
    name matches gives the result. *)
Lemma pe_sections_loop_finds (fuel : nat) (in_ : FILE) (section : list byte) (a l : Z)
    (p k : nat) :
  f_pos in_ = Z.of_nat p -> k < fuel ->
  p + 40 * k + 24 <= length (f_bytes in_) ->
  pe_first_match (f_bytes in_) section p k ->
  pe_sections_loop fuel in_ section a l
  = Go (pe_field (f_bytes in_) 4 (p + 40 * k + 20), pe_field (f_bytes in_) 4 (p + 40 * k + 16)).
Proof.
  revert in_ p k. induction fuel as [|fuel IH]; intros in_ p k Hp Hk Hfit [Hmatch Hfirst];
    [lia|].
  cbn [pe_sections_loop].
  rewrite (fread_bytes in_ p 8 Hp) by lia. rewrite Nat.eqb_refl. cbn [andb].
  destruct k as [|k].
  - rewrite Nat.mul_0_r, Nat.add_0_r in *.
    unfold pe_name_matches in Hmatch. rewrite Hmatch.
    rewrite (advance_or_at 8 (mkFILE (f_bytes in_) (Z.of_nat (p + 8))) (p + 8) 8 4 eq_refl)
      by (cbn [f_bytes]; lia).
    change (Z.to_nat 8) with 8. cbn [flow_bind f_bytes].
    rewrite (read_or_at 8 (mkFILE (f_bytes in_) (Z.of_nat (p + 8 + 8 + 4))) (p + 8 + 8 + 4) 4
               eq_refl) by (cbn [f_bytes]; lia).
    cbn [flow_bind f_bytes]. unfold pe_field.
    replace (p + 8 + 8 + 4) with (p + 20) by lia.
    now replace (p + 8 + 8) with (p + 16) by lia.
  - pose proof (Hfirst 0 ltac:(lia)) as Hno. rewrite Nat.mul_0_r, Nat.add_0_r in Hno.
    unfold pe_name_matches in Hno. rewrite Hno.
    rewrite (fseek_cur_at (mkFILE (f_bytes in_) (Z.of_nat (p + 8))) (p + 8) 32 eq_refl)
      by lia.
    change (Z.to_nat 32) with 32. cbn [seek_or flow_bind f_bytes].
    assert (Hrec : pe_sections_loop fuel (mkFILE (f_bytes in_) (Z.of_nat (p + 8 + 32)))
                     section a l
                   = Go (pe_field (f_bytes in_) 4 (p + 40 + 40 * k + 20),
                         pe_field (f_bytes in_) 4 (p + 40 + 40 * k + 16))).
    { apply (IH (mkFILE (f_bytes in_) (Z.of_nat (p + 8 + 32))) (p + 40) k).
      - cbn [f_pos]. f_equal. lia.
      - lia.
      - cbn [f_bytes]. lia.
      - cbn [f_bytes]. split.
        + replace (p + 40 + 40 * k) with (p + 40 * S k) by lia. exact Hmatch.
        + intros j Hj. replace (p + 40 + 40 * j) with (p + 40 * S j) by lia.
          apply Hfirst. lia. }
    rewrite Hrec. now replace (p + 40 + 40 * k) with (p + 40 * S k) by lia.
Qed.

(** No name matches: the loop leaves the out-parameters as they were. *)
Lemma pe_sections_loop_misses (fuel : nat) (in_ : FILE) (section : list byte) (a l : Z)
    (p : nat) :
  f_pos in_ = Z.of_nat p ->
  p + 40 * fuel <= length (f_bytes in_) ->
  (forall j, j < fuel -> pe_name_matches (f_bytes in_) section (p + 40 * j) = false) ->
  pe_sections_loop fuel in_ section a l = Go (a, l).
Proof.
  revert in_ p. induction fuel as [|fuel IH]; intros in_ p Hp Hfit Hnone; [reflexivity|].
  cbn [pe_sections_loop].
  rewrite (fread_bytes in_ p 8 Hp) by lia. rewrite Nat.eqb_refl. cbn [andb].
  pose proof (Hnone 0 ltac:(lia)) as Hno. rewrite Nat.mul_0_r, Nat.add_0_r in Hno.
  unfold pe_name_matches in Hno. rewrite Hno.
  rewrite (fseek_cur_at (mkFILE (f_bytes in_) (Z.of_nat (p + 8))) (p + 8) 32 eq_refl)
    by lia.
  change (Z.to_nat 32) with 32. cbn [seek_or flow_bind f_bytes].
  apply (IH (mkFILE (f_bytes in_) (Z.of_nat (p + 8 + 32))) (p + 40)).
  - cbn [f_pos]. f_equal. lia.
  - cbn [f_bytes]. lia.
  - cbn [f_bytes]. intros j Hj.
    replace (p + 40 + 40 * j) with (p + 40 * S j) by lia. apply Hnone. lia.
Qed.

Lemma read_or_bytes (code : Z) (f : FILE) (p n : nat) :
  f_pos f = Z.of_nat p -> p + n <= length (f_bytes f) ->
  read_or code f 1 n
  = Go (take n (drop p (f_bytes f)), mkFILE (f_bytes f) (Z.of_nat (p + n))).
Proof.
  intros Hp Hfit. unfold read_or. rewrite (fread_bytes f p n Hp Hfit).
  now rewrite Nat.eqb_refl.
Qed.

(** The navigator up to the loop, on a file whose header and section table
    lie in it. *)
Lemma pe_find_strings_section_table (in_ : FILE) (section : list byte) :
  let bytes := f_bytes in_ in
  64 <= length bytes ->
  pe_table_start bytes <= length bytes ->
  strncmp (take 4 (drop (pe_header_location bytes) bytes)) PE_SIGNATURE 4 = 0%Z ->
  pe_find_strings_section in_ section
  = flow_bind
      (pe_sections_loop (pe_section_count bytes)
         (mkFILE bytes (Z.of_nat (pe_table_start bytes))) section 0 0)
      (fun '(sectionStringsAddress, sectionStringsLen) =>
         if (sectionStringsAddress =? 0)%Z then Return 9
         else Go (sectionStringsAddress, sectionStringsLen)).
Proof.
  intros bytes Hlen Htable Hsig.
  unfold pe_table_start, pe_section_count in *.
  set (h := pe_header_location bytes) in *.
  unfold pe_find_strings_section.
  change (fseek_set in_ 60) with (fseek_set in_ (Z.of_nat 60)).
  rewrite (fseek_set_at in_ 60). cbn [seek_or flow_bind].
  rewrite (read_or_at 5 (mkFILE (f_bytes in_) (Z.of_nat 60)) 60 4 eq_refl)
    by (cbn [f_bytes]; fold bytes; lia).
  cbn [flow_bind f_bytes]. fold bytes.
  assert (Hh : le_uint (take 4 (drop 60 bytes)) = Z.of_nat h).
  { unfold h, pe_header_location, pe_field.
    pose proof (le_uint_nonneg (take 4 (drop 60 bytes))). lia. }
  rewrite Hh.
  change (fseek_set (mkFILE bytes (Z.of_nat (60 + 4))) (Z.of_nat h))
    with (fseek_set in_ (Z.of_nat h)).
  rewrite (fseek_set_at in_ h). cbn [seek_or flow_bind]. fold bytes.
  rewrite (read_or_bytes 5 (mkFILE bytes (Z.of_nat h)) h 4 eq_refl)
    by (cbn [f_bytes]; lia).
  cbn [flow_bind f_bytes]. rewrite Hsig. cbn [Z.eqb negb].
  rewrite (advance_or_at 5 (mkFILE bytes (Z.of_nat (h + 4))) (h + 4) 2 2 eq_refl)
    by (cbn [f_bytes]; lia).
  change (Z.to_nat 2) with 2. cbn [flow_bind f_bytes].
  rewrite (advance_or_at 5 (mkFILE bytes (Z.of_nat (h + 4 + 2 + 2))) (h + 4 + 2 + 2) 12 2
             eq_refl) by (cbn [f_bytes]; lia).
  change (Z.to_nat 12) with 12. cbn [flow_bind f_bytes].
  replace (h + 4 + 2 + 2 + 12) with (h + 20) by lia.
  replace (h + 4 + 2) with (h + 6) by lia.
  fold (pe_field bytes 2 (h + 20)). fold (pe_field bytes 2 (h + 6)).
  assert (Hopt : (0 <= pe_field bytes 2 (h + 20))%Z) by apply le_uint_nonneg.
  rewrite (fseek_cur_at (mkFILE bytes (Z.of_nat (h + 20 + 2))) (h + 20 + 2)
             (pe_field bytes 2 (h + 20) + 2) eq_refl) by lia.
  cbn [seek_or flow_bind f_bytes].
  replace (h + 20 + 2 + Z.to_nat (pe_field bytes 2 (h + 20) + 2))
    with (h + 24 + Z.to_nat (pe_field bytes 2 (h + 20))) by lia.
  reflexivity.
Qed.

(** X25.  On a PE file of at least 64 bytes whose signature is accepted and
    whose section table (after the optional header, 40 bytes for each of the
    sections counted in the header) lies in the file,
    pe_find_strings_section returns the raw-data pointer and size of the
    first section header whose name compares equal to the wanted name under
    strncmp(.., 8), or code 9 if that pointer is 0; when no header of the
    table has such a name it returns 9. *)
Theorem pe_navigator_finds_first_match (in_ : FILE) (section : list byte) :
  let bytes := f_bytes in_ in
  let t := pe_table_start bytes in
  let n := pe_section_count bytes in
  64 <= length bytes ->
  t + 40 * n <= length bytes ->
  strncmp (take 4 (drop (pe_header_location bytes) bytes)) PE_SIGNATURE 4 = 0%Z ->
  (forall k, k < n -> pe_first_match bytes section t k ->
     pe_find_strings_section in_ section
     = if (pe_field bytes 4 (t + 40 * k + 20) =? 0)%Z then Return 9
       else Go (pe_field bytes 4 (t + 40 * k + 20), pe_field bytes 4 (t + 40 * k + 16))) /\
  ((forall j, j < n -> pe_name_matches bytes section (t + 40 * j) = false) ->
   pe_find_strings_section in_ section = Return 9).
Proof.
  intros bytes t n Hlen Htable Hsig.
  pose proof (pe_find_strings_section_table in_ section Hlen ltac:(fold bytes t; lia) Hsig)
    as Hnav.
  fold bytes t n in Hnav. cbv zeta in Hnav.
  split.
  - intros k Hk Hfirst. rewrite Hnav.
    rewrite (pe_sections_loop_finds n (mkFILE bytes (Z.of_nat t)) section 0 0 t k eq_refl Hk)
      by (cbn [f_bytes]; auto; lia).
    reflexivity.
  - intros Hnone. rewrite Hnav.
    rewrite (pe_sections_loop_misses n (mkFILE bytes (Z.of_nat t)) section 0 0 t eq_refl)
      by (cbn [f_bytes]; auto; lia).
    reflexivity.
Qed.

Lemma pe_navigator_finds_first_match_witness :
  pe_find_strings_section (mkFILE (pe_image x00 12 168) 4) (cstr ".rdata")
  = Go (168%Z, 12%Z) /\
  pe_find_strings_section (mkFILE (pe_image x00 12 168) 4) (cstr ".data") = Return 9.
Proof.
  destruct (pe_navigator_finds_first_match (mkFILE (pe_image x00 12 168) 4) (cstr ".rdata"))
    as [Hfound _]; [vm_compute; lia | vm_compute; lia | reflexivity |].
  destruct (pe_navigator_finds_first_match (mkFILE (pe_image x00 12 168) 4) (cstr ".data"))
    as [_ Hnone]; [vm_compute; lia | vm_compute; lia | reflexivity |].
  split.
  - apply (Hfound 1); [vm_compute; lia|].
    split; [reflexivity|]. intros j Hj. destruct j; [reflexivity | lia].
  - apply Hnone. intros j Hj. vm_compute in Hj.
    destruct j as [|[|j]]; [reflexivity | reflexivity | lia].
Defined.

(** ** The length of the buffer *)

(** X26.  For every allocator, buffer and pair of patterns,
    [search_and_replace] never writes outside the buffer it is given and,
    when it returns, returns a buffer of the same length; it does return,
    with every write to its temporary block inside the block, when the
    buffer is shorter than 2^32 bytes (the range of the occurrence
    counter) and [len * (replaceLen + 1)] is below 2^64 (the range of
    [size_t]).  [search_and_replace_exact] always returns, with a buffer
    of the same length. *)
Theorem buffer_length_is_invariant (al : allocator) (search replace data : list byte) :
  (search_and_replace al search replace data <> Overrun DataBuffer /\
   (forall ret out,
      search_and_replace al search replace data = Done (ret, out) ->
      length out = length data) /\
   ((Z.of_nat (length data) < 2 ^ 32)%Z ->
    (Z.of_nat (length data) * (Z.of_nat (length replace) + 1) < 2 ^ 64)%Z ->
    exists ret out, search_and_replace al search replace data = Done (ret, out))) /\
  (exists ret out,
     search_and_replace_exact search replace data = Done (ret, out) /\
     length out = length data).
Proof.
  assert (Hsr : forall i st st', sr_body al search replace (length data) i st = Done st' ->
            length (sc_data st') = length (sc_data st) /\
            (sc_offset st <= i -> sc_offset st' <= i))
    by (intros; eapply sr_body_length; eauto).
  assert (Hsre : forall i st st', sre_body search replace (length data) i st = Done st' ->
            length (sc_data st') = length (sc_data st) /\
            (sc_offset st <= i -> sc_offset st' <= i))
    by (intros; eapply sre_body_length; eauto).
  split; [split; [|split]|].
  - unfold search_and_replace.
    pose proof (for_loop_no_buffer_overrun _ (length data) Hsr
                  (sr_body_no_buffer_overrun al search replace (length data))
                  (length data) 0 (scan_init data)) as Hsafe.
    destruct (for_loop _ _ _ _) as [st|r]; simpl; [discriminate|].
    intros [= ->]. apply Hsafe; simpl; auto; lia.
  - intros ret out H. unfold search_and_replace in H.
    apply bind_out_Done in H as (st & Hst & H). injection H as _ <-.
    apply (for_loop_length _ Hsr) in Hst as [Hlen _]; [exact Hlen | simpl; lia].
  - intros H32 H64.
    destruct (for_loop_defined _ (length data) Hsr
                (fun i st a b c => sr_body_defined al search replace _ i st a b c H32 H64)
                (length data) 0 (scan_init data)) as [st Hst];
      [lia | reflexivity | simpl; lia |].
    unfold search_and_replace. rewrite Hst. simpl. eauto.
  - destruct (for_loop_defined _ (length data) Hsre
                (fun i st a b c => sre_body_defined search replace _ i st a b c)
                (length data) 0 (scan_init data)) as [st Hst];
      [lia | reflexivity | simpl; lia |].
    unfold search_and_replace_exact. rewrite Hst. simpl.
    exists (sc_ret st), (sc_data st). split; [reflexivity|].
    apply (for_loop_length _ Hsre) in Hst as [Hlen _]; [exact Hlen | simpl; lia].
Qed.

Lemma buffer_length_is_invariant_witness :
  length (cstr "hi" ++ replicate 4 x00 ++ cstr "world" ++ replicate 3 x00)
    = length hello_world /\
  exists ret out,
    search_and_replace zero_alloc (cstr "hello") (cstr "hi") hello_world = Done (ret, out).
Proof.
  destruct (buffer_length_is_invariant zero_alloc (cstr "hello") (cstr "hi") hello_world)
    as [(_ & Hlen & Hdef) _].
  split.
  - apply (Hlen 0%Z). vm_compute. reflexivity.
  - apply Hdef; vm_compute; reflexivity.
Defined.
